(** * DisplayAi: the streaming explanation pipeline of ext/js/display/display-ai.js

    A shallow embedding of the [DisplayAi] class: JavaScript strings as
    sequences of UTF-16 code units, the platform services the class calls
    ([String.prototype] helpers, [JSON.parse], the streaming UTF-8
    [TextDecoder]) as executable functions, the DOM pane as a small tree,
    and the class's methods as state-passing functions split at their
    [await] points. *)

From Stdlib Require Import List NArith ZArith Bool String Ascii Lia.
From Stdlib.Strings Require Import Byte.
From Stdlib Require DecimalString.
Import ListNotations.

Set Implicit Arguments.
Set Warnings "-register-all".

(* ================================================================== *)
(** ** JavaScript strings *)
(* ================================================================== *)

Module Js.

(** A string is a sequence of UTF-16 code units. *)
Definition char := N.
Definition jsstring := list char.

Definition chr (a : ascii) : char := N_of_ascii a.

(** An ASCII literal of the source. *)
Definition lit (s : string) : jsstring := map chr (list_ascii_of_string s).

(** [a === b] on strings. *)
Fixpoint str_eqb (a b : jsstring) : bool :=
  match a, b with
  | [], [] => true
  | x :: a', y :: b' => (x =? y)%N && str_eqb a' b'
  | _, _ => false
  end.

(** WhiteSpace and LineTerminator code points, the set stripped by
    [trim], [trimStart] and [trimEnd]. *)
Definition isWhiteSpace (c : char) : bool :=
  ((9 <=? c) && (c <=? 13) || (c =? 32) || (c =? 160) || (c =? 5760)
   || (8192 <=? c) && (c <=? 8202) || (c =? 8232) || (c =? 8233)
   || (c =? 8239) || (c =? 8287) || (c =? 12288) || (c =? 65279))%N.

Fixpoint trimStart (s : jsstring) : jsstring :=
  match s with
  | c :: r => if isWhiteSpace c then trimStart r else s
  | [] => []
  end.

Definition trimEnd (s : jsstring) : jsstring := rev (trimStart (rev s)).

Definition trim (s : jsstring) : jsstring := trimEnd (trimStart s).

(** [s.startsWith(p)] *)
Fixpoint startsWith (s p : jsstring) : bool :=
  match p, s with
  | [], _ => true
  | c :: p', d :: s' => (c =? d)%N && startsWith s' p'
  | _ :: _, [] => false
  end.

(** [s.endsWith(p)] *)
Definition endsWith (s p : jsstring) : bool := startsWith (rev s) (rev p).

(** [s.indexOf(c)] for a one-unit needle: the first position, or -1. *)
Fixpoint indexOf (s : jsstring) (c : char) : Z :=
  match s with
  | [] => (-1)%Z
  | d :: r =>
      if (d =? c)%N then 0%Z
      else let i := indexOf r c in if (i <? 0)%Z then (-1)%Z else (i + 1)%Z
  end.

(** Relative index of [slice]: negative counts from the end, then clamped
    to [0, len]. *)
Definition clampIndex (len i : Z) : Z :=
  if (i <? 0)%Z then Z.max (len + i) 0 else Z.min i len.

(** [s.slice(from, to)] *)
Definition slice (s : jsstring) (from to : Z) : jsstring :=
  let len := Z.of_nat (List.length s) in
  let a := clampIndex len from in
  let b := clampIndex len to in
  firstn (Z.to_nat (b - a)) (skipn (Z.to_nat a) s).

(** [s.slice(from)] *)
Definition sliceFrom (s : jsstring) (from : Z) : jsstring :=
  slice s from (Z.of_nat (List.length s)).

Definition length (s : jsstring) : Z := Z.of_nat (List.length s).

(** Exceptions that reach the class.  Messages of engine-raised errors are
    carried as data. *)
Inductive exn :=
| JsError (message : jsstring)           (* new Error(message) *)
| JsTypeError (message : jsstring)       (* transport failure of fetch *)
| JsSyntaxError (message : jsstring)     (* JSON.parse *)
| JsDOMException (name message : jsstring)
| JsThrownString (s : jsstring).         (* a thrown string primitive *)

(** [e instanceof Error]; DOMException inherits from Error.prototype. *)
Definition instanceofError (e : exn) : bool :=
  match e with JsThrownString _ => false | _ => true end.

Definition instanceofDOMException (e : exn) : bool :=
  match e with JsDOMException _ _ => true | _ => false end.

(** [e.name] *)
Definition name (e : exn) : jsstring :=
  match e with
  | JsError _ => lit "Error"
  | JsTypeError _ => lit "TypeError"
  | JsSyntaxError _ => lit "SyntaxError"
  | JsDOMException n _ => n
  | JsThrownString _ => []
  end.

(** [e.message] *)
Definition message (e : exn) : jsstring :=
  match e with
  | JsError m | JsTypeError m | JsSyntaxError m | JsDOMException _ m => m
  | JsThrownString _ => []
  end.

(** [String(e)] for a thrown value that is not an Error. *)
Definition String_ (e : exn) : jsstring :=
  match e with
  | JsThrownString s => s
  | _ => name e ++ lit ": " ++ message e
  end.

(** Outcome of evaluating a piece of code. *)
Inductive completion (A : Type) :=
| Normal (a : A)
| Throw (e : exn).
Arguments Normal {A} a.
Arguments Throw {A} e.

End Js.

Import Js.

(* ================================================================== *)
(** ** JSON values and [JSON.parse] *)
(* ================================================================== *)

Module Json.

(** Values produced by [JSON.parse].  A Number is kept as the text of its
    literal: no function of the class inspects a numeric value.  An object
    keeps its members in source order; a later duplicate key overrides an
    earlier one on lookup. *)
Inductive value :=
| JNull
| JBool (b : bool)
| JNumber (lexeme : jsstring)
| JString (s : jsstring)
| JArray (xs : list value)
| JObject (members : list (jsstring * value)).

(** Result of a parsing function: a value and the unread input, a syntax
    error, or recursion budget exhausted. *)
Inductive pres (A : Type) :=
| POk (a : A) (rest : jsstring)
| PErr
| PFuel.
Arguments POk {A} a rest.
Arguments PErr {A}.
Arguments PFuel {A}.

(** JSON whitespace: tab, line feed, carriage return, space. *)
Definition is_ws (c : char) : bool :=
  ((c =? 9) || (c =? 10) || (c =? 13) || (c =? 32))%N.

Fixpoint skip_ws (s : jsstring) : jsstring :=
  match s with
  | c :: r => if is_ws c then skip_ws r else s
  | [] => []
  end.

Definition is_digit (c : char) : bool := ((48 <=? c) && (c <=? 57))%N.

Definition hex_val (c : char) : option N :=
  if is_digit c then Some (c - 48)%N
  else if ((97 <=? c) && (c <=? 102))%N then Some (c - 87)%N
  else if ((65 <=? c) && (c <=? 70))%N then Some (c - 55)%N
  else None.

Definition hex4 (a b c d : char) : option char :=
  match hex_val a, hex_val b, hex_val c, hex_val d with
  | Some x, Some y, Some z, Some w => Some (((x * 16 + y) * 16 + z) * 16 + w)%N
  | _, _, _, _ => None
  end.

(** The single-character escapes: quote, backslash, slash, b f n r t. *)
Definition simple_escape (c : char) : option char :=
  if (c =? 34)%N then Some 34%N
  else if (c =? 92)%N then Some 92%N
  else if (c =? 47)%N then Some 47%N
  else if (c =? 98)%N then Some 8%N
  else if (c =? 102)%N then Some 12%N
  else if (c =? 110)%N then Some 10%N
  else if (c =? 114)%N then Some 13%N
  else if (c =? 116)%N then Some 9%N
  else None.

(** The characters of a string literal after its opening quote, up to and
    including the closing quote. *)
Fixpoint parse_string_chars (s acc : jsstring) : pres jsstring :=
  match s with
  | [] => PErr
  | c :: r =>
      if (c =? 34)%N then POk (rev acc) r
      else if (c =? 92)%N then
        match r with
        | [] => PErr
        | e :: r' =>
            if (e =? 117)%N then
              match r' with
              | h1 :: h2 :: h3 :: h4 :: r'' =>
                  match hex4 h1 h2 h3 h4 with
                  | Some u => parse_string_chars r'' (u :: acc)
                  | None => PErr
                  end
              | _ => PErr
              end
            else
              match simple_escape e with
              | Some x => parse_string_chars r' (x :: acc)
              | None => PErr
              end
        end
      else if (c <? 32)%N then PErr
      else parse_string_chars r (c :: acc)
  end.

Fixpoint span_digits (s : jsstring) : jsstring * jsstring :=
  match s with
  | c :: r =>
      if is_digit c then let (ds, r') := span_digits r in (c :: ds, r')
      else ([], s)
  | [] => ([], [])
  end.

(** Optional minus sign. *)
Definition number_sign (s : jsstring) : jsstring * jsstring :=
  match s with
  | c :: r => if (c =? 45)%N then ([c], r) else ([], s)
  | [] => ([], s)
  end.

(** Integer part: a single 0, or a non-zero digit followed by digits. *)
Definition number_int (s : jsstring) : option (jsstring * jsstring) :=
  match s with
  | c :: r =>
      if (c =? 48)%N then Some ([c], r)
      else if is_digit c then let (ds, r') := span_digits r in Some (c :: ds, r')
      else None
  | [] => None
  end.

(** Optional fraction: a dot followed by at least one digit. *)
Definition number_frac (s : jsstring) : option (jsstring * jsstring) :=
  match s with
  | c :: r =>
      if (c =? 46)%N then
        match span_digits r with
        | ([], _) => None
        | (ds, r') => Some (c :: ds, r')
        end
      else Some ([], s)
  | [] => Some ([], s)
  end.

(** Optional exponent: e or E, an optional sign, at least one digit. *)
Definition number_exp (s : jsstring) : option (jsstring * jsstring) :=
  match s with
  | c :: r =>
      if ((c =? 101) || (c =? 69))%N then
        let (sg, r1) :=
          match r with
          | d :: r0 => if ((d =? 43) || (d =? 45))%N then ([d], r0) else ([], r)
          | [] => ([], r)
          end in
        match span_digits r1 with
        | ([], _) => None
        | (ds, r') => Some (c :: sg ++ ds, r')
        end
      else Some ([], s)
  | [] => Some ([], s)
  end.

Definition parse_number (s : jsstring) : pres jsstring :=
  let (sg, s1) := number_sign s in
  match number_int s1 with
  | None => PErr
  | Some (i, s2) =>
      match number_frac s2 with
      | None => PErr
      | Some (f, s3) =>
          match number_exp s3 with
          | None => PErr
          | Some (e, s4) => POk (sg ++ i ++ f ++ e) s4
          end
      end
  end.

(** A keyword literal. *)
Definition parse_keyword (kw : jsstring) (v : value) (s : jsstring) : pres value :=
  if startsWith s kw then POk v (skipn (List.length kw) s) else PErr.

(** Recursive descent over the JSON grammar.  [parse_value] reads one value
    after optional whitespace; [parse_elements] reads the elements of an
    array after its first bracket (or a comma); [parse_members] the members
    of an object after its first brace (or a comma). *)
Fixpoint parse_value (fuel : nat) (s : jsstring) {struct fuel} : pres value :=
  match fuel with
  | O => PFuel
  | S f =>
      match skip_ws s with
      | [] => PErr
      | c :: r =>
          if (c =? 123)%N then
            match skip_ws r with
            | d :: r' =>
                if (d =? 125)%N then POk (JObject []) r'
                else
                  match parse_members f (skip_ws r) [] with
                  | POk ms rest => POk (JObject ms) rest
                  | PErr => PErr
                  | PFuel => PFuel
                  end
            | [] => PErr
            end
          else if (c =? 91)%N then
            match skip_ws r with
            | d :: r' =>
                if (d =? 93)%N then POk (JArray []) r'
                else
                  match parse_elements f (skip_ws r) [] with
                  | POk xs rest => POk (JArray xs) rest
                  | PErr => PErr
                  | PFuel => PFuel
                  end
            | [] => PErr
            end
          else if (c =? 34)%N then
            match parse_string_chars r [] with
            | POk str rest => POk (JString str) rest
            | PErr => PErr
            | PFuel => PFuel
            end
          else if (c =? 110)%N then parse_keyword (lit "null") JNull (c :: r)
          else if (c =? 116)%N then parse_keyword (lit "true") (JBool true) (c :: r)
          else if (c =? 102)%N then parse_keyword (lit "false") (JBool false) (c :: r)
          else
            match parse_number (c :: r) with
            | POk lx rest => POk (JNumber lx) rest
            | PErr => PErr
            | PFuel => PFuel
            end
      end
  end

with parse_elements (fuel : nat) (s : jsstring) (acc : list value)
       {struct fuel} : pres (list value) :=
  match fuel with
  | O => PFuel
  | S f =>
      match parse_value f s with
      | POk v rest =>
          match skip_ws rest with
          | c :: r =>
              if (c =? 44)%N then parse_elements f r (v :: acc)
              else if (c =? 93)%N then POk (rev (v :: acc)) r
              else PErr
          | [] => PErr
          end
      | PErr => PErr
      | PFuel => PFuel
      end
  end

with parse_members (fuel : nat) (s : jsstring) (acc : list (jsstring * value))
       {struct fuel} : pres (list (jsstring * value)) :=
  match fuel with
  | O => PFuel
  | S f =>
      match skip_ws s with
      | c :: r =>
          if (c =? 34)%N then
            match parse_string_chars r [] with
            | POk key rest =>
                match skip_ws rest with
                | d :: r1 =>
                    if (d =? 58)%N then
                      match parse_value f r1 with
                      | POk v rest2 =>
                          match skip_ws rest2 with
                          | e :: r2 =>
                              if (e =? 44)%N then parse_members f r2 ((key, v) :: acc)
                              else if (e =? 125)%N then POk (rev ((key, v) :: acc)) r2
                              else PErr
                          | [] => PErr
                          end
                      | PErr => PErr
                      | PFuel => PFuel
                      end
                    else PErr
                | [] => PErr
                end
            | PErr => PErr
            | PFuel => PFuel
            end
          else PErr
      | [] => PErr
      end
  end.

(** Recursion budget that every input fits in. *)
Definition fuel_for (s : jsstring) : nat := 2 * List.length s + 1.

(** [JSON.parse(s)]: one value surrounded by optional whitespace, or a
    SyntaxError (whose message is engine-defined).  An engine's limit on
    nesting depth is not modelled. *)
Definition JSON_parse (s : jsstring) : completion value :=
  match parse_value (fuel_for s) s with
  | POk v rest =>
      match skip_ws rest with
      | [] => Normal v
      | _ :: _ => Throw (JsSyntaxError (lit "Unexpected non-whitespace character after JSON"))
      end
  | _ => Throw (JsSyntaxError (lit "Unexpected token in JSON"))
  end.

(** [o[key]] on the members of a parsed object: the last member with that
    key, or undefined ([None]). *)
Fixpoint get_member (ms : list (jsstring * value)) (key : jsstring) : option value :=
  match ms with
  | [] => None
  | (k, v) :: r =>
      match get_member r key with
      | Some v' => Some v'
      | None => if str_eqb k key then Some v else None
      end
  end.

(** [v.key] for a named (non-index) key on a non-null value: own members of
    an object; undefined on arrays and primitives. *)
Definition get (v : value) (key : jsstring) : option value :=
  match v with
  | JObject ms => get_member ms key
  | _ => None
  end.

(** [typeof v === 'object'] *)
Definition typeof_object (v : option value) : bool :=
  match v with
  | Some JNull | Some (JArray _) | Some (JObject _) => true
  | _ => false
  end.

Definition is_null (v : option value) : bool :=
  match v with Some JNull => true | _ => false end.

(** [typeof v === 'string'] *)
Definition typeof_string (v : option value) : bool :=
  match v with Some (JString _) => true | _ => false end.

(** [Array.isArray(v)] *)
Definition isArray (v : option value) : bool :=
  match v with Some (JArray _) => true | _ => false end.

End Json.

Import Json.

(* ================================================================== *)
(** ** The streaming UTF-8 decoder: [new TextDecoder('utf-8')] used with
       [decode(value, {stream: true})] *)
(* ================================================================== *)

Module Utf8.

(** State kept between calls of [decode]: the code point being assembled,
    the continuation bytes seen and needed, the bounds for the next byte,
    and whether the byte order mark position has passed. *)
Record decoder := {
  codePoint : N;
  bytesSeen : N;
  bytesNeeded : N;
  lowerBoundary : N;
  upperBoundary : N;
  bomSeen : bool
}.

Definition fresh : decoder :=
  {| codePoint := 0; bytesSeen := 0; bytesNeeded := 0;
     lowerBoundary := 128; upperBoundary := 191; bomSeen := false |}.

Definition reset (d : decoder) : decoder :=
  {| codePoint := 0; bytesSeen := 0; bytesNeeded := 0;
     lowerBoundary := 128; upperBoundary := 191; bomSeen := bomSeen d |}.

Definition lead (d : decoder) (needed cp lo hi : N) : decoder :=
  {| codePoint := cp; bytesSeen := 0; bytesNeeded := needed;
     lowerBoundary := lo; upperBoundary := hi; bomSeen := bomSeen d |}.

Inductive handled :=
| HContinue (d : decoder)
| HCodePoint (d : decoder) (c : N)
| HError (d : decoder)
| HErrorRestore (d : decoder).   (* error; the byte is read again *)

(** One run of the decoder's handler on a byte. *)
Definition handler (d : decoder) (b : N) : handled :=
  if (bytesNeeded d =? 0)%N then
    if (b <=? 127)%N then HCodePoint d b
    else if ((194 <=? b) && (b <=? 223))%N then
      HContinue (lead d 1 (N.land b 31) 128 191)
    else if ((224 <=? b) && (b <=? 239))%N then
      HContinue (lead d 2 (N.land b 15)
                   (if (b =? 224)%N then 160 else 128)
                   (if (b =? 237)%N then 159 else 191))
    else if ((240 <=? b) && (b <=? 244))%N then
      HContinue (lead d 3 (N.land b 7)
                   (if (b =? 240)%N then 144 else 128)
                   (if (b =? 244)%N then 143 else 191))
    else HError d
  else if negb ((lowerBoundary d <=? b) && (b <=? upperBoundary d))%N then
    HErrorRestore (reset d)
  else
    let cp := N.lor (N.shiftl (codePoint d) 6) (N.land b 63) in
    let seen := (bytesSeen d + 1)%N in
    if negb (seen =? bytesNeeded d)%N then
      HContinue {| codePoint := cp; bytesSeen := seen;
                   bytesNeeded := bytesNeeded d;
                   lowerBoundary := 128; upperBoundary := 191;
                   bomSeen := bomSeen d |}
    else HCodePoint (reset d) cp.

(** Code points produced by one input byte; an error yields U+FFFD. *)
Definition step (d : decoder) (b : N) : decoder * list N :=
  match handler d b with
  | HContinue d' => (d', [])
  | HCodePoint d' c => (d', [c])
  | HError d' => (d', [65533%N])
  | HErrorRestore d' =>
      match handler d' b with
      | HContinue d'' => (d'', [65533%N])
      | HCodePoint d'' c => (d'', [65533%N; c])
      | HError d'' | HErrorRestore d'' => (d'', [65533%N; 65533%N])
      end
  end.

(** A code point as UTF-16 code units. *)
Definition utf16 (c : N) : jsstring :=
  if (c <? 65536)%N then [c]
  else [(55296 + N.shiftr (c - 65536) 10)%N; (56320 + N.land (c - 65536) 1023)%N].

(** Output of code points: a leading U+FEFF is dropped once. *)
Fixpoint emit (bom : bool) (cps : list N) : bool * jsstring :=
  match cps with
  | [] => (bom, [])
  | c :: r =>
      if negb bom && (c =? 65279)%N then emit true r
      else let (bom', out) := emit true r in (bom', utf16 c ++ out)
  end.

Definition with_bom (d : decoder) (bom : bool) : decoder :=
  {| codePoint := codePoint d; bytesSeen := bytesSeen d;
     bytesNeeded := bytesNeeded d; lowerBoundary := lowerBoundary d;
     upperBoundary := upperBoundary d; bomSeen := bom |}.

(** [decoder.decode(value, {stream: true})]: the text of the bytes that
    complete a code point; an incomplete trailing sequence stays in the
    decoder for the next call. *)
Fixpoint decode (d : decoder) (bytes : list byte) : decoder * jsstring :=
  match bytes with
  | [] => (d, [])
  | b :: r =>
      let (d1, cps) := step d (Byte.to_N b) in
      let (bom, out) := emit (bomSeen d1) cps in
      let (d2, out') := decode (with_bom d1 bom) r in
      (d2, out ++ out')
  end.

End Utf8.

(* ================================================================== *)
(** ** The pane *)
(* ================================================================== *)

Module Dom.

(** A node under #ai-explanation-content.  [NumberText] stands for the
    text node holding [String(n)] of a Number, written by its literal. *)
Inductive Node :=
| Element (className : jsstring) (children : list Node)
| TextNode (data : jsstring)
| NumberText (lexeme : jsstring).

(** Children of an element after [el.textContent = s]. *)
Definition textContent (s : jsstring) : list Node :=
  match s with
  | [] => []
  | _ :: _ => [TextNode s]
  end.

(** [document.createElement('div')] with [className] and [textContent] set. *)
Definition div_text (className text : jsstring) : Node :=
  Element className (textContent text).

End Dom.

Import Dom.

(* ================================================================== *)
(** ** The class *)
(* ================================================================== *)

Module DisplayAi.

(** Members of a settings object, as [aiGetSettings] resolves it. *)
Definition Settings := list (jsstring * value).

Record Status := {
  status_textContent : jsstring;
  status_hidden : bool
}.

(** The fields of an instance.  An element field is [None] when the
    element is missing from the document ([null] in the source); for
    [_root] and [_button] the payload is the [hidden] flag, for [_content]
    its child nodes. *)
Record t := {
  _root : option bool;
  _content : option (list Node);
  _status : option Status;
  _button : option bool;
  _requestId : Z;
  _settings : option Settings;
  _pendingInput : option (jsstring * jsstring)
}.

(** [display.history.state] as the class reads it: [modifierKeys] is
    [None] unless [state.optionsContext.modifierKeys] is an array;
    [sentenceText] is [None] unless [state.sentence.text] is a string. *)
Record History := {
  modifierKeys : option (list jsstring);
  sentenceText : option jsstring
}.

(** The request [_fetchCompletionStreaming] hands to [fetch], with the
    delay of the timer that aborts its signal. *)
Record Request := {
  req_url : jsstring;
  req_method : jsstring;
  req_headers : list (jsstring * jsstring);
  req_body : value;
  req_abortAfterMs : Z
}.

(** Everything a method does to the instance or asks of its collaborators,
    in program order. *)
Inductive Effect :=
| ERequestId (v : Z)                     (* this._requestId = v *)
| EPendingInput (v : option (jsstring * jsstring))
| ESettings (v : option Settings)        (* this._settings = v *)
| ERootHidden (h : bool)
| EButtonHidden (h : bool)
| EStatus (text : jsstring) (h : bool)
| EContent (children : list Node)
| EGetSettings                           (* api.aiGetSettings() *)
| EFetch (r : Request)
| ELogError (e : exn).

(** State, exceptions and the effect log. *)
Definition M (A : Type) : Type := t -> completion A * t * list Effect.

Definition ret {A} (a : A) : M A := fun st => (Normal a, st, []).

Definition throw {A} (e : exn) : M A := fun st => (Throw e, st, []).

Definition bind {A B} (m : M A) (k : A -> M B) : M B := fun st =>
  match m st with
  | (Normal a, st1, l1) =>
      match k a st1 with (r, st2, l2) => (r, st2, l1 ++ l2) end
  | (Throw e, st1, l1) => (Throw e, st1, l1)
  end.

(** [try { body } catch (e) { handler e }] *)
Definition try_catch {A} (body : M A) (handler : exn -> M A) : M A := fun st =>
  match body st with
  | (Normal a, st1, l1) => (Normal a, st1, l1)
  | (Throw e, st1, l1) =>
      match handler e st1 with (r, st2, l2) => (r, st2, l1 ++ l2) end
  end.

Definition lift {A} (c : completion A) : M A := fun st => (c, st, []).

Definition read {A} (f : t -> A) : M A := fun st => (Normal (f st), st, []).

Definition effect (e : Effect) : M unit := fun st => (Normal tt, st, [e]).

Notation "x <- m ;; k" := (bind m (fun x => k))
  (at level 61, m at next level, right associativity).
Notation "m ;; k" := (bind m (fun _ => k))
  (at level 61, right associativity).

(** Number addition [x + 1] on an integer-valued Number: exact below 2^53;
    at 2^53 the sum rounds back to 2^53. *)
Definition plus_one (x : Z) : Z :=
  if (x <? 2 ^ 53)%Z then (x + 1)%Z else x.

Definition write_requestId (v : Z) : M unit := fun st =>
  (Normal tt,
   {| _root := _root st; _content := _content st; _status := _status st;
      _button := _button st; _requestId := v; _settings := _settings st;
      _pendingInput := _pendingInput st |},
   [ERequestId v]).

Definition write_pendingInput (v : option (jsstring * jsstring)) : M unit := fun st =>
  (Normal tt,
   {| _root := _root st; _content := _content st; _status := _status st;
      _button := _button st; _requestId := _requestId st;
      _settings := _settings st; _pendingInput := v |},
   [EPendingInput v]).

Definition write_settings (v : option Settings) : M unit := fun st =>
  (Normal tt,
   {| _root := _root st; _content := _content st; _status := _status st;
      _button := _button st; _requestId := _requestId st; _settings := v;
      _pendingInput := _pendingInput st |},
   [ESettings v]).

(** [constructor(display)] *)
Definition constructor : t :=
  {| _root := None; _content := None; _status := None; _button := None;
     _requestId := 0; _settings := None; _pendingInput := None |}.

(** [_setVisible(visible)] *)
Definition _setVisible (visible : bool) : M unit := fun st =>
  match _root st with
  | None => (Normal tt, st, [])
  | Some _ =>
      (Normal tt,
       {| _root := Some (negb visible); _content := _content st;
          _status := _status st; _button := _button st;
          _requestId := _requestId st; _settings := _settings st;
          _pendingInput := _pendingInput st |},
       [ERootHidden (negb visible)])
  end.

(** [_setButtonVisible(visible)] *)
Definition _setButtonVisible (visible : bool) : M unit := fun st =>
  match _button st with
  | None => (Normal tt, st, [])
  | Some _ =>
      (Normal tt,
       {| _root := _root st; _content := _content st; _status := _status st;
          _button := Some (negb visible); _requestId := _requestId st;
          _settings := _settings st; _pendingInput := _pendingInput st |},
       [EButtonHidden (negb visible)])
  end.

(** [_setStatusText(value)] *)
Definition _setStatusText (value : jsstring) : M unit := fun st =>
  match _status st with
  | None => (Normal tt, st, [])
  | Some _ =>
      let hidden := (Js.length value =? 0)%Z in
      (Normal tt,
       {| _root := _root st; _content := _content st;
          _status := Some {| status_textContent := value; status_hidden := hidden |};
          _button := _button st; _requestId := _requestId st;
          _settings := _settings st; _pendingInput := _pendingInput st |},
       [EStatus value hidden])
  end.

Definition write_content (children : list Node) : M unit := fun st =>
  (Normal tt,
   {| _root := _root st; _content := Some children; _status := _status st;
      _button := _button st; _requestId := _requestId st;
      _settings := _settings st; _pendingInput := _pendingInput st |},
   [EContent children]).

(** [_setContentText(value)] *)
Definition _setContentText (value : jsstring) : M unit := fun st =>
  match _content st with
  | None => (Normal tt, st, [])
  | Some _ => write_content (textContent value) st
  end.

(** [this._content.appendChild(node)] *)
Definition content_appendChild (node : Node) : M unit := fun st =>
  match _content st with
  | None => (Normal tt, st, [])
  | Some children => write_content (children ++ [node]) st
  end.

(** [_isShiftLookup()] *)
Definition _isShiftLookup (h : History) : bool :=
  match modifierKeys h with
  | Some keys => existsb (fun k => str_eqb k (lit "shift")) keys
  | None => false
  end.

(** [_getSentenceText()] *)
Definition _getSentenceText (h : History) : jsstring :=
  match sentenceText h with
  | Some text => text
  | None => []
  end.

(** The string of a value when [typeof v === 'string'], else the default. *)
Definition string_or (v : option value) (default : jsstring) : jsstring :=
  match v with
  | Some (JString s) => s
  | _ => default
  end.

Definition nl : jsstring := [10%N].

(** [_buildPrompt(style, word, context)] *)
Definition _buildPrompt (style : option value) (word context : jsstring) : jsstring :=
  let style2 := if typeof_string style then trim (string_or style []) else [] in
  let styleBlock :=
    if (Js.length style2 >? 0)%Z
    then nl ++ nl ++ lit "Style requirements:" ++ nl ++ style2 ++ nl
    else [] in
  lit "You are a language-learning assistant." ++ nl ++
  lit "Return a single JSON object and NOTHING else (no markdown, no code fences, no comments)." ++ nl ++
  lit "The JSON must be valid, UTF-8, and use double quotes." ++ nl ++
  lit "Output schema:" ++ nl ++
  lit "{" ++ nl ++
  lit "  " ++ [34%N] ++ lit "title" ++ [34%N] ++ lit ": string," ++ nl ++
  lit "  " ++ [34%N] ++ lit "word" ++ [34%N] ++ lit ": string," ++ nl ++
  lit "  " ++ [34%N] ++ lit "meaning" ++ [34%N] ++ lit ": string," ++ nl ++
  lit "  " ++ [34%N] ++ lit "meaning_in_context" ++ [34%N] ++ lit ": string," ++ nl ++
  lit "  " ++ [34%N] ++ lit "usage" ++ [34%N] ++ lit ": string," ++ nl ++
  lit "  " ++ [34%N] ++ lit "examples" ++ [34%N] ++ lit ": [{" ++ [34%N] ++ lit "text"
    ++ [34%N] ++ lit ": string, " ++ [34%N] ++ lit "explain" ++ [34%N] ++ lit ": string}]" ++ nl ++
  lit "}" ++ nl ++
  styleBlock ++
  nl ++ lit "Input:" ++ nl ++
  lit "word: " ++ word ++ nl ++
  lit "context: " ++ context ++ nl.

(** [_tryParseJson(text)]; the result [JNull] is the source's [null]. *)
Definition _tryParseJson (text : value) : completion value :=
  match text with
  | JString s =>
      let trimmed := trim s in
      if negb (startsWith trimmed (lit "{")) || negb (endsWith trimmed (lit "}"))
      then Normal JNull
      else
        match JSON_parse trimmed with
        | Normal v => Normal v
        | Throw _ => Normal JNull
        end
  | _ => Normal JNull
  end.

(** [_getStreamDeltaContent(data)] *)
Definition _getStreamDeltaContent (data : value) : jsstring :=
  if negb (typeof_object (Some data)) || is_null (Some data) then []
  else
    let choices := get data (lit "choices") in
    match choices with
    | Some (JArray (choice0 :: _)) =>
        if negb (typeof_object (Some choice0)) || is_null (Some choice0) then []
        else
          let delta := get choice0 (lit "delta") in
          let fromMessage :=
            let message := get choice0 (lit "message") in
            match message with
            | Some m =>
                if typeof_object message && negb (is_null message) then
                  let content := get m (lit "content") in
                  if typeof_string content then string_or content [] else []
                else []
            | None => []
            end in
          match delta with
          | Some d =>
              if typeof_object delta && negb (is_null delta) then
                let content := get d (lit "content") in
                if typeof_string content then string_or content []
                else fromMessage
              else fromMessage
          | None => fromMessage
          end
    | _ => []
    end.

(** [String(value)] written to [textContent], for a value that is not an
    object: the branch of [_setContentRendered] for primitives. *)
Definition String_textContent (v : value) : list Node :=
  match v with
  | JNull => textContent (lit "null")
  | JBool true => textContent (lit "true")
  | JBool false => textContent (lit "false")
  | JNumber lx => [NumberText lx]
  | JString s => textContent s
  | JArray _ | JObject _ => []
  end.

(** The closure [addSection(sectionTitle, bodyText)].  Its callers pass
    strings, for which the [typeof] test of the source holds. *)
Definition addSection (sectionTitle bodyText : jsstring) : M unit :=
  if (Js.length (trim bodyText) =? 0)%Z then ret tt
  else
    let h := div_text (lit "ai-explanation-section-title") sectionTitle in
    let p := div_text (lit "ai-explanation-section-body") bodyText in
    let section := Element (lit "ai-explanation-section") [h; p] in
    content_appendChild section.

(** One turn of the loop over [examples]: the children of the list element
    after the turn. *)
Definition example_turn (items : list Node) (example : value) : list Node :=
  if negb (typeof_object (Some example)) || is_null (Some example) then items
  else
    let text := string_or (get example (lit "text")) [] in
    let explain := string_or (get example (lit "explain")) [] in
    if (Js.length text =? 0)%Z && (Js.length explain =? 0)%Z then items
    else
      let item0 : list Node := [] in
      let item1 :=
        if (Js.length text >? 0)%Z
        then item0 ++ [div_text (lit "ai-explanation-example-text") text]
        else item0 in
      let item2 :=
        if (Js.length explain >? 0)%Z
        then item1 ++ [div_text (lit "ai-explanation-example-explain") explain]
        else item1 in
      items ++ [Element (lit "ai-explanation-example") item2].

(** [_setContentRendered(value)] *)
Definition _setContentRendered (value : value) : M unit :=
  content <- read _content ;;
  match content with
  | None => ret tt
  | Some _ =>
      write_content (textContent []) ;;
      if negb (typeof_object (Some value)) || is_null (Some value) then
        write_content (String_textContent value)
      else
        let data := value in
        let title := string_or (get data (lit "title")) [] in
        let word := string_or (get data (lit "word")) [] in
        let meaning := string_or (get data (lit "meaning")) [] in
        let meaningInContext := string_or (get data (lit "meaning_in_context")) [] in
        let usage := string_or (get data (lit "usage")) [] in
        let examples :=
          match get data (lit "examples") with
          | Some (JArray xs) => xs
          | _ => []
          end in
        let titleNode :=
          div_text (lit "ai-explanation-render-title")
            (if (Js.length title >? 0)%Z then title
             else if (Js.length word >? 0)%Z then word else lit "AI") in
        let header0 := [titleNode] in
        let header1 :=
          if (Js.length word >? 0)%Z
          then header0 ++ [div_text (lit "ai-explanation-render-badge") word]
          else header0 in
        content_appendChild (Element (lit "ai-explanation-render-header") header1) ;;
        addSection (lit "Meaning") meaning ;;
        addSection (lit "In context") meaningInContext ;;
        addSection (lit "Usage") usage ;;
        if (Z.of_nat (List.length examples) >? 0)%Z then
          let h := div_text (lit "ai-explanation-section-title") (lit "Examples") in
          let items := fold_left example_turn examples [] in
          let section :=
            Element (lit "ai-explanation-section")
              [h; Element (lit "ai-explanation-examples") items] in
          content_appendChild section
        else ret tt
  end.

(* ------------------------------------------------------------------ *)
(** *** The streaming client *)

(** How a platform promise of the call ([fetch], [response.text()],
    [reader.read()]) rejects: with the AbortError of the aborted signal,
    with the TypeError of a transport failure, or with a DOMException of
    whatever name the platform gives the failure. *)
Inductive NetFailure :=
| Aborted
| Transport (message : jsstring)
| Failed (name message : jsstring).

Definition rejection (f : NetFailure) : exn :=
  match f with
  | Aborted => JsDOMException (lit "AbortError") (lit "signal is aborted without reason")
  | Transport m => JsTypeError m
  | Failed n m => JsDOMException n m
  end.

(** How the body stream ends: [read()] reports [done], or rejects. *)
Inductive Terminal :=
| StreamDone
| StreamFail (f : NetFailure).

(** What the network delivers after the request: the chunks handed out by
    successive [reader.read()] calls, then the end of the stream. *)
Record Body := {
  chunks : list (list byte);
  terminal : Terminal
}.

Record Response := {
  ok : bool;
  status : N;
  text : NetFailure + jsstring;      (* await response.text() *)
  body : option Body                 (* response.body, None for null *)
}.

Inductive FetchOutcome :=
| FetchRejected (f : NetFailure)
| FetchResolved (r : Response).

(** What the body of the inner loop does with one line. *)
Inductive LineResult :=
| Continue (result : jsstring) (calls : list jsstring)
| Return (result : jsstring) (calls : list jsstring).

(** The inner loop's body from line 295 on, for the line cut from the
    buffer; [calls] lists the arguments [onText] has been called with. *)
Definition onLine (line result : jsstring) (calls : list jsstring) : LineResult :=
  if negb (startsWith line (lit "data:")) then Continue result calls
  else
    let dataStr := trim (sliceFrom line 5) in
    if str_eqb dataStr (lit "[DONE]") then Return result (calls ++ [result])
    else
      match JSON_parse dataStr with
      | Throw _ => Continue result calls
      | Normal data =>
          let delta := _getStreamDeltaContent data in
          if (Js.length delta >? 0)%Z then
            let result := result ++ delta in
            Continue result (calls ++ [result])
          else Continue result calls
      end.

(** Result of the inner [while (true)] loop over the lines of the buffer. *)
Inductive LineLoop :=
| LBreak (buffer result : jsstring) (calls : list jsstring)
| LReturn (result : jsstring) (calls : list jsstring)
| LFuel.

(** The inner loop (lines 289-316).  [fuel] bounds the number of turns. *)
Fixpoint lineLoop (fuel : nat) (buffer result : jsstring) (calls : list jsstring)
  : LineLoop :=
  match fuel with
  | O => LFuel
  | S fuel' =>
      let lineEnd := indexOf buffer 10%N in
      if (lineEnd <? 0)%Z then LBreak buffer result calls
      else
        let line := trimEnd (slice buffer 0 lineEnd) in
        let buffer := sliceFrom buffer (lineEnd + 1) in
        match onLine line result calls with
        | Return result calls => LReturn result calls
        | Continue result calls => lineLoop fuel' buffer result calls
        end
  end.

(** State of the outer loop when it stops taking chunks. *)
Inductive ReadState :=
| RPending (decoder : Utf8.decoder) (buffer result : jsstring) (calls : list jsstring)
| RReturn (result : jsstring) (calls : list jsstring)
| RFuel.

(** The turns of the outer loop (lines 284-317) in which [read()] yields a
    chunk. *)
Fixpoint readChunks (reads : list (list byte)) (decoder : Utf8.decoder)
    (buffer result : jsstring) (calls : list jsstring) : ReadState :=
  match reads with
  | [] => RPending decoder buffer result calls
  | value :: reads' =>
      let (decoder', decoded) := Utf8.decode decoder value in
      let buffer := buffer ++ decoded in
      match lineLoop (S (List.length buffer)) buffer result calls with
      | LReturn result calls => RReturn result calls
      | LBreak buffer result calls => readChunks reads' decoder' buffer result calls
      | LFuel => RFuel
      end
  end.

(** The outer loop to its end and the two statements after it (lines
    278-320): the [onText] calls and the completion of the [try] block;
    [None] only if the inner loop exceeded its bound. *)
Definition readLoop (b : Body) : list jsstring * option (completion jsstring) :=
  match readChunks (chunks b) Utf8.fresh [] [] [] with
  | RReturn result calls => (calls, Some (Normal result))
  | RPending _ buffer result calls =>
      match terminal b with
      | StreamFail f => (calls, Some (Throw (rejection f)))
      | StreamDone =>
          let final := if (Js.length result >? 0)%Z then result else trim buffer in
          (calls ++ [final], Some (Normal final))
      end
  | RFuel => ([], None)
  end.

(** Decimal digits of [response.status]. *)
Definition decimal (n : N) : jsstring :=
  lit (DecimalString.NilZero.string_of_uint (N.to_uint n)).

(** The request built in lines 241-265. *)
Definition build_request (apiUrl : jsstring) (apiKey model : option value)
    (prompt : jsstring) : Request :=
  let headers0 := [(lit "Content-Type", lit "application/json")] in
  let headers :=
    if typeof_string apiKey && (Js.length (string_or apiKey []) >? 0)%Z
    then headers0 ++ [(lit "Authorization", lit "Bearer " ++ string_or apiKey [])]
    else headers0 in
  let body0 :=
    [(lit "messages",
      JArray [JObject [(lit "role", JString (lit "user"));
                       (lit "content", JString prompt)]]);
     (lit "stream", JBool true);
     (lit "response_format", JObject [(lit "type", JString (lit "json_object"))])] in
  let body :=
    if typeof_string model && (Js.length (string_or model []) >? 0)%Z
    then body0 ++ [(lit "model", JString (string_or model []))]
    else body0 in
  {| req_url := apiUrl; req_method := lit "POST"; req_headers := headers;
     req_body := JObject body; req_abortAfterMs := 20000 |}.

(** The [try] block of [_fetchCompletionStreaming] (lines 260-320). *)
Definition fetch_try (net : FetchOutcome) : list jsstring * option (completion jsstring) :=
  match net with
  | FetchRejected f => ([], Some (Throw (rejection f)))
  | FetchResolved response =>
      if negb (ok response) then
        match text response with
        | inl f => ([], Some (Throw (rejection f)))
        | inr t =>
            ([], Some (Throw (JsError (lit "AI request failed (" ++ decimal (status response)
                                        ++ lit "): " ++ slice t 0 500))))
        end
      else
        match body response with
        | None =>
            match text response with
            | inl f => ([], Some (Throw (rejection f)))
            | inr data => ([data], Some (Normal data))
            end
        | Some b => readLoop b
        end
  end.

(** The [catch] block (lines 321-326). *)
Definition fetch_catch (e : exn) : completion jsstring :=
  if instanceofDOMException e && str_eqb (name e) (lit "AbortError")
  then Throw (JsError (lit "AI request timed out"))
  else Throw e.

(** One call of [_fetchCompletionStreaming]. *)
Record Run := {
  run_request : Request;                       (* passed to fetch *)
  run_onText : list jsstring;                  (* arguments of the onText calls *)
  run_result : option (completion jsstring);   (* how the promise settles *)
  run_timerCleared : bool                      (* finally { clearTimeout } ran *)
}.

(** [_fetchCompletionStreaming({apiUrl, apiKey, model, prompt, onText})]
    against what the network delivers. *)
Definition _fetchCompletionStreaming (apiUrl : jsstring) (apiKey model : option value)
    (prompt : jsstring) (net : FetchOutcome) : Run :=
  let tried := fetch_try net in
  {| run_request := build_request apiUrl apiKey model prompt;
     run_onText := fst tried;
     run_result :=
       match snd tried with
       | Some (Normal t) => Some (Normal t)
       | Some (Throw e) => Some (fetch_catch e)
       | None => None
       end;
     run_timerCleared := true |}.

(* ------------------------------------------------------------------ *)
(** *** Event handlers and their continuations

    An [async] method runs to its first [await], and each settlement of the
    awaited promise runs the rest up to the next [await].  A suspended
    method is a [Pending] value holding the locals it captured. *)

Inductive Pending :=
| PUpdateSettings (requestId : Z) (query : option jsstring)
    (* _onContentUpdateStart at line 93 *)
| PExplainSettings (requestId : Z) (word context : jsstring)
    (* _requestExplain at line 144 *)
| PCompletion (requestId : Z).
    (* _requestExplain at line 151, and its onText closure *)

Definition captured (p : Pending) : Z :=
  match p with
  | PUpdateSettings r _ | PExplainSettings r _ _ | PCompletion r => r
  end.

(** [_onContentClear()] *)
Definition _onContentClear : M (list Pending) :=
  r <- read _requestId ;;
  write_requestId (plus_one r) ;;
  write_pendingInput None ;;
  _setVisible false ;;
  _setButtonVisible false ;;
  _setStatusText [] ;;
  _setContentText [] ;;
  ret [].

(** The [catch] block of [_requestExplain] (lines 176-181). *)
Definition _requestExplain_catch (requestId : Z) (e : exn) : M (list Pending) :=
  current <- read _requestId ;;
  if negb (requestId =? current)%Z then ret []
  else
    _setStatusText (lit "AI request failed.") ;;
    _setContentText (if instanceofError e then message e else String_ e) ;;
    effect (ELogError e) ;;
    ret [].

(** [_requestExplain] from the settings on (lines 145-165), inside [try]. *)
Definition _requestExplain_settings (requestId : Z) (word context : jsstring)
    (settings : Settings) : M (list Pending) :=
  try_catch
    (current <- read _requestId ;;
     if negb (requestId =? current)%Z then ret []
     else
       let apiUrl :=
         if typeof_string (get_member settings (lit "apiUrl"))
         then trim (string_or (get_member settings (lit "apiUrl")) [])
         else [] in
       if (Js.length apiUrl =? 0)%Z
       then throw (JsError (lit "AI API URL not configured"))
       else
         let prompt := _buildPrompt (get_member settings (lit "prompt")) word context in
         effect (EFetch (build_request apiUrl (get_member settings (lit "apiKey"))
                           (get_member settings (lit "model")) prompt)) ;;
         ret [PCompletion requestId])
    (_requestExplain_catch requestId).

(** [_requestExplain(word, context)] up to its first [await]. *)
Definition _requestExplain (word context : jsstring) : M (list Pending) :=
  r <- read _requestId ;;
  write_requestId (plus_one r) ;;
  requestId <- read _requestId ;;
  _setVisible true ;;
  _setStatusText (lit "AI is thinking" ++ [8230%N]) ;;
  _setContentText [] ;;
  cached <- read _settings ;;
  match cached with
  | Some settings => _requestExplain_settings requestId word context settings
  | None => effect EGetSettings ;; ret [PExplainSettings requestId word context]
  end.

(** The closure passed as [onText] (lines 156-164). *)
Definition onText (requestId : Z) (partial : jsstring) : M (list Pending) :=
  current <- read _requestId ;;
  if negb (requestId =? current)%Z then ret []
  else
    _setContentText partial ;;
    parsed <- lift (_tryParseJson (JString partial)) ;;
    match parsed with
    | JNull => ret []
    | _ => _setStatusText [] ;; _setContentRendered parsed ;; ret []
    end.

(** [_requestExplain] after the completion resolves (lines 167-175). *)
Definition _requestExplain_resolved (requestId : Z) (resultText : jsstring)
  : M (list Pending) :=
  try_catch
    (current <- read _requestId ;;
     if negb (requestId =? current)%Z then ret []
     else
       parsed <- lift (_tryParseJson (JString resultText)) ;;
       _setStatusText [] ;;
       match parsed with
       | JNull => _setContentText resultText ;; ret []
       | _ => _setContentRendered parsed ;; ret []
       end)
    (_requestExplain_catch requestId).

(** [_onContentUpdateStart({query})] up to its [await]. *)
Definition _onContentUpdateStart (query : option jsstring) (h : History)
  : M (list Pending) :=
  r <- read _requestId ;;
  write_requestId (plus_one r) ;;
  write_pendingInput None ;;
  if negb (_isShiftLookup h) then _setVisible false ;; ret []
  else
    requestId <- read _requestId ;;
    effect EGetSettings ;;
    ret [PUpdateSettings requestId query].

(** [_onContentUpdateStart] after [aiGetSettings] resolves (lines 94-121);
    [h] is the history state at that moment. *)
Definition _onContentUpdateStart_resolved (requestId : Z) (query : option jsstring)
    (settings : Settings) (h : History) : M (list Pending) :=
  current <- read _requestId ;;
  if negb (requestId =? current)%Z then ret []
  else
    write_settings (Some settings) ;;
    let word := match query with Some q => q | None => [] end in
    let context := _getSentenceText h in
    write_pendingInput (Some (word, context)) ;;
    _setVisible true ;;
    cached <- read _settings ;;
    let mode := match cached with Some c => get_member c (lit "mode") | None => None end in
    if typeof_string mode && str_eqb (string_or mode []) (lit "manual") then
      _setButtonVisible true ;;
      _setStatusText (lit "Click AI to explain.") ;;
      _setContentText [] ;;
      ret []
    else
      _setButtonVisible false ;;
      _requestExplain word context.

(** [_onContentUpdateStart] after [aiGetSettings] rejects: the [catch]
    block (lines 97-105). *)
Definition _onContentUpdateStart_rejected (e : exn) : M (list Pending) :=
  write_settings None ;;
  _setVisible true ;;
  _setButtonVisible false ;;
  _setStatusText (lit "AI settings unavailable.") ;;
  _setContentText [] ;;
  effect (ELogError e) ;;
  ret [].

(** [_onButtonClick()] *)
Definition _onButtonClick (h : History) : M (list Pending) :=
  if negb (_isShiftLookup h) then ret []
  else
    pendingInput <- read _pendingInput ;;
    match pendingInput with
    | None => ret []
    | Some (word, context) => _requestExplain word context
    end.

(** What the document holds when [prepare] looks it up. *)
Record Document := {
  doc_root : option bool;
  doc_content : option (list Node);
  doc_status : option Status;
  doc_button : option bool
}.

(** [prepare()]: the elements are looked up under the root. *)
Definition prepare (doc : Document) (st : t) : t :=
  match doc_root doc with
  | None =>
      {| _root := None; _content := _content st; _status := _status st;
         _button := _button st; _requestId := _requestId st;
         _settings := _settings st; _pendingInput := _pendingInput st |}
  | Some hidden =>
      {| _root := Some hidden; _content := doc_content doc;
         _status := doc_status doc; _button := doc_button doc;
         _requestId := _requestId st; _settings := _settings st;
         _pendingInput := _pendingInput st |}
  end.

(* ------------------------------------------------------------------ *)
(** *** The event loop *)

(** The instance with its suspended continuations. *)
Record System := {
  ai : t;
  pending : list Pending
}.

(** One task of the event loop.  [i] indexes the suspended continuation a
    settlement belongs to. *)
Inductive Event :=
| ContentClear
| ContentUpdateStart (query : option jsstring) (h : History)
| ButtonClick (h : History)
| SettingsResolved (i : nat) (settings : Settings) (h : History)
| SettingsRejected (i : nat) (e : exn)
| Partial (i : nat) (text : jsstring)
| CompletionResolved (i : nat) (text : jsstring)
| CompletionRejected (i : nat) (e : exn).

(** [l] without its [i]-th element. *)
Definition remove_nth {A} (i : nat) (l : list A) : list A :=
  firstn i l ++ skipn (S i) l.

(** The code a task runs, and whether the continuation it resumes is used
    up.  [None] when the task cannot occur in this state. *)
Definition dispatch (sys : System) (ev : Event) : option (M (list Pending) * list Pending) :=
  match ev with
  | ContentClear => Some (_onContentClear, pending sys)
  | ContentUpdateStart query h => Some (_onContentUpdateStart query h, pending sys)
  | ButtonClick h => Some (_onButtonClick h, pending sys)
  | SettingsResolved i settings h =>
      match nth_error (pending sys) i with
      | Some (PUpdateSettings r q) =>
          Some (_onContentUpdateStart_resolved r q settings h, remove_nth i (pending sys))
      | Some (PExplainSettings r w c) =>
          Some (_requestExplain_settings r w c settings, remove_nth i (pending sys))
      | _ => None
      end
  | SettingsRejected i e =>
      match nth_error (pending sys) i with
      | Some (PUpdateSettings r q) =>
          Some (_onContentUpdateStart_rejected e, remove_nth i (pending sys))
      | Some (PExplainSettings r w c) =>
          Some (_requestExplain_catch r e, remove_nth i (pending sys))
      | _ => None
      end
  | Partial i text =>
      match nth_error (pending sys) i with
      | Some (PCompletion r) => Some (onText r text, pending sys)
      | _ => None
      end
  | CompletionResolved i text =>
      match nth_error (pending sys) i with
      | Some (PCompletion r) =>
          Some (_requestExplain_resolved r text, remove_nth i (pending sys))
      | _ => None
      end
  | CompletionRejected i e =>
      match nth_error (pending sys) i with
      | Some (PCompletion r) =>
          Some (_requestExplain_catch r e, remove_nth i (pending sys))
      | _ => None
      end
  end.

(** One task: the new system and the effects of the task. *)
Definition step (sys : System) (ev : Event) : option (System * list Effect) :=
  match dispatch sys ev with
  | None => None
  | Some (code, rest) =>
      match code (ai sys) with
      | (Normal spawned, st, log) => Some ({| ai := st; pending := rest ++ spawned |}, log)
      | (Throw _, st, log) => Some ({| ai := st; pending := rest |}, log)
      end
  end.

(** A sequence of tasks; the effects of all of them in order. *)
Fixpoint run (sys : System) (evs : list Event) : option (System * list Effect) :=
  match evs with
  | [] => Some (sys, [])
  | ev :: evs' =>
      match step sys ev with
      | None => None
      | Some (sys1, log1) =>
          match run sys1 evs' with
          | None => None
          | Some (sys2, log2) => Some (sys2, log1 ++ log2)
          end
      end
  end.

(** The effects that change what the user sees or the cached settings. *)
Definition visible (e : Effect) : bool :=
  match e with
  | ESettings _ | ERootHidden _ | EButtonHidden _ | EStatus _ _ | EContent _ => true
  | _ => false
  end.

End DisplayAi.
Import DisplayAi.

(* ================================================================== *)
(** ** Reference definitions for the streaming claims

    The claims speak of the complete lines of a response and of what the
    client accumulates from them; these definitions say the same over the
    whole decoded text, to be compared with the loops of the source. *)
(* ================================================================== *)

Module Lines.

(** The complete (newline-terminated) lines of a text, without their
    newline, and the unterminated tail. *)
Fixpoint complete_lines (text : jsstring) : list jsstring * jsstring :=
  match text with
  | [] => ([], [])
  | c :: r =>
      let (ls, tail) := complete_lines r in
      if (c =? 10)%N then ([] :: ls, tail)
      else
        match ls with
        | [] => ([], c :: tail)
        | l :: ls' => ((c :: l) :: ls', tail)
        end
  end.

(** The lines put back together, each with its newline. *)
Definition join_lines (ls : list jsstring) : jsstring :=
  List.concat (map (fun l => l ++ [10%N]) ls).

(** The client's handling of a sequence of complete lines: each line in
    turn, stopping at the first one that makes it return. *)
Fixpoint consume_lines (ls : list jsstring) (result : jsstring) (calls : list jsstring)
  : LineResult :=
  match ls with
  | [] => Continue result calls
  | l :: ls' =>
      match onLine (trimEnd l) result calls with
      | Return r c => Return r c
      | Continue r c => consume_lines ls' r c
      end
  end.

(** The payload of a data line as the client reads it. *)
Definition payload (line : jsstring) : jsstring := trim (sliceFrom (trimEnd line) 5).

(** A complete line whose data payload is the sentinel. *)
Definition is_sentinel (line : jsstring) : bool :=
  startsWith (trimEnd line) (lit "data:") && str_eqb (payload line) (lit "[DONE]").

(** A data line, not the sentinel, whose payload fails to parse. *)
Definition is_malformed (line : jsstring) : bool :=
  startsWith (trimEnd line) (lit "data:")
  && negb (str_eqb (payload line) (lit "[DONE]"))
  && match JSON_parse (payload line) with Throw _ => true | Normal _ => false end.

(** A response with a body stream and a 2xx status. *)
Definition streaming (reads : list (list byte)) (term : Terminal) : FetchOutcome :=
  FetchResolved {| ok := true; status := 200; text := inr [];
                   body := Some {| chunks := reads; terminal := term |} |}.

(** The whole text a body decodes to, whatever its chunking. *)
Definition decoded (reads : list (list byte)) : jsstring :=
  snd (Utf8.decode Utf8.fresh (List.concat reads)).

(** An ASCII literal written with apostrophes in place of the double
    quotes of JSON. *)
Fixpoint dq (s : string) : string :=
  match s with
  | EmptyString => EmptyString
  | String a r => String (if Ascii.eqb a "'" then "034"%char else a) (dq r)
  end.

(** The bytes of such a literal. *)
Definition bytes_of (s : string) : list byte := list_byte_of_string (dq s).

(** The text of such a literal. *)
Definition json (s : string) : jsstring := lit (dq s).

(** The stream of the sentinel test: one delta, then the sentinel. *)
Definition stream_x_done : list byte :=
  bytes_of "data: {'choices':[{'delta':{'content':'x'}}]}" ++ [x0a; x0a]
  ++ bytes_of "data: [DONE]" ++ [x0a; x0a].

(** A stream that is the sentinel alone. *)
Definition stream_done_only : list byte := bytes_of "data: [DONE]" ++ [x0a].

(** The stream of the malformed-line test, and the same without the
    malformed line. *)
Definition stream_a_bad_b : list byte :=
  bytes_of "data: {'choices':[{'delta':{'content':'a'}}]}" ++ [x0a]
  ++ bytes_of "data: not-json" ++ [x0a]
  ++ bytes_of "data: {'choices':[{'delta':{'content':'b'}}]}" ++ [x0a].

Definition stream_a_b : list byte :=
  bytes_of "data: {'choices':[{'delta':{'content':'a'}}]}" ++ [x0a]
  ++ bytes_of "data: {'choices':[{'delta':{'content':'b'}}]}" ++ [x0a].

(** The error of a timed-out call. *)
Definition timeout_error : exn := JsError (lit "AI request timed out").

(** The abort condition, as the [catch] block tests it. *)
Definition is_abort (e : exn) : bool :=
  instanceofDOMException e && str_eqb (name e) (lit "AbortError").





(** The stream is read to its end: no complete line of its decoded text
    is the sentinel. *)
Definition reaches_end (reads : list (list byte)) : bool :=
  forallb (fun l => negb (is_sentinel l)) (fst (complete_lines (decoded reads))).

(** What can go wrong in the underlying operation: a platform promise
    rejects, or the server answers with a non-2xx status and a body
    text. *)
Inductive Failure :=
| Rejected (f : NetFailure)
| HttpStatus (st : N) (t : jsstring).

(** The failure of the underlying operation, if it fails: [fetch]
    rejects; the response is non-2xx, or reading its text rejects; the
    text of a 2xx response without a body stream rejects; a read of the
    body stream rejects before a sentinel line ended the reading. *)
Definition underlying_failure (net : FetchOutcome) : option Failure :=
  match net with
  | FetchRejected f => Some (Rejected f)
  | FetchResolved r =>
      if ok r then
        match body r with
        | None =>
            match text r with
            | inl f => Some (Rejected f)
            | inr _ => None
            end
        | Some b =>
            match terminal b with
            | StreamFail f => if reaches_end (chunks b) then Some (Rejected f) else None
            | StreamDone => None
            end
        end
      else
        match text r with
        | inl f => Some (Rejected f)
        | inr t => Some (HttpStatus (status r) t)
        end
  end.

(** The abort condition of a platform rejection. *)
Definition aborted (f : NetFailure) : bool :=
  match f with
  | Aborted => true
  | Transport _ => false
  | Failed n _ => str_eqb n (lit "AbortError")
  end.

(** The error a failure is to surface as: the timeout error for the
    abort condition; any other rejection as it is; for a non-2xx
    response the error carrying the status and the head of the body. *)
Definition surfaced (fl : Failure) : exn :=
  match fl with
  | Rejected f => if aborted f then timeout_error else rejection f
  | HttpStatus st t =>
      JsError (lit "AI request failed (" ++ decimal st ++ lit "): " ++ firstn 500 t)
  end.

(** A 404 with a short body. *)
Definition not_found : FetchOutcome :=
  FetchResolved {| ok := false; status := 404; text := inr (lit "missing");
                   body := Some {| chunks := [list_byte_of_string "missing"];
                                   terminal := StreamDone |} |}.

(** Every way of cutting a byte sequence in two. *)
Definition cuts (bytes : list byte) : list (list (list byte)) :=
  map (fun n => [firstn n bytes; skipn n bytes]) (seq 0 (S (List.length bytes))).

End Lines.

Import Lines.

(* ================================================================== *)
(** ** Reference definitions for the rendering claim

    The section tree in the words of the renderer's contract, to be
    compared with what [_setContentRendered] builds. *)
(* ================================================================== *)

Module Render.

(** A field that is a non-empty string. *)
Definition nonempty_string (o : list (jsstring * value)) (key : jsstring)
  : option jsstring :=
  match get_member o key with
  | Some (JString (c :: s)) => Some (c :: s)
  | _ => None
  end.

(** Empty or whitespace only. *)
Definition blank (s : jsstring) : bool := forallb isWhiteSpace s.

(** The header: the title, else the word, else the generic label; then a
    badge when there is a word. *)
Definition header (o : list (jsstring * value)) : Node :=
  Element (lit "ai-explanation-render-header")
    (div_text (lit "ai-explanation-render-title")
       match nonempty_string o (lit "title") with
       | Some t => t
       | None =>
           match nonempty_string o (lit "word") with
           | Some w => w
           | None => lit "AI"
           end
       end
     :: match nonempty_string o (lit "word") with
        | Some w => [div_text (lit "ai-explanation-render-badge") w]
        | None => []
        end).

(** A labelled section, present when the field is a string that is not
    blank. *)
Definition section (label : jsstring) (o : list (jsstring * value)) (key : jsstring)
  : list Node :=
  match get_member o key with
  | Some (JString s) =>
      if blank s then []
      else [Element (lit "ai-explanation-section")
              [div_text (lit "ai-explanation-section-title") label;
               div_text (lit "ai-explanation-section-body") s]]
  | _ => []
  end.

(** The entry of one example: a text line and an explain line, each when
    its field is a non-empty string; no entry when it has neither. *)
Definition example_entry (example : value) : list Node :=
  match example with
  | JObject m =>
      match
        match nonempty_string m (lit "text") with
        | Some t => [div_text (lit "ai-explanation-example-text") t]
        | None => []
        end ++
        match nonempty_string m (lit "explain") with
        | Some e => [div_text (lit "ai-explanation-example-explain") e]
        | None => []
        end
      with
      | [] => []
      | line :: lines => [Element (lit "ai-explanation-example") (line :: lines)]
      end
  | _ => []
  end.

(** The examples section, present when the field is a non-empty array. *)
Definition examples_section (o : list (jsstring * value)) : list Node :=
  match get_member o (lit "examples") with
  | Some (JArray (x :: xs)) =>
      [Element (lit "ai-explanation-section")
         [div_text (lit "ai-explanation-section-title") (lit "Examples");
          Element (lit "ai-explanation-examples") (flat_map example_entry (x :: xs))]]
  | _ => []
  end.

(** The rendered pane, in order. *)
Definition render (o : list (jsstring * value)) : list Node :=
  header o
  :: section (lit "Meaning") o (lit "meaning")
  ++ section (lit "In context") o (lit "meaning_in_context")
  ++ section (lit "Usage") o (lit "usage")
  ++ examples_section o.

(** An instance whose content element holds the given children, or is
    missing. *)
Definition with_content (st : DisplayAi.t) (c : option (list Node)) : DisplayAi.t :=
  {| _root := _root st; _content := c; _status := _status st;
     _button := _button st; _requestId := _requestId st;
     _settings := _settings st; _pendingInput := _pendingInput st |}.

(** A result object with every kind of defect: a title of the wrong type,
    a blank meaning, and examples that are not objects or have no text. *)
Definition defective : list (jsstring * value) :=
  [(lit "title", JNumber (lit "3"));
   (lit "word", JString (lit "neko"));
   (lit "meaning", JString (lit "  "));
   (lit "usage", JString (lit "noun"));
   (lit "examples",
    JArray [JNull;
            JObject [(lit "text", JString (lit "neko da"))];
            JObject [(lit "text", JBool true); (lit "explain", JString [])];
            JString (lit "x")])].

End Render.

(* ================================================================== *)
(** ** Reference definitions for the request-token claims *)
(* ================================================================== *)

Module Tokens.

(** Tokens of suspended continuations never exceed the current token, and
    no two suspended continuations hold the same token. *)
Definition Inv (sys : System) : Prop :=
  Forall (fun p => (captured p <= _requestId (ai sys))%Z) (pending sys)
  /\ NoDup (map captured (pending sys)).

(** At most one suspended continuation holds the current token. *)
Definition at_most_one_current (sys : System) : Prop :=
  forall i j p q,
    nth_error (pending sys) i = Some p ->
    nth_error (pending sys) j = Some q ->
    captured p = _requestId (ai sys) ->
    captured q = _requestId (ai sys) ->
    i = j.

(** A piece of code that does not throw and leaves the token alone. *)
Definition tame {A} (m : M A) : Prop :=
  forall st, exists a st' log,
    m st = (Normal a, st', log) /\ _requestId st' = _requestId st.

(** A handler segment that, run in [st], does not throw, leaves the token
    alone and suspends continuations satisfying [Q]. *)
Definition behaves (Q : list Pending -> Prop) (m : M (list Pending)) (st : DisplayAi.t)
  : Prop :=
  exists spawned st' log,
    m st = (Normal spawned, st', log) /\ _requestId st' = _requestId st /\ Q spawned.

(** Nothing suspended, or one continuation holding the token [id]. *)
Definition holds_token (id : Z) (spawned : list Pending) : Prop :=
  spawned = [] \/ exists p, spawned = [p] /\ captured p = id.

(** A handler segment that takes a new token first and suspends at most
    one continuation, holding that token. *)
Definition takes_token (m : M (list Pending)) (st : DisplayAi.t) : Prop :=
  exists spawned st' log,
    m st = (Normal spawned, st', ERequestId (plus_one (_requestId st)) :: log)
    /\ _requestId st' = plus_one (_requestId st)
    /\ holds_token (plus_one (_requestId st)) spawned.

(** A handler segment that takes a new token and suspends at most one
    continuation, holding that token. *)
Definition advances (m : M (list Pending)) (st : DisplayAi.t) : Prop :=
  exists spawned st' log,
    m st = (Normal spawned, st', log)
    /\ _requestId st' = plus_one (_requestId st)
    /\ holds_token (plus_one (_requestId st)) spawned.

(** The document of the popup: every element present, the pane hidden. *)
Definition popup : Document :=
  {| doc_root := Some true; doc_content := Some [];
     doc_status := Some {| status_textContent := []; status_hidden := true |};
     doc_button := Some true |}.

(** The instance after construction and [prepare], nothing in flight. *)
Definition initial : System :=
  {| ai := prepare popup constructor; pending := [] |}.

Definition shift_lookup : History :=
  {| modifierKeys := Some [lit "shift"]; sentenceText := Some (lit "sentence") |}.

Definition manual_settings : Settings :=
  [(lit "mode", JString (lit "manual"));
   (lit "apiUrl", JString (lit "http://127.0.0.1:8317/v1/chat/completions"))].

Definition auto_settings : Settings :=
  [(lit "mode", JString (lit "auto"));
   (lit "apiUrl", JString (lit "http://127.0.0.1:8317/v1/chat/completions"))].

Definition unavailable : exn := JsError (lit "settings backend unreachable").

(** The system after a list of tasks, when they can all occur, and the
    effects of those tasks. *)
Definition after (evs : list Event) : System :=
  match run initial evs with
  | Some (sys, _) => sys
  | None => initial
  end.

Definition effects_of (evs : list Event) : list Effect :=
  match run initial evs with
  | Some (_, log) => log
  | None => []
  end.

(** A lookup in auto mode: the settings arrive and the explain starts. *)
Definition auto_lookup : list Event :=
  [ContentUpdateStart (Some (lit "A")) shift_lookup;
   SettingsResolved 0 auto_settings shift_lookup].

(** A lookup in manual mode, then a click. *)
Definition manual_lookup_click : list Event :=
  [ContentUpdateStart (Some (lit "A")) shift_lookup;
   SettingsResolved 0 manual_settings shift_lookup;
   ButtonClick shift_lookup].

(** Whether a request was handed to [fetch]. *)
Definition fetched (log : list Effect) : bool :=
  existsb (fun e => match e with EFetch _ => true | _ => false end) log.

(** Two overlapping lookups: the second one's settings arrive first and
    put the pane in manual mode, while the first one's fetch is still
    pending. *)
Definition overlapping_lookups : list Event :=
  [ContentUpdateStart (Some (lit "A")) shift_lookup;
   ContentUpdateStart (Some (lit "B")) shift_lookup;
   SettingsResolved 1 manual_settings shift_lookup].

End Tokens.

Import Tokens.

(* ================================================================== *)
(** ** Reference definitions for the behaviour of the client and of the
       handlers beyond the claims *)
(* ================================================================== *)

Module Behaviour.

(** The text a complete line adds: the delta of its payload when it is a
    data line whose payload parses, nothing otherwise. *)
Definition delta_of (line : jsstring) : jsstring :=
  if startsWith (trimEnd line) (lit "data:") then
    match JSON_parse (payload line) with
    | Normal data => _getStreamDeltaContent data
    | Throw _ => []
    end
  else [].

(** The arguments of the partial callbacks for a sequence of deltas, from
    the text [r] accumulated so far: one running total per non-empty
    delta. *)
Fixpoint running (r : jsstring) (deltas : list jsstring) : list jsstring :=
  match deltas with
  | [] => []
  | d :: ds =>
      if (Js.length d >? 0)%Z then (r ++ d) :: running (r ++ d) ds
      else running r ds
  end.

(** No line of the sequence carries the sentinel. *)
Definition no_sentinel (ls : list jsstring) : bool :=
  forallb (fun l => negb (is_sentinel l)) ls.

(** A stream whose last data line lacks its newline. *)
Definition stream_a_b_unterminated : list byte :=
  bytes_of "data: {'choices':[{'delta':{'content':'a'}}]}" ++ [x0a]
  ++ bytes_of "data: {'choices':[{'delta':{'content':'b'}}]}".

(** The stream of two deltas with CRLF line ends. *)
Definition stream_a_b_crlf : list byte :=
  bytes_of "data: {'choices':[{'delta':{'content':'a'}}]}" ++ [x0d; x0a]
  ++ bytes_of "data: {'choices':[{'delta':{'content':'b'}}]}" ++ [x0d; x0a].

(** A body that is not an event stream. *)
Definition stream_plain : list byte := bytes_of "  plain answer ".

(** The string content of a delta or message object. *)
Definition content_of (v : option value) : option jsstring :=
  match v with
  | Some (JObject m) =>
      match get_member m (lit "content") with
      | Some (JString s) => Some s
      | _ => None
      end
  | _ => None
  end.

(** A non-2xx response. *)
Definition http_error (st : N) (t : jsstring) (b : option Body) : FetchOutcome :=
  FetchResolved {| ok := false; status := st; text := inr t; body := b |}.

(** The requests handed to [fetch] in a log. *)
Definition requests (log : list Effect) : list Request :=
  flat_map (fun e => match e with EFetch r => [r] | _ => [] end) log.

(** Code that does not throw, hands nothing to [fetch], and leaves the
    token, the cached settings and the pending input alone. *)
Definition frames {A} (m : M A) : Prop :=
  forall st, exists a st' log,
    m st = (Normal a, st', log)
    /\ _requestId st' = _requestId st
    /\ _settings st' = _settings st
    /\ _pendingInput st' = _pendingInput st
    /\ requests log = [].

(** A handler segment that does not throw and ends with [Q] of what it
    suspended, its final state and the requests it made. *)
Definition yields (Q : list Pending -> DisplayAi.t -> list Request -> Prop)
    (m : M (list Pending)) (st : DisplayAi.t) : Prop :=
  exists spawned st' log,
    m st = (Normal spawned, st', log) /\ Q spawned st' (requests log).

(** The endpoint [_requestExplain] reads from the settings. *)
Definition configured_url (settings : Settings) : jsstring :=
  if typeof_string (get_member settings (lit "apiUrl"))
  then trim (string_or (get_member settings (lit "apiUrl")) [])
  else [].

(** The request [_requestExplain] makes for an input under given settings. *)
Definition explain_request (settings : Settings) (word context : jsstring) : Request :=
  build_request (configured_url settings)
    (get_member settings (lit "apiKey")) (get_member settings (lit "model"))
    (_buildPrompt (get_member settings (lit "prompt")) word context).

(** The status element is hidden exactly when its text is empty. *)
Definition status_ok (st : DisplayAi.t) : Prop :=
  match _status st with
  | Some s => status_hidden s = (Js.length (status_textContent s) =? 0)%Z
  | None => True
  end.

(** Code that keeps a property of the instance, however it ends. *)
Definition keeps {A} (P : DisplayAi.t -> Prop) (m : M A) : Prop :=
  forall st, P st -> P (snd (fst (m st))).

(** What [_setContentRendered] leaves in the pane for a value. *)
Definition rendered (v : value) : list Node :=
  match v with
  | JObject o => Render.render o
  | JArray _ => Render.render []
  | _ => String_textContent v
  end.

(** The frame a handler segment keeps from [st] to [st']. *)
Definition same_frame (st st' : DisplayAi.t) : Prop :=
  _requestId st' = _requestId st
  /\ _settings st' = _settings st
  /\ _pendingInput st' = _pendingInput st.

(** What a segment made of the setters ends with: nothing suspended,
    nothing requested, the frame kept. *)
Definition quiet_frame (st : DisplayAi.t)
  : list Pending -> DisplayAi.t -> list Request -> Prop :=
  fun sp st' reqs => sp = [] /\ reqs = [] /\ same_frame st st'.

(** Code that does not throw and hands nothing to [fetch]. *)
Definition silent {A} (m : M A) : Prop :=
  forall st, exists a st' log, m st = (Normal a, st', log) /\ requests log = [].

(** The requests of one task: none, or the single request built from
    settings that configure an endpoint. *)
Definition fetch_ok (reqs : list Request) : Prop :=
  reqs = []
  \/ exists settings word context,
       reqs = [explain_request settings word context]
       /\ configured_url settings <> [].

(** What [_requestExplain] ends with from the settings on: the request and
    its continuation when the token is current and an endpoint is
    configured, nothing otherwise. *)
Definition explain_outcome (st : DisplayAi.t) (r : Z) (settings : Settings)
    (word context : jsstring)
  : list Pending -> DisplayAi.t -> list Request -> Prop :=
  fun sp st' reqs =>
    same_frame st st'
    /\ if (r =? _requestId st)%Z && negb (Js.length (configured_url settings) =? 0)%Z
       then sp = [PCompletion r] /\ reqs = [explain_request settings word context]
       else sp = [] /\ reqs = [].

(** The instance after [_onContentClear]. *)
Definition cleared (st : DisplayAi.t) : DisplayAi.t :=
  {| _root := match _root st with Some _ => Some true | None => None end;
     _content := match _content st with Some _ => Some [] | None => None end;
     _status :=
       match _status st with
       | Some _ => Some {| status_textContent := []; status_hidden := true |}
       | None => None
       end;
     _button := match _button st with Some _ => Some true | None => None end;
     _requestId := plus_one (_requestId st);
     _settings := _settings st;
     _pendingInput := None |}.

(** The test of line 112: the settings ask for manual mode. *)
Definition manual_mode (settings : Settings) : bool :=
  typeof_string (get_member settings (lit "mode"))
  && str_eqb (string_or (get_member settings (lit "mode")) []) (lit "manual").

(** The status element after [_setStatusText('')]. *)
Definition status_cleared (st : DisplayAi.t) : option Status :=
  match _status st with
  | Some _ => Some {| status_textContent := []; status_hidden := true |}
  | None => None
  end.

(** The tasks started by the display or the user, not by a settlement. *)
Definition user_event (ev : Event) : bool :=
  match ev with
  | ContentClear | ContentUpdateStart _ _ | ButtonClick _ => true
  | _ => false
  end.

(** The continuation a settlement resumes. *)
Definition settles (ev : Event) : option nat :=
  match ev with
  | SettingsResolved i _ _ | SettingsRejected i _
  | Partial i _ | CompletionResolved i _ | CompletionRejected i _ => Some i
  | _ => None
  end.

(** Whether the code a settlement resumes tests the token: every
    continuation does, except a lookup's on the failure of its settings
    fetch. *)
Definition tests_token (p : Pending) (ev : Event) : bool :=
  match p, ev with
  | PUpdateSettings _ _, SettingsRejected _ _ => false
  | _, _ => true
  end.

(** A second lookup, whose settings arrive and put the pane in manual
    mode. *)
Definition later_lookup : list Event :=
  [ContentUpdateStart (Some (lit "B")) shift_lookup;
   SettingsResolved 1 manual_settings shift_lookup].

(** The pane hidden, when it exists. *)
Definition root_hidden (st : DisplayAi.t) : option bool :=
  match _root st with Some _ => Some true | None => None end.

(** The word [_onContentUpdateStart] takes from the event. *)
Definition word_of (query : option jsstring) : jsstring :=
  match query with Some q => q | None => [] end.

(** An instance with every element of the pane present. *)
Definition complete_pane (st : DisplayAi.t) : Prop :=
  _root st <> None /\ _content st <> None /\ _status st <> None /\ _button st <> None.

(** Settings without an endpoint. *)
Definition settings_without_url : Settings :=
  [(lit "mode", JString (lit "auto")); (lit "apiUrl", JString (lit "   "))].

End Behaviour.

Import Behaviour.

(* ================================================================== *)
(** ** Strings *)
(* ================================================================== *)

Section StringFacts.

Lemma indexOf_ge_m1 (s : jsstring) (c : char) : (-1 <= indexOf s c)%Z.
Proof.
  induction s as [|d r IH]; simpl; [lia|].
  destruct (d =? c)%N; [lia|].
  destruct (indexOf r c <? 0)%Z eqn:E; [lia|]. apply Z.ltb_ge in E. lia.
Qed.

(** [indexOf] finds nothing exactly when the unit does not occur. *)
Lemma indexOf_neg (s : jsstring) (c : char) :
  (indexOf s c <? 0)%Z = true -> ~ In c s.
Proof.
  induction s as [|d r IH]; simpl; [tauto|].
  destruct (d =? c)%N eqn:E; [discriminate|].
  destruct (indexOf r c <? 0)%Z eqn:E2.
  - intros _ [H|H]; [subst; rewrite N.eqb_refl in E; discriminate | now apply IH].
  - pose proof (indexOf_ge_m1 r c) as Hge. apply Z.ltb_ge in E2.
    intros Hlt. apply Z.ltb_lt in Hlt. lia.
Qed.

(** A found index splits the string around the first occurrence. *)
Lemma indexOf_split (s : jsstring) (c : char) :
  (indexOf s c <? 0)%Z = false ->
  exists pre post,
    s = pre ++ c :: post /\ ~ In c pre /\ indexOf s c = Z.of_nat (List.length pre).
Proof.
  induction s as [|d r IH]; simpl; [discriminate|].
  destruct (d =? c)%N eqn:E.
  - intros _. apply N.eqb_eq in E. subst. exists [], r. simpl. auto.
  - destruct (indexOf r c <? 0)%Z eqn:E2; [discriminate|].
    intros _. destruct (IH eq_refl) as (pre & post & -> & Hn & Hi).
    exists (d :: pre), post. simpl. split; [reflexivity|]. split.
    + intros [H|H]; [subst; rewrite N.eqb_refl in E; discriminate | tauto].
    + rewrite Hi. lia.
Qed.

Lemma slice_prefix (pre post : jsstring) (c : char) :
  slice (pre ++ c :: post) 0 (Z.of_nat (List.length pre)) = pre.
Proof.
  unfold slice, clampIndex. rewrite length_app. simpl List.length.
  replace (0 <? 0)%Z with false by reflexivity.
  destruct (Z.of_nat (List.length pre) <? 0)%Z eqn:E; [apply Z.ltb_lt in E; lia|].
  rewrite Z.min_l by lia. rewrite Z.min_l by lia. simpl skipn.
  rewrite Z.sub_0_r, Nat2Z.id. rewrite firstn_app, Nat.sub_diag. simpl.
  rewrite firstn_all. apply app_nil_r.
Qed.

Lemma sliceFrom_suffix (pre post : jsstring) (c : char) :
  sliceFrom (pre ++ c :: post) (Z.of_nat (List.length pre) + 1) = post.
Proof.
  unfold sliceFrom, slice, clampIndex. rewrite length_app. simpl List.length.
  destruct (Z.of_nat (List.length pre) + 1 <? 0)%Z eqn:E; [apply Z.ltb_lt in E; lia|].
  destruct (Z.of_nat (List.length pre + S (List.length post)) <? 0)%Z eqn:E2;
    [apply Z.ltb_lt in E2; lia|].
  rewrite Z.min_l by lia. rewrite Z.min_l by lia.
  replace (Z.to_nat (Z.of_nat (List.length pre) + 1)) with (List.length pre + 1)%nat by lia.
  replace (pre ++ c :: post) with ((pre ++ [c]) ++ post) by (rewrite <- app_assoc; reflexivity).
  rewrite skipn_app. rewrite length_app. simpl List.length. rewrite Nat.sub_diag. simpl.
  rewrite skipn_all2 by (rewrite length_app; simpl; lia). simpl.
  apply firstn_all2. lia.
Qed.

Lemma str_eqb_eq (a b : jsstring) : str_eqb a b = true <-> a = b.
Proof.
  revert b. induction a as [|x a IH]; intros [|y b]; cbn; try (split; congruence).
  rewrite andb_true_iff, N.eqb_eq, IH. split; [intros [-> ->]; reflexivity|].
  intros H. injection H as -> ->. now split.
Qed.

Lemma slice_excerpt (t : jsstring) (n : nat) :
  slice t 0 (Z.of_nat n) = firstn n t.
Proof.
  unfold slice, clampIndex.
  replace (0 <? 0)%Z with false by reflexivity.
  destruct (Z.of_nat n <? 0)%Z eqn:E; [apply Z.ltb_lt in E; lia|].
  rewrite (Z.min_l 0) by lia. cbn [Z.to_nat skipn]. rewrite Z.sub_0_r.
  destruct (Nat.le_gt_cases n (List.length t)) as [Hle|Hgt].
  - rewrite Z.min_l by lia. now rewrite Nat2Z.id.
  - rewrite Z.min_r by lia. rewrite Nat2Z.id.
    rewrite firstn_all. symmetry. apply firstn_all2. lia.
Qed.

End StringFacts.

(* ================================================================== *)
(** ** The line loop and the chunk loop *)
(* ================================================================== *)

Section Streaming.

Lemma complete_lines_no_newline (s : jsstring) :
  ~ In 10%N s -> complete_lines s = ([], s).
Proof.
  induction s as [|c r IH]; simpl; [reflexivity|].
  intros H. rewrite IH by tauto.
  destruct (c =? 10)%N eqn:E; [|reflexivity].
  apply N.eqb_eq in E. subst. tauto.
Qed.

Lemma complete_lines_first (pre post : jsstring) :
  ~ In 10%N pre ->
  complete_lines (pre ++ 10%N :: post) =
  (pre :: fst (complete_lines post), snd (complete_lines post)).
Proof.
  induction pre as [|c r IH]; simpl.
  - intros _. destruct (complete_lines post); reflexivity.
  - intros H. rewrite IH by tauto.
    destruct (c =? 10)%N eqn:E; [|reflexivity].
    apply N.eqb_eq in E. subst. tauto.
Qed.

(** Text appended after a buffer only extends its unterminated tail. *)
Lemma complete_lines_app (a b : jsstring) :
  complete_lines (a ++ b) =
  (fst (complete_lines a) ++ fst (complete_lines (snd (complete_lines a) ++ b)),
   snd (complete_lines (snd (complete_lines a) ++ b))).
Proof.
  induction a as [|c r IH]; simpl.
  - destruct (complete_lines b); reflexivity.
  - rewrite IH. destruct (complete_lines r) as [ls tail]. simpl.
    destruct (c =? 10)%N eqn:E; simpl.
    + reflexivity.
    + destruct ls as [|l ls']; simpl.
      * rewrite E. destruct (complete_lines (tail ++ b)) as [ls2 t2]. simpl.
        destruct ls2; reflexivity.
      * reflexivity.
Qed.

(** No received unit is lost: the complete lines and the tail make up the
    text. *)
Lemma complete_lines_join (s : jsstring) :
  join_lines (fst (complete_lines s)) ++ snd (complete_lines s) = s.
Proof.
  induction s as [|c r IH]; simpl; [reflexivity|].
  destruct (complete_lines r) as [ls tail]. simpl in IH.
  destruct (c =? 10)%N eqn:E.
  - apply N.eqb_eq in E. rewrite E. unfold join_lines in *. simpl. now rewrite IH.
  - destruct ls as [|l ls']; simpl.
    + unfold join_lines in IH. simpl in IH. now rewrite IH.
    + unfold join_lines in *. simpl in *. now rewrite IH.
Qed.

Lemma consume_lines_app (l1 l2 : list jsstring) (r : jsstring) (c : list jsstring) :
  consume_lines (l1 ++ l2) r c =
  match consume_lines l1 r c with
  | Return r' c' => Return r' c'
  | Continue r' c' => consume_lines l2 r' c'
  end.
Proof.
  revert r c. induction l1 as [|l l1 IH]; intros r c; simpl; [reflexivity|].
  destruct (onLine (trimEnd l) r c); [apply IH | reflexivity].
Qed.

(** The inner loop handles exactly the complete lines of the buffer, in
    order, and leaves the unterminated tail in the buffer. *)
Lemma lineLoop_complete_lines (fuel : nat) :
  forall (buffer r : jsstring) (c : list jsstring),
    (List.length buffer < fuel)%nat ->
    lineLoop fuel buffer r c =
    match consume_lines (fst (complete_lines buffer)) r c with
    | Return r' c' => LReturn r' c'
    | Continue r' c' => LBreak (snd (complete_lines buffer)) r' c'
    end.
Proof.
  induction fuel as [|fuel IH]; intros buffer r c Hlen; [lia|].
  simpl. destruct (indexOf buffer 10%N <? 0)%Z eqn:E.
  - rewrite complete_lines_no_newline by (now apply indexOf_neg). reflexivity.
  - destruct (indexOf_split buffer 10%N E) as (pre & post & -> & Hn & ->).
    rewrite slice_prefix, sliceFrom_suffix, complete_lines_first by assumption.
    simpl. destruct (onLine (trimEnd pre) r c) as [r' c'|r' c']; [|reflexivity].
    apply IH. rewrite length_app in Hlen. simpl in Hlen. lia.
Qed.

(** The bound given to the inner loop is never reached. *)
Lemma lineLoop_total (buffer r : jsstring) (c : list jsstring) :
  lineLoop (S (List.length buffer)) buffer r c <> LFuel.
Proof.
  rewrite lineLoop_complete_lines by lia.
  destruct (consume_lines _ r c); discriminate.
Qed.

Lemma decode_app (a b : list byte) (d : Utf8.decoder) :
  Utf8.decode d (a ++ b) =
  let (d1, t1) := Utf8.decode d a in
  let (d2, t2) := Utf8.decode d1 b in (d2, t1 ++ t2).
Proof.
  revert d. induction a as [|x a IH]; intros d; simpl.
  - destruct (Utf8.decode d b); reflexivity.
  - destruct (Utf8.step d (to_N x)) as [d1 cps].
    destruct (Utf8.emit (Utf8.bomSeen d1) cps) as [bom out].
    rewrite IH. destruct (Utf8.decode (Utf8.with_bom d1 bom) a) as [d2 t2].
    destruct (Utf8.decode d2 b) as [d3 t3]. now rewrite app_assoc.
Qed.

Lemma complete_lines_tail (s : jsstring) : ~ In 10%N (snd (complete_lines s)).
Proof.
  induction s as [|c r IH]; simpl; [tauto|].
  destruct (complete_lines r) as [ls tail]. simpl in IH.
  destruct (c =? 10)%N eqn:E; [exact IH|].
  destruct ls; simpl; [|exact IH].
  intros [H|H]; [subst; discriminate | tauto].
Qed.

(** The chunk loop, whatever the chunking, handles the complete lines of
    the buffer followed by the decoded text of all chunks. *)
Lemma readChunks_whole (reads : list (list byte)) :
  forall (d : Utf8.decoder) (buffer r : jsstring) (c : list jsstring),
    ~ In 10%N buffer ->
    readChunks reads d buffer r c =
    match consume_lines
            (fst (complete_lines (buffer ++ snd (Utf8.decode d (List.concat reads))))) r c with
    | Return r' c' => RReturn r' c'
    | Continue r' c' =>
        RPending (fst (Utf8.decode d (List.concat reads)))
          (snd (complete_lines (buffer ++ snd (Utf8.decode d (List.concat reads))))) r' c'
    end.
Proof.
  induction reads as [|v reads IH]; intros d buffer r c Hb.
  - simpl. rewrite app_nil_r, complete_lines_no_newline by assumption. reflexivity.
  - cbn [readChunks List.concat]. rewrite decode_app.
    destruct (Utf8.decode d v) as [d1 t1].
    rewrite lineLoop_complete_lines by lia.
    destruct (Utf8.decode d1 (List.concat reads)) as [d2 t2] eqn:E2. simpl fst; simpl snd.
    rewrite app_assoc, (complete_lines_app (buffer ++ t1) t2). simpl fst; simpl snd.
    rewrite consume_lines_app.
    destruct (consume_lines (fst (complete_lines (buffer ++ t1))) r c) as [r' c'|r' c'];
      [|reflexivity].
    rewrite IH by apply complete_lines_tail. rewrite E2. reflexivity.
Qed.

Lemma readChunks_app (a b : list (list byte)) :
  forall (d : Utf8.decoder) (buffer r : jsstring) (c : list jsstring),
    readChunks (a ++ b) d buffer r c =
    match readChunks a d buffer r c with
    | RPending d' buffer' r' c' => readChunks b d' buffer' r' c'
    | RReturn r' c' => RReturn r' c'
    | RFuel => RFuel
    end.
Proof.
  induction a as [|v a IH]; intros d buffer r c; [reflexivity|].
  cbn [readChunks app]. destruct (Utf8.decode d v) as [d1 t1].
  destruct (lineLoop (S (List.length (buffer ++ t1))) (buffer ++ t1) r c); auto.
Qed.

(** The chunk loop from the fresh state, as the handling of the complete
    lines of the decoded text. *)
Lemma readChunks_fresh (reads : list (list byte)) :
  readChunks reads Utf8.fresh [] [] [] =
  match consume_lines (fst (complete_lines (decoded reads))) [] [] with
  | Return r c => RReturn r c
  | Continue r c =>
      RPending (fst (Utf8.decode Utf8.fresh (List.concat reads)))
        (snd (complete_lines (decoded reads))) r c
  end.
Proof. rewrite readChunks_whole by (simpl; tauto). reflexivity. Qed.

(** The streaming client always settles: the bound of the inner loop is
    never the reason it stops. *)
Lemma readLoop_settles (b : Body) : exists c, snd (readLoop b) = Some c.
Proof.
  unfold readLoop. rewrite readChunks_fresh.
  destruct (consume_lines _ [] []) as [r c|r c]; [destruct (terminal b)|];
    simpl; eauto.
Qed.

Lemma fetchCompletionStreaming_settles (url : jsstring) (key model : option value)
    (prompt : jsstring) (net : FetchOutcome) :
  exists c, run_result (_fetchCompletionStreaming url key model prompt net) = Some c.
Proof.
  unfold _fetchCompletionStreaming.
  destruct (fetch_try net) as [calls r] eqn:E.
  assert (exists c, r = Some c) as [c ->].
  { unfold fetch_try in E. destruct net as [f|resp]; [inversion E; eauto|].
    destruct (negb (ok resp)).
    - destruct (text resp); inversion E; eauto.
    - destruct (body resp) as [b|].
      + destruct (readLoop_settles b) as [c Hc]. rewrite E in Hc. simpl in Hc. eauto.
      + destruct (text resp); inversion E; eauto. }
  destruct c; simpl; eauto.
Qed.

Lemma onLine_sentinel (line r : jsstring) (c : list jsstring) :
  is_sentinel line = true -> onLine (trimEnd line) r c = Return r (c ++ [r]).
Proof.
  unfold is_sentinel, payload, onLine. intros H.
  apply andb_prop in H as [H1 H2]. now rewrite H1, H2.
Qed.

Lemma onLine_malformed (line r : jsstring) (c : list jsstring) :
  is_malformed line = true -> onLine (trimEnd line) r c = Continue r c.
Proof.
  unfold is_malformed, payload, onLine. intros H.
  apply andb_prop in H as [H H3]. apply andb_prop in H as [H1 H2].
  rewrite H1. simpl. apply negb_true_iff in H2. rewrite H2.
  destruct (JSON_parse _); [discriminate | reflexivity].
Qed.

Lemma consume_lines_sentinel (before after : list jsstring) (sentinel r : jsstring)
    (c : list jsstring) :
  is_sentinel sentinel = true ->
  consume_lines before [] [] = Continue r c ->
  consume_lines (before ++ sentinel :: after) [] [] = Return r (c ++ [r]).
Proof.
  intros Hs Hb. rewrite consume_lines_app, Hb. simpl.
  now rewrite onLine_sentinel.
Qed.

Lemma consume_lines_malformed (before after : list jsstring) (bad : jsstring) :
  is_malformed bad = true ->
  consume_lines (before ++ bad :: after) [] [] = consume_lines (before ++ after) [] [].
Proof.
  intros Hb. rewrite !consume_lines_app.
  destruct (consume_lines before [] []) as [r c|r c]; [|reflexivity].
  simpl. now rewrite onLine_malformed.
Qed.

(** The stream of a client that has met the sentinel in [reads]. *)
Lemma readLoop_sentinel (reads more : list (list byte)) (term : Terminal)
    (before after : list jsstring) (sentinel tail r : jsstring) (c : list jsstring) :
  is_sentinel sentinel = true ->
  complete_lines (decoded reads) = (before ++ sentinel :: after, tail) ->
  consume_lines before [] [] = Continue r c ->
  readLoop {| chunks := reads ++ more; terminal := term |} = (c ++ [r], Some (Normal r)).
Proof.
  intros Hs Hl Hb. unfold readLoop. cbn [chunks terminal].
  rewrite readChunks_app, readChunks_fresh, Hl. cbn [fst snd].
  now rewrite (consume_lines_sentinel _ _ _ Hs Hb).
Qed.

End Streaming.

(* ================================================================== *)
(** ** Claims on the streaming client *)
(* ================================================================== *)

(** C2. Feeding the chunks of a body to the streaming reader gives the same
    loop state, the same [onText] calls and the same final text as feeding
    the whole byte sequence as one chunk, for every body and every way of
    cutting it into chunks; the reader handles exactly the complete lines
    of the decoded bytes and keeps the unterminated tail in its buffer, so
    the complete lines and the buffer together are all of the received
    text. *)
Theorem C2_stream_reassembly_split_invariant (reads : list (list byte)) :
  readChunks reads Utf8.fresh [] [] [] =
    readChunks [List.concat reads] Utf8.fresh [] [] []
  /\ (forall (url : jsstring) (key model : option value) (prompt : jsstring)
        (term : Terminal),
        _fetchCompletionStreaming url key model prompt (streaming reads term) =
        _fetchCompletionStreaming url key model prompt
          (streaming [List.concat reads] term))
  /\ readChunks reads Utf8.fresh [] [] [] =
       match consume_lines (fst (complete_lines (decoded reads))) [] [] with
       | Return r c => RReturn r c
       | Continue r c =>
           RPending (fst (Utf8.decode Utf8.fresh (List.concat reads)))
             (snd (complete_lines (decoded reads))) r c
       end
  /\ join_lines (fst (complete_lines (decoded reads)))
       ++ snd (complete_lines (decoded reads)) = decoded reads.
Proof.
  assert (Hsame : readChunks reads Utf8.fresh [] [] [] =
                  readChunks [List.concat reads] Utf8.fresh [] [] []).
  { rewrite !readChunks_fresh. unfold decoded. simpl List.concat.
    now rewrite app_nil_r. }
  split; [exact Hsame|]. split; [|split].
  - intros url key model prompt term.
    unfold _fetchCompletionStreaming, streaming, fetch_try, readLoop.
    cbn [ok body negb chunks terminal]. now rewrite Hsame.
  - apply readChunks_fresh.
  - apply complete_lines_join.
Qed.

(** C4. Once a complete line carrying the sentinel is consumed, the client
    returns the text accumulated from the lines before it, whatever lines,
    chunks or stream end follow, even a stream that never reports its
    end. *)
Theorem C4_done_sentinel_short_circuits
    (url : jsstring) (key model : option value) (prompt : jsstring)
    (reads more : list (list byte)) (term : Terminal)
    (before after : list jsstring) (sentinel tail r : jsstring) (c : list jsstring) :
  is_sentinel sentinel = true ->
  complete_lines (decoded reads) = (before ++ sentinel :: after, tail) ->
  consume_lines before [] [] = Continue r c ->
  run_result (_fetchCompletionStreaming url key model prompt
                (streaming (reads ++ more) term)) = Some (Normal r).
Proof.
  intros Hs Hl Hb.
  unfold _fetchCompletionStreaming, streaming, fetch_try.
  cbn [ok body negb].
  erewrite readLoop_sentinel; [reflexivity | eassumption ..].
Qed.

Lemma C4_done_sentinel_short_circuits_witness :
  is_sentinel (json "data: [DONE]") = true
  /\ complete_lines (decoded [stream_x_done]) =
       ([json "data: {'choices':[{'delta':{'content':'x'}}]}"; []]
          ++ json "data: [DONE]" :: [[]], [])
  /\ consume_lines [json "data: {'choices':[{'delta':{'content':'x'}}]}"; []] [] []
       = Continue (lit "x") [lit "x"]
  /\ run_result (_fetchCompletionStreaming (lit "http://127.0.0.1:8317/v1/chat/completions")
                   None None (lit "p")
                   (streaming ([stream_x_done] ++ []) (StreamFail Aborted)))
       = Some (Normal (lit "x")).
Proof.
  assert (H1 : is_sentinel (json "data: [DONE]") = true) by (vm_compute; reflexivity).
  assert (H2 : complete_lines (decoded [stream_x_done]) =
               ([json "data: {'choices':[{'delta':{'content':'x'}}]}"; []]
                  ++ json "data: [DONE]" :: [[]], [])) by (vm_compute; reflexivity).
  assert (H3 : consume_lines [json "data: {'choices':[{'delta':{'content':'x'}}]}"; []] [] []
               = Continue (lit "x") [lit "x"]) by (vm_compute; reflexivity).
  split; [exact H1|]. split; [exact H2|]. split; [exact H3|].
  exact (C4_done_sentinel_short_circuits (lit "http://127.0.0.1:8317/v1/chat/completions")
           None None (lit "p") [stream_x_done] [] (StreamFail Aborted)
           _ _ _ H1 H2 H3).
Defined.

(** C5. A data line whose payload fails to parse as JSON is skipped: it
    leaves the accumulated text and the [onText] calls as they were, and
    the client's run on a body holding such a line among its complete
    lines is the run on a body with the same lines and tail without it. *)
Theorem C5_malformed_line_skipped
    (url : jsstring) (key model : option value) (prompt : jsstring)
    (reads reads' : list (list byte)) (term : Terminal)
    (before after : list jsstring) (bad tail : jsstring) :
  is_malformed bad = true ->
  complete_lines (decoded reads) = (before ++ bad :: after, tail) ->
  complete_lines (decoded reads') = (before ++ after, tail) ->
  (forall (r : jsstring) (c : list jsstring), onLine (trimEnd bad) r c = Continue r c)
  /\ run_onText (_fetchCompletionStreaming url key model prompt (streaming reads term))
     = run_onText (_fetchCompletionStreaming url key model prompt (streaming reads' term))
  /\ run_result (_fetchCompletionStreaming url key model prompt (streaming reads term))
     = run_result (_fetchCompletionStreaming url key model prompt (streaming reads' term)).
Proof.
  intros Hbad Hl Hl'.
  split; [intros r c; now apply onLine_malformed|].
  unfold _fetchCompletionStreaming, streaming, fetch_try, readLoop.
  cbn [ok body negb chunks terminal].
  rewrite !readChunks_fresh, Hl, Hl'. cbn [fst snd].
  rewrite (consume_lines_malformed before after bad Hbad).
  destruct (consume_lines (before ++ after) [] []) as [r c|r c]; [|split; reflexivity].
  destruct term; split; reflexivity.
Qed.

Lemma C5_malformed_line_skipped_witness :
  is_malformed (json "data: not-json") = true
  /\ run_onText (_fetchCompletionStreaming [] None None [] (streaming [stream_a_bad_b] StreamDone))
     = run_onText (_fetchCompletionStreaming [] None None [] (streaming [stream_a_b] StreamDone))
  /\ run_result (_fetchCompletionStreaming [] None None [] (streaming [stream_a_bad_b] StreamDone))
     = run_result (_fetchCompletionStreaming [] None None [] (streaming [stream_a_b] StreamDone))
  /\ run_result (_fetchCompletionStreaming [] None None [] (streaming [stream_a_bad_b] StreamDone))
     = Some (Normal (lit "ab")).
Proof.
  assert (H1 : is_malformed (json "data: not-json") = true) by (vm_compute; reflexivity).
  assert (H2 : complete_lines (decoded [stream_a_bad_b]) =
               ([json "data: {'choices':[{'delta':{'content':'a'}}]}"]
                  ++ json "data: not-json"
                  :: [json "data: {'choices':[{'delta':{'content':'b'}}]}"], []))
    by (vm_compute; reflexivity).
  assert (H3 : complete_lines (decoded [stream_a_b]) =
               ([json "data: {'choices':[{'delta':{'content':'a'}}]}"]
                  ++ [json "data: {'choices':[{'delta':{'content':'b'}}]}"], []))
    by (vm_compute; reflexivity).
  pose proof (C5_malformed_line_skipped [] None None [] [stream_a_bad_b] [stream_a_b]
                StreamDone _ _ _ H1 H2 H3) as (_ & Hcalls & Hres).
  split; [exact H1|]. split; [exact Hcalls|]. split; [exact Hres|].
  vm_compute; reflexivity.
Defined.

(** C10. Consuming the sentinel appends exactly one [onText] call, whose
    argument is the accumulated text, and the client then returns that
    text: the calls of the whole run are those made for the lines before
    the sentinel followed by this one, whatever the text is. *)
Theorem C10_done_sentinel_final_callback
    (url : jsstring) (key model : option value) (prompt : jsstring)
    (reads : list (list byte)) (term : Terminal)
    (before after : list jsstring) (sentinel tail r : jsstring) (c : list jsstring) :
  is_sentinel sentinel = true ->
  complete_lines (decoded reads) = (before ++ sentinel :: after, tail) ->
  consume_lines before [] [] = Continue r c ->
  (forall (r0 : jsstring) (c0 : list jsstring),
      onLine (trimEnd sentinel) r0 c0 = Return r0 (c0 ++ [r0]))
  /\ run_onText (_fetchCompletionStreaming url key model prompt (streaming reads term))
     = c ++ [r]
  /\ run_result (_fetchCompletionStreaming url key model prompt (streaming reads term))
     = Some (Normal r).
Proof.
  intros Hs Hl Hb.
  split; [intros r0 c0; now apply onLine_sentinel|].
  unfold _fetchCompletionStreaming, streaming, fetch_try.
  cbn [ok body negb].
  rewrite <- (app_nil_r reads).
  erewrite readLoop_sentinel; [split; reflexivity | eassumption ..].
Qed.

Lemma C10_done_sentinel_final_callback_witness :
  is_sentinel (json "data: [DONE]") = true
  /\ complete_lines (decoded [stream_done_only]) = ([] ++ json "data: [DONE]" :: [], [])
  /\ consume_lines [] [] [] = Continue [] []
  /\ run_onText (_fetchCompletionStreaming [] None None [] (streaming [stream_done_only] StreamDone))
     = [] ++ [[]]
  /\ run_result (_fetchCompletionStreaming [] None None [] (streaming [stream_done_only] StreamDone))
     = Some (Normal []).
Proof.
  assert (H1 : is_sentinel (json "data: [DONE]") = true) by (vm_compute; reflexivity).
  assert (H2 : complete_lines (decoded [stream_done_only]) =
               ([] ++ json "data: [DONE]" :: [], [])) by (vm_compute; reflexivity).
  assert (H3 : consume_lines [] [] [] = Continue [] []) by reflexivity.
  pose proof (C10_done_sentinel_final_callback [] None None [] [stream_done_only] StreamDone
                _ _ _ H1 H2 H3) as (_ & Hcalls & Hres).
  split; [exact H1|]. split; [exact H2|]. split; [exact H3|].
  split; [exact Hcalls | exact Hres].
Defined.

(** Every two-chunk cut of the sentinel test stream gives the run of the
    uncut stream. *)
Example cuts_of_stream_x_done :
  forallb
    (fun reads =>
       match readLoop {| chunks := reads; terminal := StreamDone |} with
       | (calls, Some (Normal r)) =>
           str_eqb r (lit "x") && (List.length calls =? 2)%nat
       | _ => false
       end)
    (cuts stream_x_done) = true.
Proof. vm_compute; reflexivity. Qed.

(* ================================================================== *)
(** ** Claims on the response without a body stream and on the timeout *)
(* ================================================================== *)




Section Timeout.

(** The exceptions the [try] block can end in. *)
Lemma fetch_try_throws (net : FetchOutcome) (calls : list jsstring) (e : exn) :
  fetch_try net = (calls, Some (Throw e)) ->
  (exists f, e = rejection f)
  \/ (exists st t, e = JsError (lit "AI request failed (" ++ decimal st
                                 ++ lit "): " ++ slice t 0 500)).
Proof.
  unfold fetch_try. destruct net as [f|resp].
  - intros H. inversion H. eauto.
  - destruct (negb (ok resp)).
    + destruct (text resp) as [f|t]; intros H; inversion H;
        [left; eauto | right; do 2 eexists; reflexivity].
    + destruct (body resp) as [b|].
      * unfold readLoop.
        destruct (readChunks (chunks b) Utf8.fresh [] [] []) as [d bf r c|r c|].
        -- destruct (terminal b) as [|f]; intros H; inversion H; eauto.
        -- intros H; inversion H.
        -- intros H; inversion H.
      * destruct (text resp) as [f|t]; intros H; inversion H; eauto.
Qed.

Lemma is_abort_rejection (f : NetFailure) : is_abort (rejection f) = aborted f.
Proof. destruct f; reflexivity. Qed.

Lemma http_error_not_timeout (st : N) (t : jsstring) :
  JsError (lit "AI request failed (" ++ decimal st ++ lit "): " ++ slice t 0 500)
  <> timeout_error.
Proof. unfold timeout_error. simpl. intros H. discriminate H. Qed.

Lemma slice_head (t : jsstring) : slice t 0 500 = firstn 500 t.
Proof. exact (slice_excerpt t 500). Qed.

Lemma rejection_not_timeout (f : NetFailure) : rejection f <> timeout_error.
Proof. destruct f; discriminate. Qed.

(** The abort condition is the DOMException named AbortError. *)
Lemma aborted_iff (f : NetFailure) :
  aborted f = true <-> exists m, rejection f = JsDOMException (lit "AbortError") m.
Proof.
  destruct f as [|m|n m]; cbn [aborted rejection].
  - split; [eauto | reflexivity].
  - split; [discriminate | intros [m' H]; discriminate].
  - rewrite str_eqb_eq. split.
    + intros ->. eauto.
    + intros [m' H]. now inversion H.
Qed.

(** The [catch] block on a platform rejection. *)
Lemma fetch_catch_rejection (f : NetFailure) :
  fetch_catch (rejection f) = Throw (surfaced (Rejected f)).
Proof.
  unfold fetch_catch. fold (is_abort (rejection f)). rewrite is_abort_rejection.
  cbn [surfaced]. destruct (aborted f); reflexivity.
Qed.

(** A line that is not the sentinel does not end the reading. *)
Lemma onLine_continues (l r : jsstring) (c : list jsstring) :
  is_sentinel l = false -> exists r' c', onLine (trimEnd l) r c = Continue r' c'.
Proof.
  unfold is_sentinel, payload, onLine. intros H.
  destruct (startsWith (trimEnd l) (lit "data:")); cbn [negb andb] in *; [|eauto].
  rewrite H. destruct (JSON_parse _) as [data|e]; [|eauto].
  cbv zeta. destruct (Js.length _ >? 0)%Z; eauto.
Qed.

(** The lines are all handled exactly when none is the sentinel. *)
Lemma consume_lines_end (ls : list jsstring) :
  forall (r : jsstring) (c : list jsstring),
    if forallb (fun l => negb (is_sentinel l)) ls
    then exists r' c', consume_lines ls r c = Continue r' c'
    else exists r' c', consume_lines ls r c = Return r' c'.
Proof.
  induction ls as [|l ls IH]; intros r c; cbn [forallb consume_lines]; [eauto|].
  destruct (is_sentinel l) eqn:E; cbn [negb andb].
  - rewrite (onLine_sentinel l r c E). eauto.
  - destruct (onLine_continues l r c E) as (r' & c' & ->). apply IH.
Qed.

(** How the reading of a body stream ends. *)
Lemma readLoop_end (b : Body) :
  match terminal b with
  | StreamFail f =>
      if reaches_end (chunks b)
      then snd (readLoop b) = Some (Throw (rejection f))
      else exists t, snd (readLoop b) = Some (Normal t)
  | StreamDone => exists t, snd (readLoop b) = Some (Normal t)
  end.
Proof.
  unfold readLoop, reaches_end. rewrite readChunks_fresh.
  pose proof (consume_lines_end (fst (complete_lines (decoded (chunks b)))) [] []) as H.
  destruct (terminal b) as [|f].
  - destruct (consume_lines _ [] []) as [r c|r c]; cbn [snd]; eauto.
  - destruct (forallb _ _).
    + destruct H as (r' & c' & ->). reflexivity.
    + destruct H as (r' & c' & ->). cbn [snd]. eauto.
Qed.

(** The call fails exactly when the underlying operation does, with the
    error [surfaced] gives for the failure. *)
Lemma call_fails_as_surfaced (url : jsstring) (key model : option value)
    (prompt : jsstring) (net : FetchOutcome) :
  match underlying_failure net with
  | Some fl =>
      run_result (_fetchCompletionStreaming url key model prompt net)
      = Some (Throw (surfaced fl))
  | None =>
      exists t, run_result (_fetchCompletionStreaming url key model prompt net)
                = Some (Normal t)
  end.
Proof.
  unfold _fetchCompletionStreaming, underlying_failure, fetch_try. cbn [run_result].
  destruct net as [f|resp]; cbn [fst snd].
  - now rewrite fetch_catch_rejection.
  - destruct (ok resp); cbn [negb].
    + destruct (body resp) as [b|].
      * pose proof (readLoop_end b) as H.
        destruct (terminal b) as [|f].
        -- destruct H as [t ->]. eauto.
        -- destruct (reaches_end (chunks b)).
           ++ rewrite H. now rewrite fetch_catch_rejection.
           ++ destruct H as [t ->]. eauto.
      * destruct (text resp) as [f|t]; cbn [fst snd];
          [now rewrite fetch_catch_rejection | eauto].
    + destruct (text resp) as [f|t]; cbn [fst snd].
      * now rewrite fetch_catch_rejection.
      * cbn [surfaced]. rewrite (slice_head t). reflexivity.
Qed.

(** Which failures surface as the timeout error. *)
Lemma surfaced_timeout (fl : Failure) :
  surfaced fl = timeout_error <-> exists f, fl = Rejected f /\ aborted f = true.
Proof.
  destruct fl as [f|st t]; cbn [surfaced].
  - destruct (aborted f) eqn:E.
    + split; [eauto | reflexivity].
    + split.
      * intros H. now apply rejection_not_timeout in H.
      * intros (f' & H & E'). inversion H; subst. congruence.
  - split.
    + intros H. rewrite <- (slice_head t) in H.
      now apply http_error_not_timeout in H.
    + intros (f & H & _). discriminate.
Qed.

End Timeout.

(** C7. Every call hands [fetch] a signal aborted after 20000 ms and clears
    the timer when it ends.  The call fails exactly when the underlying
    operation fails: with the error 'AI request timed out' when a platform
    promise rejected with the abort condition, the DOMException named
    AbortError; with the rejection itself, unchanged, for a transport
    error or a DOMException of any other name; with the error carrying
    the status and the head of the body for a non-2xx response.  None of
    the other failures is or becomes the timeout error: the call fails
    with it exactly when the underlying failure was the abort. *)
Theorem C7_timeout_distinct_from_other_failures
    (url : jsstring) (key model : option value) (prompt : jsstring)
    (net : FetchOutcome) :
  req_abortAfterMs (run_request (_fetchCompletionStreaming url key model prompt net))
    = 20000%Z
  /\ run_timerCleared (_fetchCompletionStreaming url key model prompt net) = true
  /\ match underlying_failure net with
     | Some fl =>
         run_result (_fetchCompletionStreaming url key model prompt net)
         = Some (Throw (surfaced fl))
     | None =>
         exists t, run_result (_fetchCompletionStreaming url key model prompt net)
                   = Some (Normal t)
     end
  /\ (forall f, aborted f = true
                <-> exists m, rejection f = JsDOMException (lit "AbortError") m)
  /\ (forall fl, surfaced fl = timeout_error
                 <-> exists f, fl = Rejected f /\ aborted f = true)
  /\ (forall fl, (forall f, fl = Rejected f -> aborted f = false) ->
                 surfaced fl <> timeout_error
                 /\ match fl with
                    | Rejected f => surfaced fl = rejection f
                    | HttpStatus st t =>
                        surfaced fl
                        = JsError (lit "AI request failed (" ++ decimal st ++ lit "): "
                                     ++ firstn 500 t)
                    end)
  /\ (run_result (_fetchCompletionStreaming url key model prompt net)
        = Some (Throw timeout_error)
      <-> exists f, underlying_failure net = Some (Rejected f) /\ aborted f = true)
  /\ (forall (calls : list jsstring) (e : exn),
        fetch_try net = (calls, Some (Throw e)) ->
        if is_abort e
        then run_result (_fetchCompletionStreaming url key model prompt net)
             = Some (Throw timeout_error)
        else run_result (_fetchCompletionStreaming url key model prompt net)
             = Some (Throw e) /\ e <> timeout_error).
Proof.
  pose proof (call_fails_as_surfaced url key model prompt net) as Hcall.
  split; [reflexivity|]. split; [reflexivity|]. split; [exact Hcall|].
  split; [exact aborted_iff|]. split; [exact surfaced_timeout|].
  split.
  { intros fl Hfl. split.
    - intros H. apply surfaced_timeout in H as (f & -> & E).
      rewrite (Hfl f eq_refl) in E. discriminate.
    - destruct fl as [f|st t]; [|reflexivity].
      cbn [surfaced]. now rewrite (Hfl f eq_refl). }
  split.
  { destruct (underlying_failure net) as [fl|].
    - rewrite Hcall. split.
      + intros H. assert (Hs : surfaced fl = timeout_error) by (now inversion H).
        apply surfaced_timeout in Hs as (f & -> & E). eauto.
      + intros (f & H & E). inversion H; subst. cbn [surfaced]. now rewrite E.
    - destruct Hcall as [t Ht]. rewrite Ht. split; [discriminate|].
      intros (f & H & _). discriminate. }
  intros calls e H. unfold _fetchCompletionStreaming. rewrite H.
  cbn [run_result snd]. unfold fetch_catch. fold (is_abort e).
  destruct (fetch_try_throws net H) as [[f ->]|(st & t & ->)].
  - rewrite is_abort_rejection. destruct (aborted f); [reflexivity|].
    split; [reflexivity | apply rejection_not_timeout].
  - cbn [is_abort instanceofDOMException andb].
    split; [reflexivity | apply http_error_not_timeout].
Qed.

Lemma C7_timeout_distinct_from_other_failures_witness :
  (underlying_failure (streaming [stream_a_b] (StreamFail Aborted)) = Some (Rejected Aborted)
   /\ run_result (_fetchCompletionStreaming [] None None []
                    (streaming [stream_a_b] (StreamFail Aborted)))
      = Some (Throw timeout_error))
  /\ run_result (_fetchCompletionStreaming [] None None []
                   (FetchRejected (Transport (lit "Failed to fetch"))))
     = Some (Throw (JsTypeError (lit "Failed to fetch")))
  /\ run_result (_fetchCompletionStreaming [] None None []
                   (FetchRejected (Failed (lit "NetworkError") (lit "lost"))))
     = Some (Throw (JsDOMException (lit "NetworkError") (lit "lost")))
  /\ run_result (_fetchCompletionStreaming [] None None [] not_found)
     = Some (Throw (JsError (lit "AI request failed (404): missing")))
  /\ (exists t, run_result (_fetchCompletionStreaming [] None None []
                              (streaming [stream_x_done] (StreamFail Aborted)))
                = Some (Normal t))
  /\ (fetch_try (streaming [stream_a_b] (StreamFail Aborted))
      = ([lit "a"; lit "ab"], Some (Throw (rejection Aborted)))
      /\ is_abort (rejection Aborted) = true).
Proof.
  assert (H1 : fetch_try (streaming [stream_a_b] (StreamFail Aborted))
               = ([lit "a"; lit "ab"], Some (Throw (rejection Aborted))))
    by (vm_compute; reflexivity).
  pose proof (proj1 (proj2 (proj2 (C7_timeout_distinct_from_other_failures [] None None []
                (streaming [stream_a_b] (StreamFail Aborted)))))) as K1.
  pose proof (proj1 (proj2 (proj2 (C7_timeout_distinct_from_other_failures [] None None []
                (FetchRejected (Transport (lit "Failed to fetch"))))))) as K2.
  pose proof (proj1 (proj2 (proj2 (C7_timeout_distinct_from_other_failures [] None None []
                (FetchRejected (Failed (lit "NetworkError") (lit "lost"))))))) as K3.
  pose proof (proj1 (proj2 (proj2 (C7_timeout_distinct_from_other_failures [] None None []
                not_found)))) as K4.
  pose proof (proj1 (proj2 (proj2 (C7_timeout_distinct_from_other_failures [] None None []
                (streaming [stream_x_done] (StreamFail Aborted)))))) as K5.
  assert (E1 : underlying_failure (streaming [stream_a_b] (StreamFail Aborted))
               = Some (Rejected Aborted)) by (vm_compute; reflexivity).
  split; [split; [exact E1 | exact K1]|].
  split; [exact K2|]. split; [exact K3|].
  split; [vm_compute in K4; vm_compute; exact K4|].
  split; [exact K5|].
  split; [exact H1 | reflexivity].
Defined.

(* ================================================================== *)
(** ** The renderer *)
(* ================================================================== *)

Section Rendering.

Import Render.

Lemma trimStart_nil_blank (s : jsstring) : trimStart s = [] <-> blank s = true.
Proof.
  unfold blank. induction s as [|c r IH]; simpl; [tauto|].
  destruct (isWhiteSpace c); simpl; [exact IH|]. split; discriminate.
Qed.

Lemma blank_rev (s : jsstring) : blank (rev s) = blank s.
Proof.
  unfold blank. destruct (forallb isWhiteSpace s) eqn:E.
  - apply forallb_forall. intros x Hx. rewrite forallb_forall in E.
    apply E. now apply in_rev.
  - destruct (forallb isWhiteSpace (rev s)) eqn:E2; [|reflexivity].
    rewrite <- E. symmetry. apply forallb_forall. intros x Hx.
    rewrite forallb_forall in E2. apply E2. now apply in_rev in Hx.
Qed.

Lemma trimStart_suffix (s : jsstring) : exists ws, s = ws ++ trimStart s /\ blank ws = true.
Proof.
  induction s as [|c r (ws & IH & Hws)]; simpl.
  - exists []. split; reflexivity.
  - destruct (isWhiteSpace c) eqn:E.
    + exists (c :: ws). simpl. rewrite E. split; [now f_equal | exact Hws].
    + exists []. split; reflexivity.
Qed.

Lemma blank_app (a b : jsstring) : blank (a ++ b) = blank a && blank b.
Proof. unfold blank. apply forallb_app. Qed.

(** [trim] leaves nothing exactly of the blank strings. *)
Lemma trim_empty_blank (s : jsstring) :
  (Js.length (trim s) =? 0)%Z = blank s.
Proof.
  unfold trim, trimEnd, Js.length.
  destruct (trimStart_suffix s) as (ws & Hs & Hws).
  destruct (trimStart_suffix (rev (trimStart s))) as (ws2 & Hs2 & Hws2).
  assert (Hb : blank s = blank (trimStart (rev (trimStart s)))).
  { rewrite Hs at 1. rewrite blank_app, Hws. simpl.
    rewrite <- (blank_rev (trimStart s)). rewrite Hs2 at 1.
    now rewrite blank_app, Hws2. }
  rewrite Hb. rewrite length_rev.
  destruct (trimStart (rev (trimStart s))) as [|c r] eqn:E; [reflexivity|].
  assert (Hne : blank (c :: r) = false).
  { destruct (blank (c :: r)) eqn:Hbl; [|reflexivity].
    apply trimStart_nil_blank in Hbl. simpl in Hbl.
    assert (Hw : isWhiteSpace c = false).
    { clear -E. revert E. generalize (rev (trimStart s)). intros l.
      induction l as [|x l IH]; simpl; [discriminate|].
      destruct (isWhiteSpace x) eqn:Ex; [exact IH|]. intros H. inversion H. now subst. }
    rewrite Hw in Hbl. discriminate. }
  rewrite Hne. reflexivity.
Qed.

Lemma string_or_nonempty (o : list (jsstring * value)) (key : jsstring) :
  string_or (get_member o key) [] =
  match nonempty_string o key with Some s => s | None => [] end.
Proof.
  unfold nonempty_string. destruct (get_member o key) as [[| | |[|c s]| |]|]; reflexivity.
Qed.

Lemma length_pos_nonempty (o : list (jsstring * value)) (key : jsstring) :
  (Js.length (string_or (get_member o key) []) >? 0)%Z =
  match nonempty_string o key with Some _ => true | None => false end.
Proof.
  unfold nonempty_string. destruct (get_member o key) as [[| | |[|c s]| |]|]; reflexivity.
Qed.

Lemma length_zero_nonempty (o : list (jsstring * value)) (key : jsstring) :
  (Js.length (string_or (get_member o key) []) =? 0)%Z =
  match nonempty_string o key with Some _ => false | None => true end.
Proof.
  unfold nonempty_string. destruct (get_member o key) as [[| | |[|c s]| |]|]; reflexivity.
Qed.

(** One turn of the loop over the examples appends the entry of the
    example. *)
Lemma example_turn_entry (items : list Node) (example : value) :
  example_turn items example = items ++ example_entry example.
Proof.
  unfold example_turn, example_entry.
  destruct example as [| b | lx | s | xs | m]; simpl; try (now rewrite app_nil_r).
  rewrite !length_zero_nonempty, !length_pos_nonempty, !string_or_nonempty.
  destruct (nonempty_string m (lit "text")), (nonempty_string m (lit "explain"));
    simpl; try reflexivity. now rewrite app_nil_r.
Qed.

Lemma examples_loop (examples : list value) (items : list Node) :
  fold_left example_turn examples items = items ++ flat_map example_entry examples.
Proof.
  revert items. induction examples as [|x xs IH]; intros items; simpl.
  - now rewrite app_nil_r.
  - rewrite IH, example_turn_entry. now rewrite <- app_assoc.
Qed.

Lemma write_content_present (st : DisplayAi.t) (old : option (list Node)) (c : list Node) :
  write_content c (with_content st old) =
  (Normal tt, with_content st (Some c), [EContent c]).
Proof. reflexivity. Qed.

Lemma appendChild_present (st : DisplayAi.t) (c : list Node) (n : Node) :
  content_appendChild n (with_content st (Some c)) =
  (Normal tt, with_content st (Some (c ++ [n])), [EContent (c ++ [n])]).
Proof. reflexivity. Qed.

(** A section is appended exactly when the reference says so. *)
Lemma addSection_section (st : DisplayAi.t) (c : list Node)
    (label : jsstring) (o : list (jsstring * value)) (key : jsstring) :
  exists log,
    addSection label (string_or (get_member o key) []) (with_content st (Some c)) =
    (Normal tt, with_content st (Some (c ++ section label o key)), log).
Proof.
  unfold addSection, section. rewrite trim_empty_blank. unfold blank.
  destruct (get_member o key) as [[| | |s| |]|]; cbn [string_or forallb];
    try (exists []; cbn; now rewrite app_nil_r).
  destruct (forallb isWhiteSpace s).
  - exists []. cbn. now rewrite app_nil_r.
  - eexists. apply appendChild_present.
Qed.

End Rendering.

(** C8. Rendering a parsed object never raises and leaves in the pane, in
    place of whatever it held: the header (the title if it is a non-empty
    string, else the word if non-empty, else 'AI', and the word badge when
    the word is a non-empty string), then the Meaning, In context and
    Usage sections, each only when its field is a string that is not
    blank, then the Examples section only when the examples field is a
    non-empty array, with one entry per example that has a non-empty text
    or explain string, holding exactly those lines.  Fields of another
    type count as absent.  Nothing else of the instance changes. *)
Theorem C8_render_structured_result
    (st : DisplayAi.t) (prior : list Node) (o : list (jsstring * value)) :
  exists log,
    _setContentRendered (JObject o) (Render.with_content st (Some prior)) =
    (Normal tt, Render.with_content st (Some (Render.render o)), log).
Proof.
  assert (Hheader :
    Element (lit "ai-explanation-render-header")
      (if (Js.length (string_or (get_member o (lit "word")) []) >? 0)%Z
       then [div_text (lit "ai-explanation-render-title")
               (if (Js.length (string_or (get_member o (lit "title")) []) >? 0)%Z
                then string_or (get_member o (lit "title")) []
                else if (Js.length (string_or (get_member o (lit "word")) []) >? 0)%Z
                     then string_or (get_member o (lit "word")) [] else lit "AI")]
            ++ [div_text (lit "ai-explanation-render-badge")
                  (string_or (get_member o (lit "word")) [])]
       else [div_text (lit "ai-explanation-render-title")
               (if (Js.length (string_or (get_member o (lit "title")) []) >? 0)%Z
                then string_or (get_member o (lit "title")) []
                else if (Js.length (string_or (get_member o (lit "word")) []) >? 0)%Z
                     then string_or (get_member o (lit "word")) [] else lit "AI")])
    = Render.header o).
  { unfold Render.header. rewrite !length_pos_nonempty, !string_or_nonempty.
    destruct (Render.nonempty_string o (lit "title")),
             (Render.nonempty_string o (lit "word")); reflexivity. }
  unfold _setContentRendered, Render.render, bind.
  cbn [read Render.with_content _content].
  rewrite write_content_present.
  cbv iota beta. cbn [typeof_object is_null negb orb get textContent].
  rewrite Hheader, appendChild_present. cbv iota beta. cbn [app].
  destruct (addSection_section st [Render.header o] (lit "Meaning") o (lit "meaning"))
    as [l1 ->].
  destruct (addSection_section st
              ([Render.header o] ++ Render.section (lit "Meaning") o (lit "meaning"))
              (lit "In context") o (lit "meaning_in_context")) as [l2 ->].
  destruct (addSection_section st
              (([Render.header o] ++ Render.section (lit "Meaning") o (lit "meaning"))
                 ++ Render.section (lit "In context") o (lit "meaning_in_context"))
              (lit "Usage") o (lit "usage")) as [l3 ->].
  unfold Render.examples_section.
  destruct (get_member o (lit "examples")) as [[| | | |[|x xs]|]|];
    try (eexists; change (Z.of_nat (Datatypes.length (@nil value)) >? 0)%Z with false;
         unfold ret; cbv iota beta; rewrite !app_nil_r, <- !app_assoc; reflexivity).
  change (Z.of_nat (Datatypes.length (x :: xs)) >? 0)%Z with true. cbv iota.
  rewrite appendChild_present, examples_loop. cbn [app].
  eexists. rewrite <- !app_assoc. reflexivity.
Qed.

(** The tree rendered for an object with a title of the wrong type, a
    blank meaning and defective examples. *)
Example render_defective :
  Render.render Render.defective =
  [Element (lit "ai-explanation-render-header")
     [Element (lit "ai-explanation-render-title") [TextNode (lit "neko")];
      Element (lit "ai-explanation-render-badge") [TextNode (lit "neko")]];
   Element (lit "ai-explanation-section")
     [Element (lit "ai-explanation-section-title") [TextNode (lit "Usage")];
      Element (lit "ai-explanation-section-body") [TextNode (lit "noun")]];
   Element (lit "ai-explanation-section")
     [Element (lit "ai-explanation-section-title") [TextNode (lit "Examples")];
      Element (lit "ai-explanation-examples")
        [Element (lit "ai-explanation-example")
           [Element (lit "ai-explanation-example-text") [TextNode (lit "neko da")]]]]].
Proof. vm_compute; reflexivity. Qed.

(* ================================================================== *)
(** ** Request tokens *)
(* ================================================================== *)

Section TokenFacts.

Lemma tame_ret {A} (a : A) : tame (ret a).
Proof. intros st. now exists a, st, []. Qed.

Lemma tame_read {A} (f : DisplayAi.t -> A) : tame (read f).
Proof. intros st. now exists (f st), st, []. Qed.

Lemma tame_effect (e : Effect) : tame (effect e).
Proof. intros st. now exists tt, st, [e]. Qed.

Lemma tame_bind {A B} (m : M A) (k : A -> M B) :
  tame m -> (forall a, tame (k a)) -> tame (bind m k).
Proof.
  intros Hm Hk st. destruct (Hm st) as (a & st1 & l1 & E1 & I1).
  destruct (Hk a st1) as (b & st2 & l2 & E2 & I2).
  exists b, st2, (l1 ++ l2). unfold bind. rewrite E1, E2. split; [reflexivity | congruence].
Qed.

Lemma tame_write_pendingInput v : tame (write_pendingInput v).
Proof. intros st. now eexists _, _, _. Qed.

Lemma tame_write_settings v : tame (write_settings v).
Proof. intros st. now eexists _, _, _. Qed.

Lemma tame_write_content c : tame (write_content c).
Proof. intros st. now eexists _, _, _. Qed.

Lemma tame_setVisible b : tame (_setVisible b).
Proof. intros st. unfold _setVisible. destruct (_root st); now eexists _, _, _. Qed.

Lemma tame_setButtonVisible b : tame (_setButtonVisible b).
Proof. intros st. unfold _setButtonVisible. destruct (_button st); now eexists _, _, _. Qed.

Lemma tame_setStatusText s : tame (_setStatusText s).
Proof. intros st. unfold _setStatusText. destruct (_status st); now eexists _, _, _. Qed.

Lemma tame_setContentText s : tame (_setContentText s).
Proof.
  intros st. unfold _setContentText. destruct (_content st); now eexists _, _, _.
Qed.

Lemma tame_appendChild n : tame (content_appendChild n).
Proof.
  intros st. unfold content_appendChild. destruct (_content st); now eexists _, _, _.
Qed.

Lemma tame_addSection l b : tame (addSection l b).
Proof.
  unfold addSection. destruct (Js.length (trim b) =? 0)%Z;
    [apply tame_ret | apply tame_appendChild].
Qed.

Lemma tame_setContentRendered v : tame (_setContentRendered v).
Proof.
  unfold _setContentRendered. apply tame_bind; [apply tame_read|].
  intros [c|]; [|apply tame_ret].
  apply tame_bind; [apply tame_write_content|]. intros _.
  destruct (negb (typeof_object (Some v)) || is_null (Some v));
    [apply tame_write_content|].
  repeat (apply tame_bind; [first [apply tame_appendChild | apply tame_addSection]|intros _]).
  destruct (Z.of_nat _ >? 0)%Z; [apply tame_appendChild | apply tame_ret].
Qed.

(** [_tryParseJson] never throws. *)
Lemma tryParseJson_normal (v : value) : exists r, _tryParseJson v = Normal r.
Proof.
  unfold _tryParseJson. destruct v; eauto.
  destruct (negb _ || negb _); eauto.
  destruct (JSON_parse _); eauto.
Qed.

Lemma tame_lift_tryParseJson v : tame (lift (_tryParseJson v)).
Proof.
  intros st. destruct (tryParseJson_normal v) as [r Hr].
  exists r, st, []. unfold lift. now rewrite Hr.
Qed.

Lemma behaves_ret (Q : list Pending -> Prop) sp st : Q sp -> behaves Q (ret sp) st.
Proof. intros H. now exists sp, st, []. Qed.

Lemma behaves_bind {A} (Q : list Pending -> Prop) (m : M A) (k : A -> M (list Pending)) st :
  tame m ->
  (forall a st1, _requestId st1 = _requestId st -> behaves Q (k a) st1) ->
  behaves Q (bind m k) st.
Proof.
  intros Hm Hk. destruct (Hm st) as (a & st1 & l1 & E1 & I1).
  destruct (Hk a st1 I1) as (sp & st2 & l2 & E2 & I2 & HQ).
  exists sp, st2, (l1 ++ l2). unfold bind. rewrite E1, E2.
  split; [reflexivity|]. split; [congruence | exact HQ].
Qed.

Lemma behaves_read {A} (Q : list Pending -> Prop) (f : DisplayAi.t -> A)
    (k : A -> M (list Pending)) st :
  behaves Q (k (f st)) st -> behaves Q (bind (read f) k) st.
Proof.
  intros (sp & st2 & l2 & E2 & I2 & HQ). exists sp, st2, l2.
  unfold bind, read. now rewrite E2.
Qed.

Lemma behaves_try_catch (Q : list Pending -> Prop) body handler st :
  behaves Q body st -> behaves Q (try_catch body handler) st.
Proof.
  intros (sp & st2 & l2 & E2 & I2 & HQ). exists sp, st2, l2.
  unfold try_catch. now rewrite E2.
Qed.

Ltac quiet_steps :=
  repeat first
    [ apply behaves_ret; reflexivity
    | apply behaves_bind;
      [ first [ apply tame_setVisible | apply tame_setButtonVisible
              | apply tame_setStatusText | apply tame_setContentText
              | apply tame_setContentRendered | apply tame_effect
              | apply tame_write_pendingInput | apply tame_write_settings
              | apply tame_lift_tryParseJson ]
      | intros ? ? ? ] ].

(** The [catch] block of [_requestExplain] suspends nothing. *)
Lemma requestExplain_catch_behaves r e st :
  behaves (fun sp => sp = []) (_requestExplain_catch r e) st.
Proof.
  unfold _requestExplain_catch. apply behaves_read.
  destruct (negb (r =? _requestId st)%Z); quiet_steps.
Qed.

Lemma onText_behaves r x st : behaves (fun sp => sp = []) (onText r x) st.
Proof.
  unfold onText. apply behaves_read.
  destruct (negb (r =? _requestId st)%Z); quiet_steps.
  destruct a0; quiet_steps.
Qed.

Lemma requestExplain_resolved_behaves r x st :
  behaves (fun sp => sp = []) (_requestExplain_resolved r x) st.
Proof.
  unfold _requestExplain_resolved. apply behaves_try_catch, behaves_read.
  destruct (negb (r =? _requestId st)%Z); quiet_steps.
  destruct a; quiet_steps.
Qed.

Lemma onContentUpdateStart_rejected_behaves e st :
  behaves (fun sp => sp = []) (_onContentUpdateStart_rejected e) st.
Proof. unfold _onContentUpdateStart_rejected. quiet_steps. Qed.

(** [_requestExplain] from the settings on keeps the token; what it
    suspends holds the token it captured, which is the current one. *)
Lemma requestExplain_settings_behaves r w c settings st :
  behaves (fun sp => sp = [] \/ (sp = [PCompletion r] /\ r = _requestId st))
    (_requestExplain_settings r w c settings) st.
Proof.
  unfold behaves, _requestExplain_settings, try_catch, bind, read, throw, effect, ret.
  destruct (r =? _requestId st)%Z eqn:E; cbn [negb].
  - apply Z.eqb_eq in E.
    destruct (Js.length _ =? 0)%Z.
    + destruct (requestExplain_catch_behaves r (JsError (lit "AI API URL not configured")) st)
        as (sp & st2 & l2 & E2 & I2 & ->).
      rewrite E2. exists [], st2, l2. auto.
    + eexists _, st, _. split; [reflexivity|]. auto.
  - exists [], st, []. auto.
Qed.

Lemma behaves_weaken (Q Q' : list Pending -> Prop) m st :
  (forall sp, Q sp -> Q' sp) -> behaves Q m st -> behaves Q' m st.
Proof. intros HQ (sp & st' & log & E & I & H). exists sp, st', log. auto. Qed.

(** A handler that starts by incrementing the token. *)
Lemma takes_token_intro (k : M (list Pending)) st :
  (forall st1, _requestId st1 = plus_one (_requestId st) ->
               behaves (holds_token (_requestId st1)) k st1) ->
  takes_token (r <- read _requestId ;; write_requestId (plus_one r) ;; k) st.
Proof.
  intros Hk. unfold takes_token, bind, read, write_requestId.
  match goal with
  | |- context [k ?s] => destruct (Hk s eq_refl) as (sp & st2 & l2 & E2 & I2 & HQ)
  end.
  rewrite E2. exists sp, st2, l2. cbn in *. auto.
Qed.

Lemma takes_token_advances m st : takes_token m st -> advances m st.
Proof. intros (sp & st' & log & E & I & H). now exists sp, st', (ERequestId (plus_one (_requestId st)) :: log). Qed.

Lemma advances_bind {A} (m : M A) (k : A -> M (list Pending)) st :
  tame m ->
  (forall a st1, _requestId st1 = _requestId st -> advances (k a) st1) ->
  advances (bind m k) st.
Proof.
  intros Hm Hk. destruct (Hm st) as (a & st1 & l1 & E1 & I1).
  destruct (Hk a st1 I1) as (sp & st2 & l2 & E2 & I2 & HQ).
  exists sp, st2, (l1 ++ l2). unfold bind. rewrite E1, E2. rewrite <- I1.
  split; [reflexivity|]. split; assumption.
Qed.

(** [_requestExplain] takes a new token before anything else; what it
    suspends holds that token. *)
Lemma requestExplain_takes_token w c st : takes_token (_requestExplain w c) st.
Proof.
  unfold _requestExplain. apply takes_token_intro. intros st1 _.
  apply behaves_read.
  do 3 (apply behaves_bind;
        [first [apply tame_setVisible | apply tame_setStatusText | apply tame_setContentText]
        | intros ? ? ?]).
  apply behaves_read. destruct (_settings st3) as [settings|].
  - eapply behaves_weaken; [|apply requestExplain_settings_behaves].
    intros sp [->|[-> _]]; [now left | right; now exists (PCompletion (_requestId st1))].
  - apply behaves_bind; [apply tame_effect|]. intros ? ? ?. apply behaves_ret.
    right. now eexists.
Qed.

Lemma onContentClear_takes_token st : takes_token _onContentClear st.
Proof.
  unfold _onContentClear. apply takes_token_intro. intros st1 _.
  apply behaves_weaken with (Q := fun sp => sp = []); [intros sp H; now left|].
    quiet_steps.
Qed.

Lemma onContentUpdateStart_takes_token q h st : takes_token (_onContentUpdateStart q h) st.
Proof.
  unfold _onContentUpdateStart. apply takes_token_intro. intros st1 _.
  apply behaves_bind; [apply tame_write_pendingInput|]. intros ? st2 I2.
  destruct (negb (_isShiftLookup h)).
  - apply behaves_weaken with (Q := fun sp => sp = []); [intros sp H; now left|].
    quiet_steps.
  - apply behaves_read. apply behaves_bind; [apply tame_effect|]. intros ? ? ?.
    apply behaves_ret. right. eexists. split; [reflexivity|]. cbn. congruence.
Qed.

(** A click either does nothing or starts an explain. *)
Lemma onButtonClick_cases h st :
  behaves (fun sp => sp = []) (_onButtonClick h) st \/ advances (_onButtonClick h) st.
Proof.
  unfold _onButtonClick. destruct (negb (_isShiftLookup h)).
  - left. quiet_steps.
  - destruct (_pendingInput st) as [[w c]|] eqn:E.
    + right. unfold advances, bind, read. rewrite E.
      destruct (requestExplain_takes_token w c st) as (sp & st' & log & E1 & I1 & H1).
      rewrite E1. now eexists sp, st', _.
    + left. apply behaves_read. rewrite E. quiet_steps.
Qed.

(** The settings of a lookup arriving: nothing when stale, the manual
    prompt, or an explain. *)
Lemma onContentUpdateStart_resolved_cases r q settings h st :
  behaves (fun sp => sp = []) (_onContentUpdateStart_resolved r q settings h) st
  \/ advances (_onContentUpdateStart_resolved r q settings h) st.
Proof.
  unfold _onContentUpdateStart_resolved.
  destruct (negb (r =? _requestId st)%Z) eqn:E.
  - left. apply behaves_read. rewrite E. quiet_steps.
  - destruct (typeof_string (get_member settings (lit "mode"))
              && str_eqb (string_or (get_member settings (lit "mode")) []) (lit "manual"))
      eqn:Em.
    + left. unfold behaves, bind, read. rewrite E.
      unfold write_settings, write_pendingInput, _setVisible. cbn [_root _settings].
      destruct (_root st); cbn [_settings]; rewrite Em;
        repeat match goal with
          | |- context [_setButtonVisible true ?s] =>
              destruct (tame_setButtonVisible true s) as (a2 & s2 & l2 & -> & I2)
          | |- context [_setStatusText ?x ?s] =>
              destruct (tame_setStatusText x s) as (a3 & s3 & l3 & -> & I3)
          | |- context [_setContentText ?x ?s] =>
              destruct (tame_setContentText x s) as (a4 & s4 & l4 & -> & I4)
          end;
        (eexists [], s4, _; split; [reflexivity|]; split; [|reflexivity];
         cbn in *; congruence).
    + right. unfold advances, bind, read. rewrite E.
      unfold write_settings, write_pendingInput, _setVisible. cbn [_root _settings].
      destruct (_root st); cbn [_settings]; rewrite Em;
        repeat match goal with
          | |- context [_setButtonVisible false ?s] =>
              destruct (tame_setButtonVisible false s) as (a2 & s2 & l2 & -> & I2)
          | |- context [_requestExplain ?w ?c ?s] =>
              destruct (requestExplain_takes_token w c s) as (sp & s3 & l3 & -> & I3 & H3)
          end;
        (cbn in I2; rewrite I2 in I3, H3;
         eexists sp, s3, _; split; [reflexivity|]; split; assumption).
Qed.

Lemma NoDup_snoc {A} (l : list A) (x : A) : NoDup l -> ~ In x l -> NoDup (l ++ [x]).
Proof.
  intros HN Hx. apply NoDup_rev in HN.
  rewrite <- (rev_involutive (l ++ [x])). apply NoDup_rev.
  rewrite rev_app_distr. cbn [rev app]. constructor; [|assumption].
  now rewrite <- in_rev.
Qed.

Lemma remove_nth_split {A} (l1 l2 : list A) (a : A) :
  remove_nth (List.length l1) (l1 ++ a :: l2) = l1 ++ l2.
Proof.
  unfold remove_nth. rewrite firstn_app, Nat.sub_diag, firstn_all. simpl firstn.
  rewrite app_nil_r.
  replace (S (List.length l1)) with (List.length (l1 ++ [a])) by (rewrite length_app; simpl; lia).
  replace (l1 ++ a :: l2) with ((l1 ++ [a]) ++ l2) by (now rewrite <- app_assoc).
  now rewrite skipn_app, Nat.sub_diag, skipn_all.
Qed.

(** Using up a suspended continuation keeps the invariant, and frees its
    token. *)
Lemma Inv_remove st l i p :
  Inv {| ai := st; pending := l |} ->
  nth_error l i = Some p ->
  Inv {| ai := st; pending := remove_nth i l |}
  /\ ~ In (captured p) (map captured (remove_nth i l)).
Proof.
  intros [HF HN] Hn. unfold Inv. cbn [ai pending] in *.
  destruct (nth_error_split l i Hn) as (l1 & l2 & -> & <-).
  rewrite remove_nth_split. rewrite map_app in HN. cbn [map] in HN.
  apply Forall_app in HF as [HF1 HF2]. inversion HF2; subst.
  rewrite map_app. split; [split|].
  - apply Forall_app. auto.
  - eapply NoDup_remove_1; eassumption.
  - eapply NoDup_remove_2; eassumption.
Qed.

Lemma Inv_same st st' l :
  Inv {| ai := st; pending := l |} -> _requestId st' = _requestId st ->
  Inv {| ai := st'; pending := l ++ [] |}.
Proof.
  intros [HF HN] I. unfold Inv. cbn [ai pending] in *. rewrite app_nil_r.
  split; [|assumption]. now rewrite I.
Qed.

Lemma Inv_advance st st' l sp :
  Inv {| ai := st; pending := l |} -> (_requestId st < 2 ^ 53)%Z ->
  _requestId st' = plus_one (_requestId st) ->
  holds_token (plus_one (_requestId st)) sp ->
  Inv {| ai := st'; pending := l ++ sp |}
  /\ Forall (fun p => captured p <> _requestId st') l.
Proof.
  intros [HF HN] Hlt I Hsp. unfold Inv. cbn [ai pending] in *.
  assert (Hp : plus_one (_requestId st) = (_requestId st + 1)%Z).
  { unfold plus_one. destruct (_requestId st <? 2 ^ 53)%Z eqn:E; [reflexivity|].
    apply Z.ltb_ge in E. lia. }
  rewrite Hp in *.
  assert (Hold : Forall (fun p => captured p <> _requestId st') l).
  { eapply Forall_impl; [|exact HF]. cbn. intros p Hle. lia. }
  split; [|exact Hold].
  destruct Hsp as [->|(p & -> & Hc)].
  - rewrite app_nil_r. split; [|assumption].
    eapply Forall_impl; [|exact HF]. cbn. intros; lia.
  - split.
    + apply Forall_app. split.
      * eapply Forall_impl; [|exact HF]. cbn. intros; lia.
      * constructor; [lia | constructor].
    + rewrite map_app. cbn [map]. apply NoDup_snoc; [assumption|].
      intros Hin.
      apply in_map_iff in Hin as (p0 & Hp0 & Hin0).
      rewrite Forall_forall in HF. specialize (HF p0 Hin0). cbn in HF. lia.
Qed.

Lemma finish_quiet st rest code sys' log :
  Inv {| ai := st; pending := rest |} ->
  behaves (fun sp => sp = []) code st ->
  match code st with
  | (Normal spawned, st', lg) => Some ({| ai := st'; pending := rest ++ spawned |}, lg)
  | (Throw _, st', lg) => Some ({| ai := st'; pending := rest |}, lg)
  end = Some (sys', log) ->
  Inv sys' /\ _requestId (ai sys') = _requestId st.
Proof.
  intros HI (sp & st' & lg & E & I & ->). rewrite E. intros H. inversion H; subst.
  split; [now apply Inv_same with (st := st) | exact I].
Qed.

Lemma finish_advance st rest code sys' log :
  Inv {| ai := st; pending := rest |} -> (_requestId st < 2 ^ 53)%Z ->
  advances code st ->
  match code st with
  | (Normal spawned, st', lg) => Some ({| ai := st'; pending := rest ++ spawned |}, lg)
  | (Throw _, st', lg) => Some ({| ai := st'; pending := rest |}, lg)
  end = Some (sys', log) ->
  Inv sys' /\ _requestId (ai sys') = plus_one (_requestId st).
Proof.
  intros HI Hlt (sp & st' & lg & E & I & Hsp). rewrite E. intros H. inversion H; subst.
  split; [|exact I]. now apply (Inv_advance (st := st)).
Qed.

Lemma plus_one_bounds (x : Z) : (x <= plus_one x <= x + 1)%Z.
Proof. unfold plus_one. destruct (x <? 2 ^ 53)%Z; lia. Qed.

(** Every task keeps the invariant, and moves the token up by at most
    one. *)
Lemma step_Inv sys ev sys' log :
  Inv sys -> (_requestId (ai sys) < 2 ^ 53)%Z ->
  step sys ev = Some (sys', log) ->
  Inv sys'
  /\ (_requestId (ai sys) <= _requestId (ai sys') <= _requestId (ai sys) + 1)%Z.
Proof.
  destruct sys as [st l]. cbn [ai pending]. intros HI Hlt.
  pose proof (plus_one_bounds (_requestId st)) as Hb.
  assert (Hq : forall rest code,
             Inv {| ai := st; pending := rest |} ->
             behaves (fun sp => sp = []) code st \/ advances code st ->
             match code st with
             | (Normal spawned, st', lg) =>
                 Some ({| ai := st'; pending := rest ++ spawned |}, lg)
             | (Throw _, st', lg) => Some ({| ai := st'; pending := rest |}, lg)
             end = Some (sys', log) ->
             Inv sys'
             /\ (_requestId st <= _requestId (ai sys') <= _requestId st + 1)%Z).
  { intros rest code HIr [Hc|Hc] H.
    - destruct (finish_quiet HIr Hc H) as [H1 H2]. split; [exact H1 | lia].
    - destruct (finish_advance HIr Hlt Hc H) as [H1 H2]. split; [exact H1 | lia]. }
  unfold step, dispatch. cbn [ai pending].
  destruct ev as [|q h|h|i settings h|i e|i x|i x|i e].
  - apply Hq; [exact HI | right; apply takes_token_advances, onContentClear_takes_token].
  - apply Hq; [exact HI | right; apply takes_token_advances, onContentUpdateStart_takes_token].
  - apply Hq; [exact HI | apply onButtonClick_cases].
  - destruct (nth_error l i) as [[r q|r w c|r]|] eqn:En; try discriminate.
    + apply Hq; [eapply Inv_remove; eassumption | apply onContentUpdateStart_resolved_cases].
    + destruct (@Inv_remove st l i _ HI En) as [HIr Hfree]. cbn [captured] in Hfree.
      destruct (requestExplain_settings_behaves r w c settings st)
        as (sp & st' & lg & E & I & Hsp).
      rewrite E. intros H. inversion H; subst. cbn [ai]. split; [|lia].
      destruct Hsp as [->|[-> Hr]].
      * now apply Inv_same with (st := st).
      * destruct HIr as [HF HN]. unfold Inv. cbn [ai pending] in *. split.
        -- apply Forall_app. split; [now rewrite I|].
           constructor; [cbn; lia | constructor].
        -- rewrite map_app. cbn [map captured]. now apply NoDup_snoc.
  - destruct (nth_error l i) as [[r q|r w c|r]|] eqn:En; try discriminate.
    + apply Hq; [eapply Inv_remove; eassumption
                | left; apply onContentUpdateStart_rejected_behaves].
    + apply Hq; [eapply Inv_remove; eassumption | left; apply requestExplain_catch_behaves].
  - destruct (nth_error l i) as [[r q|r w c|r]|] eqn:En; try discriminate.
    apply Hq; [exact HI | left; apply onText_behaves].
  - destruct (nth_error l i) as [[r q|r w c|r]|] eqn:En; try discriminate.
    apply Hq; [eapply Inv_remove; eassumption | left; apply requestExplain_resolved_behaves].
  - destruct (nth_error l i) as [[r q|r w c|r]|] eqn:En; try discriminate.
    apply Hq; [eapply Inv_remove; eassumption | left; apply requestExplain_catch_behaves].
Qed.

Lemma Inv_initial : Inv initial.
Proof. split; cbn; constructor. Qed.

(** The invariant holds after every sequence of tasks short enough for
    the token to stay an exact integer. *)
Lemma run_Inv evs : forall sys sys' log,
  Inv sys -> (_requestId (ai sys) + Z.of_nat (List.length evs) <= 2 ^ 53)%Z ->
  run sys evs = Some (sys', log) ->
  Inv sys'
  /\ (_requestId (ai sys') <= _requestId (ai sys) + Z.of_nat (List.length evs))%Z.
Proof.
  induction evs as [|ev evs IH]; intros sys sys' log HI Hlen; cbn [run].
  - intros H. inversion H; subst. split; [assumption | cbn; lia].
  - cbn [List.length] in Hlen.
    destruct (step sys ev) as [[sys1 log1]|] eqn:E1; [|discriminate].
    assert (Hlt : (_requestId (ai sys) < 2 ^ 53)%Z) by lia.
    destruct (@step_Inv sys ev sys1 log1 HI Hlt E1) as [HI1 Hb1].
    destruct (run sys1 evs) as [[sys2 log2]|] eqn:E2; [|discriminate].
    intros H. inversion H; subst.
    destruct (IH _ _ _ HI1 ltac:(lia) E2) as [HI2 Hb2].
    split; [assumption | cbn [List.length]; lia].
Qed.

Lemma Inv_at_most_one sys : Inv sys -> at_most_one_current sys.
Proof.
  intros [_ HN] i j p q Hi Hj Hp Hq.
  assert (Hli : (i < List.length (map captured (pending sys)))%nat).
  { rewrite length_map. apply nth_error_Some. congruence. }
  rewrite NoDup_nth_error in HN. apply HN; [exact Hli|].
  rewrite !nth_error_map, Hi, Hj. cbn. congruence.
Qed.

(** A continuation that finds its token stale does nothing at all, in
    every continuation that tests the token. *)
Lemma stale_continuations_silent (r : Z) (st : DisplayAi.t) :
  r <> _requestId st ->
  (forall q settings h,
      _onContentUpdateStart_resolved r q settings h st = (Normal [], st, []))
  /\ (forall w c settings, _requestExplain_settings r w c settings st = (Normal [], st, []))
  /\ (forall x, onText r x st = (Normal [], st, []))
  /\ (forall x, _requestExplain_resolved r x st = (Normal [], st, []))
  /\ (forall e, _requestExplain_catch r e st = (Normal [], st, [])).
Proof.
  intros Hr. apply Z.eqb_neq in Hr.
  repeat split; intros;
    unfold _onContentUpdateStart_resolved, _requestExplain_settings, onText,
      _requestExplain_resolved, _requestExplain_catch, try_catch, bind, read;
    rewrite Hr; reflexivity.
Qed.

End TokenFacts.

(* ================================================================== *)
(** ** Claims on the request token *)
(* ================================================================== *)

(** C9. In every state the instance reaches in fewer than 2^53 tasks of
    the event loop, a run of the explain operation starts by incrementing
    the token, before any other effect, and captures the new value; every
    continuation suspended earlier then holds a token different from the
    current one and the explain's own continuation is the only one holding
    it.  The same holds after every task, whether the explain was started
    by a lookup in auto mode or by a click. *)
Theorem C9_explain_takes_new_token (doc : Document) (evs : list Event)
    (sys : System) (log0 : list Effect) (word context : jsstring) :
  run {| ai := prepare doc constructor; pending := [] |} evs = Some (sys, log0) ->
  (Z.of_nat (List.length evs) < 2 ^ 53)%Z ->
  (exists spawned st' log,
      _requestExplain word context (ai sys) =
        (Normal spawned, st', ERequestId (_requestId (ai sys) + 1) :: log)
      /\ _requestId st' = (_requestId (ai sys) + 1)%Z
      /\ Forall (fun p => captured p <> _requestId st') (pending sys)
      /\ Forall (fun p => captured p = _requestId st') spawned
      /\ at_most_one_current {| ai := st'; pending := pending sys ++ spawned |})
  /\ at_most_one_current sys
  /\ (forall ev sys' log,
        step sys ev = Some (sys', log) ->
        at_most_one_current sys'
        /\ (_requestId (ai sys) <= _requestId (ai sys'))%Z).
Proof.
  intros Hrun Hlen.
  assert (H0 : Inv {| ai := prepare doc constructor; pending := [] |})
    by (split; cbn; constructor).
  assert (Hid0 : _requestId (prepare doc constructor) = 0%Z)
    by (unfold prepare; now destruct (doc_root doc)).
  destruct (@run_Inv evs _ sys log0 H0 ltac:(cbn [ai]; lia) Hrun) as [HI Hb].
  cbn [ai] in Hb. rewrite Hid0 in Hb.
  assert (Hlt : (_requestId (ai sys) < 2 ^ 53)%Z) by lia.
  split; [|split].
  - destruct (requestExplain_takes_token word context (ai sys))
      as (sp & st' & log & E & I & Hsp).
    assert (Hp : plus_one (_requestId (ai sys)) = (_requestId (ai sys) + 1)%Z).
    { unfold plus_one. destruct (_requestId (ai sys) <? 2 ^ 53)%Z eqn:Eb; [reflexivity|].
      apply Z.ltb_ge in Eb. lia. }
    destruct sys as [st l]. cbn [ai pending] in *.
    destruct (@Inv_advance st st' l sp HI Hlt I Hsp) as [HI' Hold].
    exists sp, st', log. rewrite <- Hp.
    split; [exact E|]. split; [exact I|]. split; [exact Hold|]. split.
    + destruct Hsp as [->|(p & -> & Hc)]; [constructor|].
      constructor; [congruence | constructor].
    + now apply Inv_at_most_one.
  - now apply Inv_at_most_one.
  - intros ev sys' log H. destruct (@step_Inv sys ev sys' log HI Hlt H) as [HI' Hb'].
    split; [now apply Inv_at_most_one | lia].
Qed.

Lemma C9_explain_takes_new_token_witness :
  run {| ai := prepare popup constructor; pending := [] |} overlapping_lookups
    = Some (after overlapping_lookups, effects_of overlapping_lookups)
  /\ (Z.of_nat (List.length overlapping_lookups) < 2 ^ 53)%Z
  /\ (exists spawned st' log,
         _requestExplain (lit "B") (lit "sentence") (ai (after overlapping_lookups)) =
           (Normal spawned, st',
            ERequestId (_requestId (ai (after overlapping_lookups)) + 1) :: log)
         /\ _requestId st' = (_requestId (ai (after overlapping_lookups)) + 1)%Z
         /\ Forall (fun p => captured p <> _requestId st')
              (pending (after overlapping_lookups))
         /\ Forall (fun p => captured p = _requestId st') spawned
         /\ at_most_one_current
              {| ai := st'; pending := pending (after overlapping_lookups) ++ spawned |}).
Proof.
  assert (H1 : run {| ai := prepare popup constructor; pending := [] |} overlapping_lookups
               = Some (after overlapping_lookups, effects_of overlapping_lookups))
    by (vm_compute; reflexivity).
  assert (H2 : (Z.of_nat (List.length overlapping_lookups) < 2 ^ 53)%Z)
    by (vm_compute; reflexivity).
  split; [exact H1|]. split; [exact H2|].
  exact (proj1 (@C9_explain_takes_new_token popup overlapping_lookups
                  (after overlapping_lookups) (effects_of overlapping_lookups)
                  (lit "B") (lit "sentence") H1 H2)).
Defined.

(** In auto mode the request goes out as soon as the settings resolve, on
    a new token; in manual mode nothing is requested until the click. *)
Example auto_lookup_requests :
  fetched (effects_of auto_lookup) = true
  /\ _requestId (ai (after auto_lookup)) = 2%Z
  /\ pending (after auto_lookup) = [PCompletion 2].
Proof. repeat split; vm_compute; reflexivity. Qed.

Example manual_lookup_waits_for_click :
  fetched (effects_of (firstn 2 manual_lookup_click)) = false
  /\ fetched (effects_of manual_lookup_click) = true
  /\ pending (after manual_lookup_click) = [PCompletion 2].
Proof. repeat split; vm_compute; reflexivity. Qed.

(** C1 (defect of the code). With a lookup for A and then a lookup for B
    in flight, B's settings arrive and put the pane in manual mode; the
    token is 2 and the continuation of A's lookup holds the stale token 1.
    When A's settings fetch then fails, that continuation clears the
    cached settings and rewrites the pane: the error branch of
    [_onContentUpdateStart] does not test the token. *)
Theorem C1_stale_settings_rejection_mutates :
  nth_error (pending (after overlapping_lookups)) 0
    = Some (PUpdateSettings 1 (Some (lit "A")))
  /\ _requestId (ai (after overlapping_lookups)) = 2%Z
  /\ _settings (ai (after overlapping_lookups)) = Some manual_settings
  /\ exists sys',
       step (after overlapping_lookups) (SettingsRejected 0 unavailable) =
       Some (sys',
             [ESettings None; ERootHidden false; EButtonHidden true;
              EStatus (lit "AI settings unavailable.") false; EContent [];
              ELogError unavailable])
       /\ _settings (ai sys') = None
       /\ _button (ai sys') = Some true
       /\ _status (ai sys') =
            Some {| status_textContent := lit "AI settings unavailable.";
                    status_hidden := false |}.
Proof.
  split; [vm_compute; reflexivity|]. split; [vm_compute; reflexivity|].
  split; [vm_compute; reflexivity|].
  eexists. split; [vm_compute; reflexivity|].
  split; [reflexivity|]. split; reflexivity.
Qed.

(* ================================================================== *)
(** ** [JSON.parse] *)
(* ================================================================== *)

Section JsonFacts.

Lemma skip_ws_suffix (s : jsstring) :
  exists ws, s = ws ++ skip_ws s /\ forallb is_ws ws = true.
Proof.
  induction s as [|c r (ws & IH & Hws)]; simpl.
  - exists []. auto.
  - destruct (is_ws c) eqn:E.
    + exists (c :: ws). simpl. rewrite E, Hws. split; [now f_equal | reflexivity].
    + exists []. auto.
Qed.

Lemma skip_ws_length (s : jsstring) : (List.length (skip_ws s) <= List.length s)%nat.
Proof.
  destruct (skip_ws_suffix s) as (ws & H & _). rewrite H at 2.
  rewrite length_app. lia.
Qed.

(** Whitespace skipping that stops inside [s] stops there whatever
    follows [s]. *)
Lemma skip_ws_ext (s t r : jsstring) (c : char) :
  skip_ws s = c :: r -> skip_ws (s ++ t) = c :: r ++ t.
Proof.
  induction s as [|d s IH]; simpl; [discriminate|].
  destruct (is_ws d); [exact IH|]. intros H. inversion H. reflexivity.
Qed.

Lemma skip_ws_nil (s : jsstring) : skip_ws s = [] <-> forallb is_ws s = true.
Proof.
  induction s as [|c r IH]; simpl; [tauto|].
  destruct (is_ws c); simpl; [exact IH|]. split; discriminate.
Qed.

(** A string literal: what is read is a non-empty prefix, and is read the
    same whatever follows. *)
Lemma parse_string_chars_facts (n : nat) :
  forall (s acc str rest : jsstring),
    (List.length s <= n)%nat ->
    parse_string_chars s acc = POk str rest ->
    (exists pre, s = pre ++ rest /\ pre <> [])
    /\ (forall t, parse_string_chars (s ++ t) acc = POk str (rest ++ t)).
Proof.
  induction n as [|n IH]; intros s acc str rest Hlen H;
    destruct s as [|c r]; simpl in H; try discriminate; simpl in Hlen; [lia|].
  destruct (c =? 34)%N eqn:E34.
  { inversion H; subst. split.
    - exists [c]. split; [reflexivity | discriminate].
    - intros t. simpl. now rewrite E34. }
  destruct (c =? 92)%N eqn:E92.
  { destruct r as [|e r']; [discriminate|].
    destruct (e =? 117)%N eqn:E117.
    - destruct r' as [|h1 [|h2 [|h3 [|h4 r'']]]]; try discriminate.
      destruct (hex4 h1 h2 h3 h4) as [u|] eqn:Eh; [|discriminate].
      destruct (IH r'' (u :: acc) str rest ltac:(simpl in Hlen; lia) H)
        as [(pre & -> & _) Hext].
      split.
      + exists (c :: e :: h1 :: h2 :: h3 :: h4 :: pre). split; [reflexivity | discriminate].
      + intros t. simpl. rewrite E34, E92, E117, Eh. apply Hext.
    - destruct (simple_escape e) as [x|] eqn:Ee; [|discriminate].
      destruct (IH r' (x :: acc) str rest ltac:(simpl in Hlen; lia) H)
        as [(pre & -> & _) Hext].
      split.
      + exists (c :: e :: pre). split; [reflexivity | discriminate].
      + intros t. simpl. rewrite E34, E92, E117, Ee. apply Hext. }
  destruct (c <? 32)%N eqn:E32; [discriminate|].
  destruct (IH r (c :: acc) str rest ltac:(lia) H) as [(pre & -> & _) Hext].
  split.
  - exists (c :: pre). split; [reflexivity | discriminate].
  - intros t. simpl. rewrite E34, E92, E32. apply Hext.
Qed.

Lemma parse_string_chars_suffix (s acc str rest : jsstring) :
  parse_string_chars s acc = POk str rest -> exists pre, s = pre ++ rest /\ pre <> [].
Proof. intros H. now apply (parse_string_chars_facts (n := List.length s) s acc (le_n _) H). Qed.

Lemma parse_string_chars_ext (s acc str rest t : jsstring) :
  parse_string_chars s acc = POk str rest ->
  parse_string_chars (s ++ t) acc = POk str (rest ++ t).
Proof. intros H. now apply (parse_string_chars_facts (n := List.length s) s acc (le_n _) H). Qed.

Lemma parse_string_chars_not_fuel (s acc : jsstring) : parse_string_chars s acc <> PFuel.
Proof.
  remember (List.length s) as n eqn:Hn.
  assert (Hle : (List.length s <= n)%nat) by lia. clear Hn.
  revert s acc Hle. induction n as [|n IH]; intros s acc Hlen;
    destruct s as [|c r]; simpl; try discriminate; simpl in Hlen; [lia|].
  destruct (c =? 34)%N; [discriminate|].
  destruct (c =? 92)%N.
  { destruct r as [|e r']; [discriminate|].
    destruct (e =? 117)%N.
    - destruct r' as [|h1 [|h2 [|h3 [|h4 r'']]]]; try discriminate.
      destruct (hex4 h1 h2 h3 h4); [|discriminate]. apply IH. simpl in Hlen. lia.
    - destruct (simple_escape e); [|discriminate]. apply IH. simpl in Hlen. lia. }
  destruct (c <? 32)%N; [discriminate|]. apply IH. lia.
Qed.

Lemma span_digits_suffix (s : jsstring) :
  s = fst (span_digits s) ++ snd (span_digits s).
Proof.
  induction s as [|c r IH]; simpl; [reflexivity|].
  destruct (is_digit c); [|reflexivity].
  destruct (span_digits r) as [ds r']. simpl in *. now f_equal.
Qed.

Lemma span_digits_ext (s t : jsstring) :
  snd (span_digits s) <> [] ->
  span_digits (s ++ t) = (fst (span_digits s), snd (span_digits s) ++ t).
Proof.
  induction s as [|c r IH]; simpl; [tauto|].
  destruct (is_digit c); [|reflexivity].
  destruct (span_digits r) as [ds r']. simpl in *. intros H.
  rewrite (IH H). reflexivity.
Qed.

Lemma number_int_facts (s i rest : jsstring) :
  number_int s = Some (i, rest) ->
  s = i ++ rest /\ i <> []
  /\ (rest <> [] -> forall t, number_int (s ++ t) = Some (i, rest ++ t)).
Proof.
  unfold number_int. destruct s as [|c r]; [discriminate|].
  destruct (c =? 48)%N eqn:E0.
  - intros H. inversion H; subst. repeat split; [discriminate|].
    intros _ t. simpl. now rewrite E0.
  - destruct (is_digit c) eqn:Ed; [|discriminate].
    pose proof (span_digits_suffix r) as Hs. pose proof (span_digits_ext r) as He.
    destruct (span_digits r) as [ds r']. simpl in Hs, He.
    intros H. inversion H; subst i rest. split; [simpl; now f_equal|].
    split; [discriminate|]. intros Hne t. simpl. rewrite E0, Ed, (He t Hne). reflexivity.
Qed.

Lemma number_frac_facts (s f rest : jsstring) :
  number_frac s = Some (f, rest) ->
  s = f ++ rest
  /\ (rest <> [] -> forall t, number_frac (s ++ t) = Some (f, rest ++ t)).
Proof.
  unfold number_frac. destruct s as [|c r].
  - intros H. inversion H; subst. split; [reflexivity | tauto].
  - destruct (c =? 46)%N eqn:E.
    + pose proof (span_digits_suffix r) as Hs. pose proof (span_digits_ext r) as He.
      destruct (span_digits r) as [[|d ds] r']; [discriminate|]. simpl in Hs, He.
      intros H. inversion H; subst f rest. split; [simpl; now f_equal|].
      intros Hne t. simpl. rewrite E, (He t Hne). reflexivity.
    + intros H. inversion H; subst. split; [reflexivity|].
      intros _ t. simpl. now rewrite E.
Qed.

Lemma number_exp_facts (s e rest : jsstring) :
  number_exp s = Some (e, rest) ->
  s = e ++ rest
  /\ (rest <> [] -> forall t, number_exp (s ++ t) = Some (e, rest ++ t)).
Proof.
  unfold number_exp. destruct s as [|c r].
  - intros H. inversion H; subst. split; [reflexivity | tauto].
  - destruct ((c =? 101) || (c =? 69))%N eqn:E.
    + destruct r as [|d r0].
      * simpl. discriminate.
      * destruct ((d =? 43) || (d =? 45))%N eqn:Es.
        -- pose proof (span_digits_suffix r0) as Hs. pose proof (span_digits_ext r0) as He.
           destruct (span_digits r0) as [[|x ds] r']; [discriminate|]. simpl in Hs, He.
           intros H. inversion H; subst e rest. split; [simpl; now do 2 f_equal|].
           intros Hne t. simpl. rewrite E, Es, (He t Hne). reflexivity.
        -- pose proof (span_digits_suffix (d :: r0)) as Hs.
           pose proof (span_digits_ext (d :: r0)) as He.
           destruct (span_digits (d :: r0)) as [[|x ds] r']; [discriminate|].
           simpl fst in *; simpl snd in *.
           intros H. inversion H; subst e rest. split; [simpl; rewrite Hs; reflexivity|].
           intros Hne t. cbn [app]. rewrite E, Es.
           change (d :: r0 ++ t) with ((d :: r0) ++ t). rewrite (He t Hne). reflexivity.
    + intros H. inversion H; subst. split; [reflexivity|].
      intros _ t. simpl. now rewrite E.
Qed.

(** A number literal: the lexeme is the non-empty prefix read; when
    something is left unread, it is read the same whatever follows. *)
Lemma parse_number_facts (s lx rest : jsstring) :
  parse_number s = POk lx rest ->
  s = lx ++ rest /\ lx <> []
  /\ (rest <> [] -> forall t, parse_number (s ++ t) = POk lx (rest ++ t)).
Proof.
  unfold parse_number.
  destruct (number_sign s) as [sg s1] eqn:Esg.
  destruct (number_int s1) as [[i s2]|] eqn:Ei; [|discriminate].
  destruct (number_frac s2) as [[f s3]|] eqn:Ef; [|discriminate].
  destruct (number_exp s3) as [[e s4]|] eqn:Ee; [|discriminate].
  intros H. inversion H; subst lx rest.
  destruct (number_int_facts _ Ei) as (Hi & Hine & Hiext).
  destruct (number_frac_facts _ Ef) as (Hf & Hfext).
  destruct (number_exp_facts _ Ee) as (He & Heext).
  assert (Hs : s = sg ++ s1 /\ forall t, s1 <> [] -> number_sign (s ++ t) = (sg, s1 ++ t)).
  { unfold number_sign in Esg. destruct s as [|c r].
    - inversion Esg; subst. split; [reflexivity | tauto].
    - destruct (c =? 45)%N eqn:E; inversion Esg; subst; (split; [reflexivity|]);
        intros t _; simpl; now rewrite E. }
  destruct Hs as [Hs Hsext].
  split; [rewrite Hs, Hi, Hf, He; now rewrite <- !app_assoc|].
  split; [destruct sg; [destruct i; [tauto | discriminate] | discriminate]|].
  intros Hne t.
  assert (Hs3 : s3 <> []) by (rewrite He; destruct e; [assumption | discriminate]).
  assert (Hs2 : s2 <> []) by (rewrite Hf; destruct f; [assumption | discriminate]).
  assert (Hs1 : s1 <> []) by (rewrite Hi; destruct i; [tauto | discriminate]).
  rewrite (Hsext t Hs1), (Hiext Hs2 t), (Hfext Hs3 t), (Heext Hne t). reflexivity.
Qed.

Lemma parse_number_not_fuel (s : jsstring) : parse_number s <> PFuel.
Proof.
  unfold parse_number. destruct (number_sign s) as [sg s1].
  destruct (number_int s1) as [[i s2]|]; [|discriminate].
  destruct (number_frac s2) as [[f s3]|]; [|discriminate].
  destruct (number_exp s3) as [[e s4]|]; discriminate.
Qed.

Lemma startsWith_split (kw s : jsstring) :
  startsWith s kw = true -> s = kw ++ skipn (List.length kw) s.
Proof.
  revert s. induction kw as [|c kw IH]; intros s; simpl; [reflexivity|].
  destruct s as [|d s]; [discriminate|].
  intros H. apply andb_prop in H as [H1 H2]. apply N.eqb_eq in H1. subst d.
  simpl. f_equal. now apply IH.
Qed.

Lemma startsWith_app (kw s t : jsstring) :
  startsWith s kw = true -> startsWith (s ++ t) kw = true.
Proof.
  revert s. induction kw as [|c kw IH]; intros s; [intros _; now destruct (s ++ t)|].
  destruct s as [|d s]; simpl; [discriminate|].
  intros H. apply andb_prop in H as [H1 H2]. rewrite H1. simpl. now apply IH.
Qed.

(** A keyword: read as a prefix, the same whatever follows. *)
Lemma parse_keyword_facts (kw : jsstring) (v v' : value) (s rest : jsstring) :
  parse_keyword kw v s = POk v' rest ->
  v' = v /\ s = kw ++ rest
  /\ forall t, parse_keyword kw v (s ++ t) = POk v (rest ++ t).
Proof.
  unfold parse_keyword. destruct (startsWith s kw) eqn:E; [|discriminate].
  intros H. inversion H; subst v'. pose proof (startsWith_split kw s E) as Hs.
  split; [reflexivity|]. split; [subst rest; exact Hs|].
  intros t. rewrite (startsWith_app _ _ t E). f_equal.
  rewrite Hs at 1. rewrite <- app_assoc.
  rewrite skipn_app, skipn_all, Nat.sub_diag. reflexivity.
Qed.

Ltac list_eq :=
  subst; repeat rewrite <- app_assoc; cbn [app];
  repeat first [ reflexivity | f_equal; [] | progress (repeat rewrite <- app_assoc; cbn [app]) ].

(** What a parsing function reads is a non-empty prefix of its input; an
    object ends with its closing brace, an array with its bracket. *)
Lemma parse_consumes (f : nat) :
  (forall s v rest,
      parse_value f s = POk v rest ->
      exists pre, s = pre ++ rest /\ pre <> []
        /\ (forall o, v = JObject o -> exists pre', pre = pre' ++ [125%N]))
  /\ (forall s acc xs rest,
         parse_elements f s acc = POk xs rest -> exists pre, s = pre ++ 93%N :: rest)
  /\ (forall s acc ms rest,
         parse_members f s acc = POk ms rest -> exists pre, s = pre ++ 125%N :: rest).
Proof.
  induction f as [|f (IHv & IHe & IHm)]; [repeat split; intros; discriminate|].
  split; [|split].
  - intros s v rest H. cbn [parse_value] in H.
    destruct (skip_ws_suffix s) as (ws & Hs & _).
    destruct (skip_ws s) as [|c r]; [discriminate|].
    destruct (c =? 123)%N eqn:E1.
    { apply N.eqb_eq in E1. destruct (skip_ws_suffix r) as (ws2 & Hr & _).
      destruct (skip_ws r) as [|d r']; [discriminate|].
      destruct (d =? 125)%N eqn:E2.
      - apply N.eqb_eq in E2. inversion H; subst v rest.
        exists (ws ++ c :: ws2 ++ [d]). split; [list_eq|]. split; [now destruct ws|].
        intros o _. exists (ws ++ c :: ws2). list_eq.
      - destruct (parse_members f (d :: r') []) as [ms rest'| |] eqn:Em; try discriminate.
        inversion H; subst v rest. apply IHm in Em as (pre & Hpre).
        exists (ws ++ c :: ws2 ++ pre ++ [125%N]).
        split; [rewrite Hs, Hr, Hpre; list_eq|]. split; [now destruct ws|].
        intros o _. exists (ws ++ c :: ws2 ++ pre). list_eq. }
    destruct (c =? 91)%N eqn:E2.
    { destruct (skip_ws_suffix r) as (ws2 & Hr & _).
      destruct (skip_ws r) as [|d r']; [discriminate|].
      destruct (d =? 93)%N eqn:E3.
      - inversion H; subst v rest.
        exists (ws ++ c :: ws2 ++ [d]). split; [list_eq|]. split; [now destruct ws|].
        intros o Ho. discriminate.
      - destruct (parse_elements f (d :: r') []) as [xs rest'| |] eqn:Em; try discriminate.
        inversion H; subst v rest. apply IHe in Em as (pre & Hpre).
        exists (ws ++ c :: ws2 ++ pre ++ [93%N]).
        split; [rewrite Hs, Hr, Hpre; list_eq|]. split; [now destruct ws|].
        intros o Ho. discriminate. }
    destruct (c =? 34)%N eqn:E3.
    { destruct (parse_string_chars r []) as [str rest'| |] eqn:Es; try discriminate.
      inversion H; subst v rest. apply parse_string_chars_suffix in Es as (pre & Hpre & _).
      exists (ws ++ c :: pre). split; [rewrite Hs, Hpre; list_eq|]. split; [now destruct ws|].
      intros o Ho. discriminate. }
    assert (Hkw : forall kw w, kw <> [] -> (forall o, w <> JObject o) ->
                  parse_keyword kw w (c :: r) = POk v rest ->
                  exists pre, s = pre ++ rest /\ pre <> []
                    /\ (forall o, v = JObject o -> exists pre', pre = pre' ++ [125%N])).
    { intros kw w Hkw Hw Hp. apply parse_keyword_facts in Hp as (-> & Hp & _).
      exists (ws ++ kw). split; [rewrite Hs, Hp; list_eq|].
      split; [destruct ws; [now destruct kw | discriminate]|].
      intros o Ho. now apply Hw in Ho. }
    destruct (c =? 110)%N; [apply Hkw in H; [exact H | discriminate | discriminate]|].
    destruct (c =? 116)%N; [apply Hkw in H; [exact H | discriminate | discriminate]|].
    destruct (c =? 102)%N; [apply Hkw in H; [exact H | discriminate | discriminate]|].
    destruct (parse_number (c :: r)) as [lx rest'| |] eqn:En; try discriminate.
    inversion H; subst v rest. apply parse_number_facts in En as (Hn & Hne & _).
    exists (ws ++ lx). split; [rewrite Hs, Hn; list_eq|].
    split; [destruct ws; [now destruct lx | discriminate]|].
    intros o Ho. discriminate.
  - intros s acc xs rest H. cbn [parse_elements] in H.
    destruct (parse_value f s) as [v rest1| |] eqn:Ev; try discriminate.
    apply IHv in Ev as (pre & Hpre & _).
    destruct (skip_ws_suffix rest1) as (ws & Hr & _).
    destruct (skip_ws rest1) as [|c r]; [discriminate|].
    destruct (c =? 44)%N eqn:E1.
    + apply IHe in H as (pre2 & Hpre2). exists (pre ++ ws ++ c :: pre2).
      rewrite Hpre, Hr, Hpre2. list_eq.
    + destruct (c =? 93)%N eqn:E2; [|discriminate]. apply N.eqb_eq in E2.
      inversion H; subst. exists (pre ++ ws). list_eq.
  - intros s acc ms rest H. cbn [parse_members] in H.
    destruct (skip_ws_suffix s) as (ws & Hs & _).
    destruct (skip_ws s) as [|c r]; [discriminate|].
    destruct (c =? 34)%N; [|discriminate].
    destruct (parse_string_chars r []) as [key rest0| |] eqn:Ek; try discriminate.
    apply parse_string_chars_suffix in Ek as (pk & Hpk & _).
    destruct (skip_ws_suffix rest0) as (ws1 & Hr0 & _).
    destruct (skip_ws rest0) as [|d r1]; [discriminate|].
    destruct (d =? 58)%N; [|discriminate].
    destruct (parse_value f r1) as [v rest2| |] eqn:Ev; try discriminate.
    apply IHv in Ev as (pv & Hpv & _).
    destruct (skip_ws_suffix rest2) as (ws2 & Hr2 & _).
    destruct (skip_ws rest2) as [|e r2]; [discriminate|].
    destruct (e =? 44)%N eqn:E1.
    + apply IHm in H as (pre2 & Hpre2).
      exists (ws ++ c :: pk ++ ws1 ++ d :: pv ++ ws2 ++ e :: pre2).
      rewrite Hs, Hpk, Hr0, Hpv, Hr2, Hpre2. list_eq.
    + destruct (e =? 125)%N eqn:E2; [|discriminate]. apply N.eqb_eq in E2.
      inversion H; subst ms rest.
      exists (ws ++ c :: pk ++ ws1 ++ d :: pv ++ ws2).
      rewrite Hs, Hpk, Hr0, Hpv, Hr2, E2. list_eq.
Qed.

(** A result obtained within a budget is the result with a larger one. *)
Lemma parse_fuel_step (f : nat) :
  (forall s, parse_value f s <> PFuel -> parse_value (S f) s = parse_value f s)
  /\ (forall s acc, parse_elements f s acc <> PFuel ->
                    parse_elements (S f) s acc = parse_elements f s acc)
  /\ (forall s acc, parse_members f s acc <> PFuel ->
                    parse_members (S f) s acc = parse_members f s acc).
Proof.
  induction f as [|f (IHv & IHe & IHm)]; [repeat split; intros; cbn in *; tauto|].
  split; [|split].
  - intros s Hne. cbn [parse_value] in *.
    destruct (skip_ws s) as [|c r]; [reflexivity|].
    destruct (c =? 123)%N.
    { destruct (skip_ws r) as [|d r']; [reflexivity|].
      destruct (d =? 125)%N; [reflexivity|].
      rewrite IHm; [reflexivity|]. intros Hc. rewrite Hc in Hne. now apply Hne. }
    destruct (c =? 91)%N.
    { destruct (skip_ws r) as [|d r']; [reflexivity|].
      destruct (d =? 93)%N; [reflexivity|].
      rewrite IHe; [reflexivity|]. intros Hc. rewrite Hc in Hne. now apply Hne. }
    reflexivity.
  - intros s acc Hne. cbn [parse_elements] in *.
    rewrite IHv; [|intros Hc; rewrite Hc in Hne; now apply Hne].
    destruct (parse_value f s) as [v rest| |]; try reflexivity.
    destruct (skip_ws rest) as [|c r]; [reflexivity|].
    destruct (c =? 44)%N; [|reflexivity]. now apply IHe.
  - intros s acc Hne. cbn [parse_members] in *.
    destruct (skip_ws s) as [|c r]; [reflexivity|].
    destruct (c =? 34)%N; [|reflexivity].
    destruct (parse_string_chars r []) as [key rest0| |]; try reflexivity.
    destruct (skip_ws rest0) as [|d r1]; [reflexivity|].
    destruct (d =? 58)%N; [|reflexivity].
    rewrite IHv; [|intros Hc; rewrite Hc in Hne; now apply Hne].
    destruct (parse_value f r1) as [v rest2| |]; try reflexivity.
    destruct (skip_ws rest2) as [|e r2]; [reflexivity|].
    destruct (e =? 44)%N; [|reflexivity]. now apply IHm.
Qed.

Lemma parse_value_fuel_mono (k f : nat) (s : jsstring) :
  parse_value f s <> PFuel -> parse_value (f + k) s = parse_value f s.
Proof.
  intros Hne. induction k as [|k IH]; [now rewrite Nat.add_0_r|].
  rewrite Nat.add_succ_r.
  rewrite (proj1 (parse_fuel_step (f + k))); [exact IH | now rewrite IH].
Qed.

Lemma length_split {A} (s pre rest : list A) :
  s = pre ++ rest -> List.length s = (List.length pre + List.length rest)%nat.
Proof. intros ->. apply length_app. Qed.

(** The budget [JSON_parse] gives is never what stops the parser. *)
Lemma parse_fuel_enough (f : nat) :
  (forall s, (2 * List.length s + 1 <= f)%nat -> parse_value f s <> PFuel)
  /\ (forall s acc, (2 * List.length s + 2 <= f)%nat -> parse_elements f s acc <> PFuel)
  /\ (forall s acc, (2 * List.length s + 2 <= f)%nat -> parse_members f s acc <> PFuel).
Proof.
  induction f as [|f (IHv & IHe & IHm)]; [repeat split; intros; lia|].
  destruct (parse_consumes f) as (Cv & _ & _).
  split; [|split].
  - intros s Hlen. cbn [parse_value].
    destruct (skip_ws_suffix s) as (ws & Hs & _). apply length_split in Hs.
    destruct (skip_ws s) as [|c r]; [discriminate|]. simpl in Hs.
    destruct (c =? 123)%N.
    { pose proof (skip_ws_length r) as Hr.
      destruct (skip_ws r) as [|d r'] eqn:Er; [discriminate|].
      destruct (d =? 125)%N; [discriminate|].
      destruct (parse_members f (d :: r') []) eqn:Em; try discriminate.
      exfalso. revert Em. apply IHm. lia. }
    destruct (c =? 91)%N.
    { pose proof (skip_ws_length r) as Hr.
      destruct (skip_ws r) as [|d r'] eqn:Er; [discriminate|].
      destruct (d =? 93)%N; [discriminate|].
      destruct (parse_elements f (d :: r') []) eqn:Em; try discriminate.
      exfalso. revert Em. apply IHe. lia. }
    destruct (c =? 34)%N.
    { pose proof (parse_string_chars_not_fuel r []) as Hn.
      destruct (parse_string_chars r []); try discriminate. tauto. }
    unfold parse_keyword.
    destruct (c =? 110)%N; [destruct (startsWith _ _); discriminate|].
    destruct (c =? 116)%N; [destruct (startsWith _ _); discriminate|].
    destruct (c =? 102)%N; [destruct (startsWith _ _); discriminate|].
    pose proof (parse_number_not_fuel (c :: r)) as Hn.
    destruct (parse_number (c :: r)); try discriminate. tauto.
  - intros s acc Hlen. cbn [parse_elements].
    destruct (parse_value f s) as [v rest| |] eqn:Ev; try discriminate.
    + apply Cv in Ev as (pre & Hpre & Hne & _). apply length_split in Hpre.
      assert (Hp : (1 <= List.length pre)%nat) by (destruct pre; [tauto | simpl; lia]).
      destruct (skip_ws_suffix rest) as (ws & Hr & _). apply length_split in Hr.
      destruct (skip_ws rest) as [|c r]; [discriminate|]. simpl in Hr.
      destruct (c =? 44)%N; [apply IHe; lia|].
      destruct (c =? 93)%N; discriminate.
    + exfalso. revert Ev. apply IHv. lia.
  - intros s acc Hlen. cbn [parse_members].
    destruct (skip_ws_suffix s) as (ws & Hs & _). apply length_split in Hs.
    destruct (skip_ws s) as [|c r]; [discriminate|]. simpl in Hs.
    destruct (c =? 34)%N; [|discriminate].
    pose proof (parse_string_chars_not_fuel r []) as Hnf.
    destruct (parse_string_chars r []) as [key rest0| |] eqn:Ek; try discriminate; [|tauto].
    apply parse_string_chars_suffix in Ek as (pk & Hpk & _). apply length_split in Hpk.
    destruct (skip_ws_suffix rest0) as (ws1 & Hr0 & _). apply length_split in Hr0.
    destruct (skip_ws rest0) as [|d r1]; [discriminate|]. simpl in Hr0.
    destruct (d =? 58)%N; [|discriminate].
    destruct (parse_value f r1) as [v rest2| |] eqn:Ev; try discriminate.
    + apply Cv in Ev as (pv & Hpv & _). apply length_split in Hpv.
      destruct (skip_ws_suffix rest2) as (ws2 & Hr2 & _). apply length_split in Hr2.
      destruct (skip_ws rest2) as [|e r2]; [discriminate|]. simpl in Hr2.
      destruct (e =? 44)%N; [apply IHm; lia|].
      destruct (e =? 125)%N; discriminate.
    + exfalso. revert Ev. apply IHv. lia.
Qed.

(** [JSON_parse] decides every input: the budget is never exhausted. *)
Lemma JSON_parse_budget (s : jsstring) : parse_value (fuel_for s) s <> PFuel.
Proof. apply (proj1 (parse_fuel_enough (fuel_for s))). unfold fuel_for. lia. Qed.

(** What is read does not depend on what follows it: a value other than a
    number, or any value followed by something, is read the same from a
    longer input. *)
Lemma parse_ext (f : nat) :
  (forall s v rest t,
      parse_value f s = POk v rest ->
      rest <> [] \/ (forall lx, v <> JNumber lx) ->
      parse_value f (s ++ t) = POk v (rest ++ t))
  /\ (forall s acc xs rest t,
         parse_elements f s acc = POk xs rest ->
         parse_elements f (s ++ t) acc = POk xs (rest ++ t))
  /\ (forall s acc ms rest t,
         parse_members f s acc = POk ms rest ->
         parse_members f (s ++ t) acc = POk ms (rest ++ t)).
Proof.
  induction f as [|f (IHv & IHe & IHm)]; [repeat split; intros; discriminate|].
  split; [|split].
  - intros s v rest t H Hd. cbn [parse_value] in H |- *.
    destruct (skip_ws s) as [|c r] eqn:Es; [discriminate|].
    rewrite (skip_ws_ext s t Es).
    destruct (c =? 123)%N.
    { destruct (skip_ws r) as [|d r'] eqn:Er; [discriminate|].
      rewrite (skip_ws_ext r t Er).
      destruct (d =? 125)%N; [now inversion H|].
      destruct (parse_members f (d :: r') []) as [ms rest'| |] eqn:Em; try discriminate.
      inversion H; subst v rest.
      change (d :: r' ++ t) with ((d :: r') ++ t). now rewrite (IHm _ _ _ _ t Em). }
    destruct (c =? 91)%N.
    { destruct (skip_ws r) as [|d r'] eqn:Er; [discriminate|].
      rewrite (skip_ws_ext r t Er).
      destruct (d =? 93)%N; [now inversion H|].
      destruct (parse_elements f (d :: r') []) as [xs rest'| |] eqn:Em; try discriminate.
      inversion H; subst v rest.
      change (d :: r' ++ t) with ((d :: r') ++ t). now rewrite (IHe _ _ _ _ t Em). }
    destruct (c =? 34)%N.
    { destruct (parse_string_chars r []) as [str rest'| |] eqn:Ek; try discriminate.
      inversion H; subst v rest. now rewrite (parse_string_chars_ext _ _ t Ek). }
    change (c :: r ++ t) with ((c :: r) ++ t).
    destruct (c =? 110)%N;
      [apply parse_keyword_facts in H as (-> & _ & Hk); apply Hk|].
    destruct (c =? 116)%N;
      [apply parse_keyword_facts in H as (-> & _ & Hk); apply Hk|].
    destruct (c =? 102)%N;
      [apply parse_keyword_facts in H as (-> & _ & Hk); apply Hk|].
    destruct (parse_number (c :: r)) as [lx rest'| |] eqn:En; try discriminate.
    inversion H; subst v rest. apply parse_number_facts in En as (_ & _ & Hn).
    destruct Hd as [Hd|Hd]; [|now specialize (Hd lx)].
    now rewrite (Hn Hd t).
  - intros s acc xs rest t H. cbn [parse_elements] in H |- *.
    destruct (parse_value f s) as [v rest1| |] eqn:Ev; try discriminate.
    destruct (skip_ws rest1) as [|c r] eqn:Er; [discriminate|].
    rewrite (IHv _ _ _ t Ev); [|left; intros ->; discriminate].
    rewrite (skip_ws_ext rest1 t Er).
    destruct (c =? 44)%N; [now apply IHe|].
    destruct (c =? 93)%N; [now inversion H | discriminate].
  - intros s acc ms rest t H. cbn [parse_members] in H |- *.
    destruct (skip_ws s) as [|c r] eqn:Es; [discriminate|].
    rewrite (skip_ws_ext s t Es).
    destruct (c =? 34)%N; [|discriminate].
    destruct (parse_string_chars r []) as [key rest0| |] eqn:Ek; try discriminate.
    rewrite (parse_string_chars_ext _ _ t Ek).
    destruct (skip_ws rest0) as [|d r1] eqn:Er0; [discriminate|].
    rewrite (skip_ws_ext rest0 t Er0).
    destruct (d =? 58)%N; [|discriminate].
    destruct (parse_value f r1) as [v rest2| |] eqn:Ev; try discriminate.
    destruct (skip_ws rest2) as [|e r2] eqn:Er2; [discriminate|].
    rewrite (IHv _ _ _ t Ev); [|left; intros ->; discriminate].
    rewrite (skip_ws_ext rest2 t Er2).
    destruct (e =? 44)%N; [now apply IHm|].
    destruct (e =? 125)%N; [now inversion H | discriminate].
Qed.

Lemma is_ws_isWhiteSpace (c : char) : is_ws c = true -> isWhiteSpace c = true.
Proof.
  unfold is_ws. rewrite !orb_true_iff, !N.eqb_eq.
  intros [[[->| ->]| ->]| ->]; reflexivity.
Qed.

(** [trimStart] leaves nothing, or a string that starts with a unit that
    is not whitespace. *)
Lemma trimStart_head (s : jsstring) :
  trimStart s = [] \/ exists c r, trimStart s = c :: r /\ isWhiteSpace c = false.
Proof.
  induction s as [|c r IH]; simpl; [now left|].
  destruct (isWhiteSpace c) eqn:E; [exact IH|]. right. now exists c, r.
Qed.

(** [trimEnd] leaves a prefix, without the trailing whitespace. *)
Lemma trimEnd_prefix (u : jsstring) :
  exists ws, u = trimEnd u ++ ws /\ Render.blank ws = true.
Proof.
  unfold trimEnd. destruct (trimStart_suffix (rev u)) as (ws & H & Hws).
  exists (rev ws). split; [|now rewrite blank_rev].
  pose proof (rev_involutive u) as Hu. rewrite H in Hu at 1.
  rewrite rev_app_distr in Hu. now symmetry.
Qed.

Lemma trimEnd_last (u : jsstring) :
  trimEnd u = [] \/ exists p x, trimEnd u = p ++ [x] /\ isWhiteSpace x = false.
Proof.
  unfold trimEnd. destruct (trimStart_head (rev u)) as [->|(x & r & -> & Hx)]; [now left|].
  right. exists (rev r), x. split; [reflexivity | exact Hx].
Qed.

(** A trimmed string is empty, or starts and ends with units that are not
    whitespace; it is the input without leading and trailing whitespace. *)
Lemma trim_shape (s : jsstring) :
  trim s = []
  \/ exists c r p x,
       trim s = c :: r /\ isWhiteSpace c = false
       /\ trim s = p ++ [x] /\ isWhiteSpace x = false.
Proof.
  unfold trim. destruct (trimStart_head s) as [->|(c & r & E & Hc)]; [now left|].
  rewrite E. destruct (trimEnd_prefix (c :: r)) as (ws & Hp & Hws).
  destruct (trimEnd_last (c :: r)) as [H0|(p & x & Hl & Hx)].
  - rewrite H0 in Hp. simpl in Hp. subst ws. simpl in Hws. now rewrite Hc in Hws.
  - right. rewrite Hl in Hp |- *.
    destruct p as [|c' p]; simpl in Hp; injection Hp as Hc' Hr.
    + exists x, [], [], x. auto.
    + exists c', (p ++ [x]), (c' :: p), x. rewrite <- Hc'. auto.
Qed.

(** A prefix of a string that starts with a non-whitespace unit trims to
    a prefix of it. *)
Lemma trim_of_prefix (c : char) (r : jsstring) :
  isWhiteSpace c = false ->
  exists ws, c :: r = trim (c :: r) ++ ws.
Proof.
  intros Hc. unfold trim. simpl trimStart. rewrite Hc.
  destruct (trimEnd_prefix (c :: r)) as (ws & H & _). now exists ws.
Qed.

Lemma startsWith_brace (t : jsstring) :
  startsWith t (lit "{") = true -> exists t', t = 123%N :: t'.
Proof.
  change (lit "{") with [123%N]. destruct t as [|b t']; cbn [startsWith]; [discriminate|].
  intros H. apply andb_prop in H as [H _]. apply N.eqb_eq in H. subst b. now exists t'.
Qed.

(** A text that starts with a brace parses to an object or not at all. *)
Lemma parse_brace_object (f : nat) (r : jsstring) (v : value) (rest : jsstring) :
  parse_value f (123%N :: r) = POk v rest -> exists o, v = JObject o.
Proof.
  destruct f as [|f]; [discriminate|]. cbn [parse_value skip_ws is_ws N.eqb Pos.eqb orb].
  change (123 =? 123)%N with true. cbv iota.
  destruct (skip_ws r) as [|d r']; [discriminate|].
  destruct (d =? 125)%N; [intros H; inversion H; eauto|].
  destruct (parse_members f (d :: r') []); try discriminate.
  intros H; inversion H; eauto.
Qed.

(** A text that parses to an object and does not start with whitespace
    starts with a brace. *)
Lemma parse_object_brace (f : nat) (c : char) (r : jsstring)
    (o : list (jsstring * value)) (rest : jsstring) :
  isWhiteSpace c = false ->
  parse_value f (c :: r) = POk (JObject o) rest -> c = 123%N.
Proof.
  intros Hc. destruct f as [|f]; [discriminate|]. cbn [parse_value skip_ws].
  destruct (is_ws c) eqn:Ew; [apply is_ws_isWhiteSpace in Ew; congruence|].
  destruct (c =? 123)%N eqn:E1; [intros _; now apply N.eqb_eq|].
  destruct (c =? 91)%N.
  { destruct (skip_ws r) as [|d r']; [discriminate|].
    destruct (d =? 93)%N; [discriminate|].
    destruct (parse_elements f (d :: r') []); discriminate. }
  destruct (c =? 34)%N; [destruct (parse_string_chars r []); discriminate|].
  unfold parse_keyword.
  destruct (c =? 110)%N; [destruct (startsWith _ _); discriminate|].
  destruct (c =? 116)%N; [destruct (startsWith _ _); discriminate|].
  destruct (c =? 102)%N; [destruct (startsWith _ _); discriminate|].
  destruct (parse_number (c :: r)); discriminate.
Qed.

Lemma JSON_parse_inv (t : jsstring) (v : value) :
  JSON_parse t = Normal v ->
  exists rest, parse_value (fuel_for t) t = POk v rest /\ forallb is_ws rest = true.
Proof.
  unfold JSON_parse. destruct (parse_value (fuel_for t) t) as [v' rest| |]; try discriminate.
  destruct (skip_ws rest) eqn:E; [|discriminate].
  intros H. inversion H; subst. exists rest. split; [reflexivity | now apply skip_ws_nil].
Qed.

Lemma forallb_last_ws (rest p : jsstring) (x : char) (pre : jsstring) :
  forallb is_ws rest = true -> pre ++ rest = p ++ [x] -> isWhiteSpace x = false ->
  rest = [].
Proof.
  intros Hws Heq Hx. destruct rest as [|a rest] using rev_ind; [reflexivity|].
  clear IHrest. rewrite app_assoc in Heq. apply app_inj_tail in Heq as [_ ->].
  rewrite forallb_app in Hws. apply andb_prop in Hws as [_ Hws]. simpl in Hws.
  rewrite andb_true_r in Hws. apply is_ws_isWhiteSpace in Hws. congruence.
Qed.

(** A trimmed text that parses to an object starts with an opening brace
    and ends with a closing brace. *)
Lemma JSON_object_braces (s : jsstring) (o : list (jsstring * value)) :
  JSON_parse (trim s) = Normal (JObject o) ->
  startsWith (trim s) (lit "{") = true /\ endsWith (trim s) (lit "}") = true.
Proof.
  intros H. apply JSON_parse_inv in H as (rest & Hp & Hws).
  destruct (trim_shape s) as [E|(c & r & p & x & Ec & Hc & Ex & Hx)].
  - rewrite E in Hp. discriminate.
  - destruct (proj1 (parse_consumes (fuel_for (trim s))) _ _ _ Hp)
      as (pre & Hpre & _ & Hobj).
    destruct (Hobj o eq_refl) as (pre' & ->).
    assert (Hrest : rest = []).
    { apply (@forallb_last_ws rest p x (pre' ++ [125%N]) Hws); [congruence | exact Hx]. }
    subst rest. rewrite app_nil_r in Hpre. split.
    + rewrite Ec in Hp |- *. apply (@parse_object_brace _ c r o [] Hc) in Hp. subst c.
      simpl. now destruct r.
    + unfold endsWith. rewrite Hpre, rev_app_distr. simpl.
      now destruct (rev pre').
Qed.

(** No proper prefix of an object text is valid JSON: a text that parses
    to an object and ends with its closing brace has no proper prefix that
    parses after trimming. *)
Lemma JSON_object_prefix_free (s more : jsstring) (o : list (jsstring * value))
    (v : value) :
  more <> [] ->
  trim (s ++ more) = s ++ more ->
  JSON_parse (s ++ more) = Normal (JObject o) ->
  startsWith (trim s) (lit "{") = true ->
  JSON_parse (trim s) = Normal v ->
  False.
Proof.
  intros Hmore Htrim Hfull Hstart Hpre.
  pose proof Hfull as Hfull'. rewrite <- Htrim in Hfull'.
  apply JSON_object_braces in Hfull' as [_ Hend]. rewrite Htrim in Hend.
  (* the prefix is not empty, and so starts as the full text does *)
  destruct s as [|c r]; [simpl in Hstart; discriminate|].
  destruct (trim_shape (c :: r ++ more)) as [E|(c0 & r0 & p & x & Ec & Hc & Ex & Hx)];
    [change (c :: r ++ more) with ((c :: r) ++ more) in E; rewrite Htrim in E; discriminate|].
  change (c :: r ++ more) with ((c :: r) ++ more) in Ec, Ex.
  rewrite Htrim in Ec, Ex. inversion Ec; subst c0 r0.
  destruct (@trim_of_prefix c r Hc) as (ws & Hs).
  set (t := trim (c :: r)) in *.
  assert (Hext : (c :: r) ++ more = t ++ (ws ++ more)) by (rewrite Hs at 1; now rewrite <- app_assoc).
  (* the prefix parses to a delimited value, which the full text then also yields *)
  apply JSON_parse_inv in Hpre as (rest & Hp & Hws).
  assert (Hobj : exists o', v = JObject o').
  { destruct (startsWith_brace _ Hstart) as [t' Et]. rewrite Et in Hp.
    eapply parse_brace_object; eassumption. }
  destruct Hobj as [o' ->].
  apply JSON_parse_inv in Hfull as (rest' & Hp' & Hws').
  assert (Hbig : parse_value (fuel_for ((c :: r) ++ more)) (t ++ (ws ++ more))
                 = POk (JObject o') (rest ++ (ws ++ more))).
  { apply (proj1 (parse_ext _)); [|right; discriminate].
    assert (Hle : (fuel_for t <= fuel_for ((c :: r) ++ more))%nat).
    { unfold fuel_for. rewrite Hext, length_app. lia. }
    replace (fuel_for ((c :: r) ++ more))
      with (fuel_for t + (fuel_for ((c :: r) ++ more) - fuel_for t))%nat by lia.
    rewrite parse_value_fuel_mono; [exact Hp | rewrite Hp; discriminate]. }
  rewrite <- Hext, Hp' in Hbig. inversion Hbig; subst rest'.
  (* so the unread rest, all whitespace, would end with the closing brace *)
  rewrite !forallb_app in Hws'. apply andb_prop in Hws' as [_ Hws'].
  apply andb_prop in Hws' as [_ Hws'].
  destruct more as [|m more] using rev_ind; [tauto|]. clear IHmore.
  rewrite forallb_app in Hws'. apply andb_prop in Hws' as [_ Hm]. simpl in Hm.
  rewrite andb_true_r in Hm.
  unfold endsWith in Hend. rewrite app_assoc, rev_app_distr in Hend.
  change (rev (lit "}")) with [125%N] in Hend. cbn [rev app startsWith] in Hend.
  apply andb_prop in Hend as [Hend _]. apply N.eqb_eq in Hend. subst m. discriminate.
Qed.

End JsonFacts.

(* ================================================================== *)
(** ** Claim on the JSON extractor *)
(* ================================================================== *)

(** C3. For every string, [_tryParseJson] returns and never throws.  It
    returns null when the trimmed input does not both start with an
    opening brace and end with a closing brace, and when [JSON.parse] of
    the trimmed input throws; it returns the parsed object when the trimmed
    input is a valid JSON object; it returns something other than null
    only then.  In particular it returns null for every proper prefix of
    an object text. *)
Theorem C3_tryParseJson_extraction (s : jsstring) :
  (exists r, _tryParseJson (JString s) = Normal r)
  /\ (startsWith (trim s) (lit "{") && endsWith (trim s) (lit "}") = false ->
      _tryParseJson (JString s) = Normal JNull)
  /\ (forall e, JSON_parse (trim s) = Throw e ->
                _tryParseJson (JString s) = Normal JNull)
  /\ (forall o, JSON_parse (trim s) = Normal (JObject o) ->
                _tryParseJson (JString s) = Normal (JObject o))
  /\ (forall v, _tryParseJson (JString s) = Normal v -> v <> JNull ->
                exists o, v = JObject o /\ JSON_parse (trim s) = Normal (JObject o))
  /\ (forall more o,
         more <> [] -> trim (s ++ more) = s ++ more ->
         JSON_parse (s ++ more) = Normal (JObject o) ->
         _tryParseJson (JString s) = Normal JNull).
Proof.
  split; [apply tryParseJson_normal|].
  split.
  { intros H. unfold _tryParseJson.
    apply andb_false_iff in H as [H|H]; rewrite H; simpl; [reflexivity|].
    now rewrite orb_true_r. }
  split.
  { intros e H. unfold _tryParseJson. rewrite H.
    now destruct (negb _ || negb _). }
  split.
  { intros o H. unfold _tryParseJson.
    destruct (@JSON_object_braces s o H) as [H1 H2]. now rewrite H1, H2, H. }
  split.
  { intros v H Hv. unfold _tryParseJson in H.
    destruct (startsWith (trim s) (lit "{")) eqn:H1; simpl in H;
      [|inversion H; congruence].
    destruct (endsWith (trim s) (lit "}")) eqn:H2; simpl in H;
      [|inversion H; congruence].
    destruct (JSON_parse (trim s)) as [w|e] eqn:Hp; [|inversion H; congruence].
    assert (w = v) by congruence. subst w.
    destruct (@JSON_parse_inv _ _ Hp) as (rest & Hpv & _).
    destruct (startsWith_brace _ H1) as [t' Et]. rewrite Et in Hpv.
    destruct (@parse_brace_object _ _ _ _ Hpv) as [o ->]. now exists o. }
  intros more o Hmore Htrim Hfull. unfold _tryParseJson.
  destruct (startsWith (trim s) (lit "{")) eqn:H1; simpl; [|reflexivity].
  destruct (endsWith (trim s) (lit "}")); simpl; [|reflexivity].
  destruct (JSON_parse (trim s)) as [w|e] eqn:Hp; [|reflexivity].
  exfalso. exact (@JSON_object_prefix_free s more o w Hmore Htrim Hfull H1 Hp).
Qed.

Lemma C3_tryParseJson_extraction_witness :
  json "}" <> []
  /\ trim (json "{'title':'A'" ++ json "}") = json "{'title':'A'" ++ json "}"
  /\ JSON_parse (json "{'title':'A'" ++ json "}")
     = Normal (JObject [(lit "title", JString (lit "A"))])
  /\ _tryParseJson (JString (json "{'title':'A'")) = Normal JNull
  /\ JSON_parse (trim (json "{'title':'A'}"))
     = Normal (JObject [(lit "title", JString (lit "A"))])
  /\ _tryParseJson (JString (json "{'title':'A'}"))
     = Normal (JObject [(lit "title", JString (lit "A"))]).
Proof.
  assert (H1 : json "}" <> []) by discriminate.
  assert (H2 : trim (json "{'title':'A'" ++ json "}") = json "{'title':'A'" ++ json "}")
    by (vm_compute; reflexivity).
  assert (H3 : JSON_parse (json "{'title':'A'" ++ json "}")
               = Normal (JObject [(lit "title", JString (lit "A"))]))
    by (vm_compute; reflexivity).
  assert (H4 : JSON_parse (trim (json "{'title':'A'}"))
               = Normal (JObject [(lit "title", JString (lit "A"))]))
    by (vm_compute; reflexivity).
  split; [exact H1|]. split; [exact H2|]. split; [exact H3|]. split.
  - exact (proj2 (proj2 (proj2 (proj2 (proj2
             (C3_tryParseJson_extraction (json "{'title':'A'"))))))
             (json "}") _ H1 H2 H3).
  - split; [exact H4|].
    exact (proj1 (proj2 (proj2 (proj2
             (C3_tryParseJson_extraction (json "{'title':'A'}"))))) _ H4).
Defined.

(* ================================================================== *)
(** ** Further behaviour of the streaming client *)
(* ================================================================== *)

Section ClientFacts.

(** The [try] block on a streamed 2xx response, through the complete
    lines of the decoded body. *)
Lemma fetch_try_streaming (reads : list (list byte)) (term : Terminal) :
  fetch_try (streaming reads term) =
  match consume_lines (fst (complete_lines (decoded reads))) [] [] with
  | Return r c => (c, Some (Normal r))
  | Continue r c =>
      match term with
      | StreamFail f => (c, Some (Throw (rejection f)))
      | StreamDone =>
          (c ++ [if (Js.length r >? 0)%Z then r
                 else trim (snd (complete_lines (decoded reads)))],
           Some (Normal (if (Js.length r >? 0)%Z then r
                         else trim (snd (complete_lines (decoded reads))))))
      end
  end.
Proof.
  unfold streaming, fetch_try, readLoop. cbn [ok body negb chunks terminal].
  rewrite readChunks_fresh.
  destruct (consume_lines _ [] []) as [r c|r c]; [|reflexivity].
  destruct term; reflexivity.
Qed.

Lemma onLine_delta (l r : jsstring) (c : list jsstring) :
  is_sentinel l = false ->
  onLine (trimEnd l) r c = Continue (r ++ delta_of l) (c ++ running r [delta_of l]).
Proof.
  unfold is_sentinel, onLine, delta_of, payload. intros H.
  destruct (startsWith (trimEnd l) (lit "data:")); cbn [negb andb] in *.
  - rewrite H. destruct (JSON_parse _) as [data|e]; cbn [running].
    + destruct (Js.length (_getStreamDeltaContent data) >? 0)%Z eqn:E; [reflexivity|].
      destruct (_getStreamDeltaContent data); [now rewrite !app_nil_r | discriminate].
    + now rewrite !app_nil_r.
  - cbn [running Js.length List.length]. now rewrite !app_nil_r.
Qed.

(** Lines without the sentinel add up: the text grows by the deltas in
    order, with one callback per non-empty delta. *)
Lemma consume_lines_deltas (ls : list jsstring) :
  forall (r : jsstring) (c : list jsstring),
    no_sentinel ls = true ->
    consume_lines ls r c =
    Continue (r ++ List.concat (map delta_of ls)) (c ++ running r (map delta_of ls)).
Proof.
  induction ls as [|l ls IH]; intros r c H; cbn [consume_lines map List.concat running].
  - now rewrite !app_nil_r.
  - unfold no_sentinel in H. cbn [forallb] in H. apply andb_prop in H as [H1 H2].
    apply negb_true_iff in H1. rewrite (onLine_delta l r c H1).
    rewrite (IH _ _ H2). cbn [running].
    destruct (Js.length (delta_of l) >? 0)%Z eqn:E.
    + now rewrite <- !app_assoc.
    + destruct (delta_of l); [|discriminate]. now rewrite !app_nil_r.
Qed.

End ClientFacts.

(** X1. [_getStreamDeltaContent] reads the first choice only and prefers
    the delta: when [choices[0].delta.content] is a string it is the
    result whatever [message] holds; when the delta has no string content
    and [choices[0].message.content] is a string, that is the result; with
    neither the result is empty. *)
Theorem X1_delta_content_preference (data choice0 : value) (others : list value) :
  get data (lit "choices") = Some (JArray (choice0 :: others)) ->
  _getStreamDeltaContent data =
  match content_of (get choice0 (lit "delta")) with
  | Some d => d
  | None =>
      match content_of (get choice0 (lit "message")) with
      | Some m => m
      | None => []
      end
  end.
Proof.
  intros H. unfold _getStreamDeltaContent. rewrite H.
  destruct data as [| | | | |ms]; try discriminate. cbn [typeof_object is_null negb orb].
  destruct choice0 as [| | | | xs |cm]; try reflexivity.
  cbn [typeof_object is_null negb orb get].
  assert (Hm : match get_member cm (lit "message") with
               | Some m =>
                   if typeof_object (get_member cm (lit "message"))
                      && negb (is_null (get_member cm (lit "message")))
                   then if typeof_string (get m (lit "content"))
                        then string_or (get m (lit "content")) [] else []
                   else []
               | None => []
               end
               = match content_of (get_member cm (lit "message")) with
                 | Some m => m
                 | None => []
                 end).
  { unfold content_of. destruct (get_member cm (lit "message")) as [[| | | | |mm]|];
      try reflexivity.
    cbn [typeof_object is_null negb andb get].
    destruct (get_member mm (lit "content")) as [[| | | | |]|]; reflexivity. }
  rewrite Hm.
  destruct (get_member cm (lit "delta")) as [[| | | | |dm]|];
    cbn [content_of typeof_object is_null negb andb get]; try reflexivity.
  destruct (get_member dm (lit "content")) as [[| | | | |]|]; reflexivity.
Qed.

Lemma X1_delta_content_preference_witness :
  get (JObject [(lit "choices",
                 JArray [JObject [(lit "delta", JObject [(lit "content", JString (lit "d"))]);
                                  (lit "message", JObject [(lit "content", JString (lit "m"))])]])])
      (lit "choices")
  = Some (JArray (JObject [(lit "delta", JObject [(lit "content", JString (lit "d"))]);
                           (lit "message", JObject [(lit "content", JString (lit "m"))])]
                  :: []))
  /\ _getStreamDeltaContent
       (JObject [(lit "choices",
                  JArray [JObject [(lit "delta", JObject [(lit "content", JString (lit "d"))]);
                                   (lit "message", JObject [(lit "content", JString (lit "m"))])]])])
     = lit "d".
Proof.
  assert (H : get (JObject [(lit "choices",
                 JArray [JObject [(lit "delta", JObject [(lit "content", JString (lit "d"))]);
                                  (lit "message", JObject [(lit "content", JString (lit "m"))])]])])
                (lit "choices")
              = Some (JArray (JObject [(lit "delta", JObject [(lit "content", JString (lit "d"))]);
                           (lit "message", JObject [(lit "content", JString (lit "m"))])]
                  :: []))) by (vm_compute; reflexivity).
  split; [exact H|].
  exact (X1_delta_content_preference _ H).
Defined.

(** X2. When the stream ends without a sentinel, the client makes one
    more [onText] call and returns its argument: the text accumulated from
    the deltas of the complete lines if there is any, otherwise the
    trimmed unterminated tail of the body.  An unterminated last line is
    never handled as a data line.  When the stream fails instead, the
    call fails after the same partial callbacks. *)
Theorem X2_stream_end_without_sentinel
    (url : jsstring) (key model : option value) (prompt : jsstring)
    (reads : list (list byte)) (ls : list jsstring) (tail : jsstring) :
  complete_lines (decoded reads) = (ls, tail) ->
  no_sentinel ls = true ->
  (_fetchCompletionStreaming url key model prompt (streaming reads StreamDone) =
   {| run_request := build_request url key model prompt;
      run_onText :=
        running [] (map delta_of ls)
        ++ [if (Js.length (List.concat (map delta_of ls)) >? 0)%Z
            then List.concat (map delta_of ls) else trim tail];
      run_result :=
        Some (Normal (if (Js.length (List.concat (map delta_of ls)) >? 0)%Z
                      then List.concat (map delta_of ls) else trim tail));
      run_timerCleared := true |})
  /\ (forall f,
        _fetchCompletionStreaming url key model prompt (streaming reads (StreamFail f)) =
        {| run_request := build_request url key model prompt;
           run_onText := running [] (map delta_of ls);
           run_result := Some (fetch_catch (rejection f));
           run_timerCleared := true |}).
Proof.
  intros Hl Hn. unfold _fetchCompletionStreaming.
  split; [|intros f]; rewrite fetch_try_streaming, Hl; cbn [fst snd];
    rewrite (consume_lines_deltas ls [] [] Hn); reflexivity.
Qed.

Lemma X2_stream_end_without_sentinel_witness :
  complete_lines (decoded [stream_a_b_unterminated]) =
    ([json "data: {'choices':[{'delta':{'content':'a'}}]}"],
     json "data: {'choices':[{'delta':{'content':'b'}}]}")
  /\ no_sentinel [json "data: {'choices':[{'delta':{'content':'a'}}]}"] = true
  /\ run_result (_fetchCompletionStreaming [] None None []
                   (streaming [stream_a_b_unterminated] StreamDone))
     = Some (Normal (lit "a"))
  /\ complete_lines (decoded [stream_plain]) = ([], lit "  plain answer ")
  /\ run_result (_fetchCompletionStreaming [] None None []
                   (streaming [stream_plain] StreamDone))
     = Some (Normal (lit "plain answer")).
Proof.
  assert (H1 : complete_lines (decoded [stream_a_b_unterminated]) =
               ([json "data: {'choices':[{'delta':{'content':'a'}}]}"],
                json "data: {'choices':[{'delta':{'content':'b'}}]}"))
    by (vm_compute; reflexivity).
  assert (H2 : no_sentinel [json "data: {'choices':[{'delta':{'content':'a'}}]}"] = true)
    by (vm_compute; reflexivity).
  assert (H3 : complete_lines (decoded [stream_plain]) = ([], lit "  plain answer "))
    by (vm_compute; reflexivity).
  split; [exact H1|]. split; [exact H2|]. split.
  - pose proof (proj1 (@X2_stream_end_without_sentinel [] None None []
                         [stream_a_b_unterminated] _ _ H1 H2)) as H.
    rewrite H. vm_compute. reflexivity.
  - split; [exact H3|].
    pose proof (proj1 (@X2_stream_end_without_sentinel [] None None []
                         [stream_plain] _ _ H3 eq_refl)) as H.
    rewrite H. vm_compute. reflexivity.
Defined.

(** X3. Up to the sentinel the client adds up deltas: when the complete
    lines before the first sentinel carry the deltas d1 .. dn, the client
    returns their concatenation, after one [onText] call per non-empty
    delta with the running total and one last call with the whole. *)
Theorem X3_text_is_concatenation_of_deltas
    (url : jsstring) (key model : option value) (prompt : jsstring)
    (reads : list (list byte)) (term : Terminal)
    (before after : list jsstring) (sentinel tail : jsstring) :
  complete_lines (decoded reads) = (before ++ sentinel :: after, tail) ->
  is_sentinel sentinel = true ->
  no_sentinel before = true ->
  _fetchCompletionStreaming url key model prompt (streaming reads term) =
  {| run_request := build_request url key model prompt;
     run_onText :=
       running [] (map delta_of before) ++ [List.concat (map delta_of before)];
     run_result := Some (Normal (List.concat (map delta_of before)));
     run_timerCleared := true |}.
Proof.
  intros Hl Hs Hn. unfold _fetchCompletionStreaming.
  rewrite fetch_try_streaming, Hl. cbn [fst snd].
  rewrite (consume_lines_sentinel before after sentinel Hs
             (consume_lines_deltas before [] [] Hn)).
  reflexivity.
Qed.

Lemma X3_text_is_concatenation_of_deltas_witness :
  complete_lines (decoded [stream_a_bad_b ++ stream_done_only]) =
    ([json "data: {'choices':[{'delta':{'content':'a'}}]}";
      json "data: not-json";
      json "data: {'choices':[{'delta':{'content':'b'}}]}"]
       ++ json "data: [DONE]" :: [], [])
  /\ is_sentinel (json "data: [DONE]") = true
  /\ no_sentinel [json "data: {'choices':[{'delta':{'content':'a'}}]}";
                  json "data: not-json";
                  json "data: {'choices':[{'delta':{'content':'b'}}]}"] = true
  /\ run_onText (_fetchCompletionStreaming [] None None []
                   (streaming [stream_a_bad_b ++ stream_done_only] StreamDone))
     = [lit "a"; lit "ab"; lit "ab"].
Proof.
  assert (H1 : complete_lines (decoded [stream_a_bad_b ++ stream_done_only]) =
               ([json "data: {'choices':[{'delta':{'content':'a'}}]}";
                 json "data: not-json";
                 json "data: {'choices':[{'delta':{'content':'b'}}]}"]
                  ++ json "data: [DONE]" :: [], [])) by (vm_compute; reflexivity).
  assert (H2 : is_sentinel (json "data: [DONE]") = true) by (vm_compute; reflexivity).
  assert (H3 : no_sentinel [json "data: {'choices':[{'delta':{'content':'a'}}]}";
                            json "data: not-json";
                            json "data: {'choices':[{'delta':{'content':'b'}}]}"] = true)
    by (vm_compute; reflexivity).
  split; [exact H1|]. split; [exact H2|]. split; [exact H3|].
  rewrite (@X3_text_is_concatenation_of_deltas [] None None []
             [stream_a_bad_b ++ stream_done_only] StreamDone _ _ _ _ H1 H2 H3).
  vm_compute. reflexivity.
Defined.

(** X4. A non-2xx response makes the call fail with an Error whose
    message carries the status code and the first 500 units of the body
    text, without any [onText] call and without reading the body
    stream. *)
Theorem X4_http_error_excerpt
    (url : jsstring) (key model : option value) (prompt : jsstring)
    (st : N) (t : jsstring) (b : option Body) :
  _fetchCompletionStreaming url key model prompt (http_error st t b) =
  {| run_request := build_request url key model prompt;
     run_onText := [];
     run_result :=
       Some (Throw (JsError (lit "AI request failed (" ++ decimal st ++ lit "): "
                               ++ firstn 500 t)));
     run_timerCleared := true |}.
Proof.
  unfold _fetchCompletionStreaming, http_error, fetch_try. cbn [ok negb text fst snd].
  change 500%Z with (Z.of_nat 500). rewrite slice_excerpt. reflexivity.
Qed.

(* ================================================================== *)
(** ** Whitespace around lines, payloads and JSON text *)
(* ================================================================== *)

Section WhitespaceFacts.

Lemma trimStart_blank_app (a x : jsstring) :
  Render.blank a = true -> trimStart (a ++ x) = trimStart x.
Proof.
  unfold Render.blank. induction a as [|c a IH]; cbn [forallb app trimStart]; [reflexivity|].
  intros H. apply andb_prop in H as [H1 H2]. rewrite H1. now apply IH.
Qed.

Lemma trimStart_app_keep (s b : jsstring) :
  trimStart s <> [] -> trimStart (s ++ b) = trimStart s ++ b.
Proof.
  induction s as [|c s IH]; cbn [trimStart app]; [tauto|].
  destruct (isWhiteSpace c); [exact IH | reflexivity].
Qed.

Lemma trimEnd_app_blank (u b : jsstring) :
  Render.blank b = true -> trimEnd (u ++ b) = trimEnd u.
Proof.
  intros H. unfold trimEnd. rewrite rev_app_distr.
  rewrite trimStart_blank_app by (now rewrite blank_rev). reflexivity.
Qed.

Lemma trimStart_fixed (c : char) (r : jsstring) :
  isWhiteSpace c = false -> trimStart (c :: r) = c :: r.
Proof. intros H. cbn [trimStart]. now rewrite H. Qed.

Lemma trimEnd_fixed (p : jsstring) (x : char) :
  isWhiteSpace x = false -> trimEnd (p ++ [x]) = p ++ [x].
Proof.
  intros H. unfold trimEnd. rewrite rev_app_distr. cbn [rev app].
  rewrite trimStart_fixed by assumption. cbn [rev]. now rewrite rev_involutive.
Qed.

(** Trimming twice is trimming once. *)
Lemma trim_idem (s : jsstring) : trim (trim s) = trim s.
Proof.
  destruct (trim_shape s) as [E|(c & r & p & x & Ec & Hc & Ex & Hx)].
  - rewrite E. reflexivity.
  - unfold trim at 1. rewrite Ec at 1. rewrite trimStart_fixed by assumption.
    rewrite <- Ec, Ex. now apply trimEnd_fixed.
Qed.

(** Whitespace before and after a text does not change what it trims to. *)
Lemma trim_pad (a s b : jsstring) :
  Render.blank a = true -> Render.blank b = true -> trim (a ++ s ++ b) = trim s.
Proof.
  intros Ha Hb. unfold trim. rewrite trimStart_blank_app by assumption.
  destruct (trimStart s) as [|c r] eqn:E.
  - apply trimStart_nil_blank in E.
    rewrite (proj2 (trimStart_nil_blank (s ++ b))); [reflexivity|].
    now rewrite blank_app, E, Hb.
  - rewrite trimStart_app_keep by (rewrite E; discriminate).
    rewrite E. now apply trimEnd_app_blank.
Qed.

Lemma startsWith_prefix (p y : jsstring) : startsWith (p ++ y) p = true.
Proof.
  induction p as [|c p IH]; cbn [app]; [now destruct y|].
  cbn [startsWith]. now rewrite N.eqb_refl.
Qed.

Lemma sliceFrom_prefix (p y : jsstring) :
  sliceFrom (p ++ y) (Z.of_nat (List.length p)) = y.
Proof.
  unfold sliceFrom, slice, clampIndex. rewrite length_app.
  destruct (Z.of_nat (List.length p) <? 0)%Z eqn:E; [apply Z.ltb_lt in E; lia|].
  destruct (Z.of_nat (List.length p + List.length y) <? 0)%Z eqn:E2;
    [apply Z.ltb_lt in E2; lia|].
  rewrite !Z.min_l by lia. rewrite Nat2Z.id.
  rewrite skipn_app, skipn_all, Nat.sub_diag. cbn [skipn app].
  apply firstn_all2. lia.
Qed.

Lemma consume_lines_trailing_ws (ws : jsstring) (ls : list jsstring) :
  Render.blank ws = true ->
  forall r c, consume_lines (map (fun l => l ++ ws) ls) r c = consume_lines ls r c.
Proof.
  intros Hws. induction ls as [|l ls' IH]; intros r c; cbn [map consume_lines];
    [reflexivity|].
  rewrite trimEnd_app_blank by assumption.
  destruct (onLine (trimEnd l) r c); [apply IH | reflexivity].
Qed.

End WhitespaceFacts.

(** X5. Whitespace at the end of a line, such as the carriage return of a
    CRLF-delimited stream, does not change how the line is handled: the
    client's run on a body whose complete lines each end in such
    whitespace is its run on the body with the bare lines. *)
Theorem X5_trailing_whitespace_on_lines
    (url : jsstring) (key model : option value) (prompt : jsstring)
    (reads reads' : list (list byte)) (term : Terminal)
    (ls : list jsstring) (ws tail : jsstring) :
  Render.blank ws = true ->
  complete_lines (decoded reads) = (map (fun l => l ++ ws) ls, tail) ->
  complete_lines (decoded reads') = (ls, tail) ->
  _fetchCompletionStreaming url key model prompt (streaming reads term) =
  _fetchCompletionStreaming url key model prompt (streaming reads' term).
Proof.
  intros Hws Hl Hl'. unfold _fetchCompletionStreaming.
  rewrite !fetch_try_streaming, Hl, Hl'. cbn [fst snd].
  now rewrite (consume_lines_trailing_ws ws ls Hws).
Qed.

Lemma X5_trailing_whitespace_on_lines_witness :
  Render.blank [13%N] = true
  /\ complete_lines (decoded [stream_a_b_crlf]) =
       (map (fun l => l ++ [13%N])
          [json "data: {'choices':[{'delta':{'content':'a'}}]}";
           json "data: {'choices':[{'delta':{'content':'b'}}]}"], [])
  /\ complete_lines (decoded [stream_a_b]) =
       ([json "data: {'choices':[{'delta':{'content':'a'}}]}";
         json "data: {'choices':[{'delta':{'content':'b'}}]}"], [])
  /\ _fetchCompletionStreaming [] None None [] (streaming [stream_a_b_crlf] StreamDone) =
     _fetchCompletionStreaming [] None None [] (streaming [stream_a_b] StreamDone).
Proof.
  assert (H1 : Render.blank [13%N] = true) by reflexivity.
  assert (H2 : complete_lines (decoded [stream_a_b_crlf]) =
               (map (fun l => l ++ [13%N])
                  [json "data: {'choices':[{'delta':{'content':'a'}}]}";
                   json "data: {'choices':[{'delta':{'content':'b'}}]}"], []))
    by (vm_compute; reflexivity).
  assert (H3 : complete_lines (decoded [stream_a_b]) =
               ([json "data: {'choices':[{'delta':{'content':'a'}}]}";
                 json "data: {'choices':[{'delta':{'content':'b'}}]}"], []))
    by (vm_compute; reflexivity).
  split; [exact H1|]. split; [exact H2|]. split; [exact H3|].
  exact (@X5_trailing_whitespace_on_lines [] None None [] _ _ StreamDone _ _ _ H1 H2 H3).
Defined.

(** X6. The sentinel is recognised with any whitespace between [data:]
    and [[DONE]] and after it; a line that begins with whitespace is not
    a data line: it is neither the sentinel nor a source of text. *)
Theorem X6_sentinel_and_indentation (a b : jsstring) (c : char) (r : jsstring) :
  Render.blank a = true -> Render.blank b = true -> isWhiteSpace c = true ->
  is_sentinel (lit "data:" ++ a ++ lit "[DONE]" ++ b) = true
  /\ is_sentinel (c :: r) = false
  /\ delta_of (c :: r) = [].
Proof.
  intros Ha Hb Hc. split.
  - unfold is_sentinel, payload.
    assert (Ht : trimEnd (lit "data:" ++ a ++ lit "[DONE]" ++ b)
                 = lit "data:" ++ a ++ lit "[DONE]").
    { replace (lit "data:" ++ a ++ lit "[DONE]" ++ b)
        with ((lit "data:" ++ a ++ lit "[DONE]") ++ b) by (now rewrite <- !app_assoc).
      rewrite trimEnd_app_blank by assumption.
      replace (lit "data:" ++ a ++ lit "[DONE]")
        with ((lit "data:" ++ a ++ lit "[DONE") ++ [93%N])
        by (rewrite <- !app_assoc; reflexivity).
      now apply trimEnd_fixed. }
    rewrite Ht, startsWith_prefix. cbn [andb].
    change 5%Z with (Z.of_nat (List.length (lit "data:"))).
    rewrite sliceFrom_prefix.
    rewrite <- (app_nil_r (lit "[DONE]")), trim_pad by (assumption || reflexivity).
    reflexivity.
  - assert (Hs : startsWith (trimEnd (c :: r)) (lit "data:") = false).
    { destruct (trimEnd_prefix (c :: r)) as (ws & Hp & _).
      destruct (trimEnd (c :: r)) as [|c' t]; [reflexivity|].
      cbn [app] in Hp. injection Hp as Hc' _. subst c'.
      change (lit "data:") with (100%N :: lit "ata:"). cbn [startsWith].
      destruct (100 =? c)%N eqn:E; [|reflexivity].
      apply N.eqb_eq in E. subst c. discriminate. }
    unfold is_sentinel, delta_of. now rewrite Hs.
Qed.

Lemma X6_sentinel_and_indentation_witness :
  Render.blank (lit "  ") = true /\ Render.blank [13%N] = true
  /\ isWhiteSpace 32%N = true
  /\ is_sentinel (lit "data:" ++ lit "  " ++ lit "[DONE]" ++ [13%N]) = true
  /\ is_sentinel (32%N :: lit "data: [DONE]") = false
  /\ delta_of (32%N :: lit "data: [DONE]") = [].
Proof.
  split; [reflexivity|]. split; [reflexivity|]. split; [reflexivity|].
  exact (@X6_sentinel_and_indentation (lit "  ") [13%N] 32%N (lit "data: [DONE]")
           eq_refl eq_refl eq_refl).
Defined.

(** X7. [_tryParseJson] does not depend on whitespace around the text:
    padding the input with leading and trailing whitespace gives the same
    result. *)
Theorem X7_tryParseJson_ignores_padding (a s b : jsstring) :
  Render.blank a = true -> Render.blank b = true ->
  _tryParseJson (JString (a ++ s ++ b)) = _tryParseJson (JString s).
Proof.
  intros Ha Hb. unfold _tryParseJson. now rewrite trim_pad.
Qed.

Lemma X7_tryParseJson_ignores_padding_witness :
  Render.blank [10%N; 32%N] = true /\ Render.blank [10%N] = true
  /\ _tryParseJson (JString ([10%N; 32%N] ++ json "{'title':'A'}" ++ [10%N]))
     = _tryParseJson (JString (json "{'title':'A'}")).
Proof.
  split; [reflexivity|]. split; [reflexivity|].
  exact (@X7_tryParseJson_ignores_padding [10%N; 32%N] (json "{'title':'A'}") [10%N]
           eq_refl eq_refl).
Defined.

(** X8. [_buildPrompt] ends with the word and the context, verbatim, on
    their two lines, after a head that depends on the style only; a style
    that is not a string, or is blank, gives the prompt without a style
    block, and whitespace around the style text is dropped. *)
Theorem X8_prompt_shape (style : option value) :
  (exists head, forall word context,
      _buildPrompt style word context =
      head ++ lit "word: " ++ word ++ nl ++ lit "context: " ++ context ++ nl)
  /\ (forall word context,
        (forall s, style = Some (JString s) -> Render.blank s = true) ->
        _buildPrompt style word context = _buildPrompt None word context)
  /\ (forall a s b word context,
        style = Some (JString s) -> Render.blank a = true -> Render.blank b = true ->
        _buildPrompt (Some (JString (a ++ s ++ b))) word context =
        _buildPrompt style word context).
Proof.
  split; [|split].
  - eexists. intros word context. unfold _buildPrompt.
    repeat rewrite app_assoc. reflexivity.
  - intros word context H. unfold _buildPrompt.
    destruct style as [[| | |s| |]|]; try reflexivity.
    cbn [typeof_string string_or].
    specialize (H s eq_refl). rewrite <- trim_empty_blank in H.
    destruct (trim s); [reflexivity | discriminate].
  - intros a s b word context -> Ha Hb. unfold _buildPrompt.
    cbn [typeof_string string_or]. now rewrite trim_pad.
Qed.

Lemma X8_prompt_shape_witness :
  (forall s, Some (JString (lit "  ")) = Some (JString s) -> Render.blank s = true)
  /\ _buildPrompt (Some (JString (lit "  "))) (lit "neko") (lit "neko da")
     = _buildPrompt None (lit "neko") (lit "neko da")
  /\ Render.blank [32%N] = true
  /\ _buildPrompt (Some (JString ([32%N] ++ lit "short" ++ [32%N]))) (lit "neko") (lit "neko da")
     = _buildPrompt (Some (JString (lit "short"))) (lit "neko") (lit "neko da").
Proof.
  assert (H : forall s, Some (JString (lit "  ")) = Some (JString s) -> Render.blank s = true).
  { intros s E. injection E as <-. reflexivity. }
  split; [exact H|]. split.
  - exact (proj1 (proj2 (X8_prompt_shape (Some (JString (lit "  ")))))
             (lit "neko") (lit "neko da") H).
  - split; [reflexivity|].
    exact (proj2 (proj2 (X8_prompt_shape (Some (JString (lit "short")))))
             [32%N] (lit "short") [32%N] (lit "neko") (lit "neko da")
             eq_refl eq_refl eq_refl).
Defined.

(* ================================================================== *)
(** ** Frames of the handlers *)
(* ================================================================== *)

Section HandlerFacts.

Lemma requests_app (a b : list Effect) : requests (a ++ b) = requests a ++ requests b.
Proof. unfold requests. apply flat_map_app. Qed.

Lemma frames_ret {A} (a : A) : frames (ret a).
Proof. intros st. now exists a, st, []. Qed.

Lemma frames_read {A} (f : DisplayAi.t -> A) : frames (read f).
Proof. intros st. now exists (f st), st, []. Qed.

Lemma frames_log (e : exn) : frames (effect (ELogError e)).
Proof. intros st. now exists tt, st, [ELogError e]. Qed.

Lemma frames_getSettings : frames (effect EGetSettings).
Proof. intros st. now exists tt, st, [EGetSettings]. Qed.

Lemma frames_bind {A B} (m : M A) (k : A -> M B) :
  frames m -> (forall a, frames (k a)) -> frames (bind m k).
Proof.
  intros Hm Hk st. destruct (Hm st) as (a & st1 & l1 & E1 & I1 & S1 & P1 & R1).
  destruct (Hk a st1) as (b & st2 & l2 & E2 & I2 & S2 & P2 & R2).
  exists b, st2, (l1 ++ l2). unfold bind. rewrite E1, E2, requests_app, R1, R2.
  repeat split; congruence.
Qed.

Lemma frames_write_content c : frames (write_content c).
Proof. intros st. now eexists _, _, _. Qed.

Lemma frames_setVisible b : frames (_setVisible b).
Proof. intros st. unfold _setVisible. destruct (_root st); now eexists _, _, _. Qed.

Lemma frames_setButtonVisible b : frames (_setButtonVisible b).
Proof. intros st. unfold _setButtonVisible. destruct (_button st); now eexists _, _, _. Qed.

Lemma frames_setStatusText s : frames (_setStatusText s).
Proof. intros st. unfold _setStatusText. destruct (_status st); now eexists _, _, _. Qed.

Lemma frames_setContentText s : frames (_setContentText s).
Proof.
  intros st. unfold _setContentText. destruct (_content st); now eexists _, _, _.
Qed.

Lemma frames_appendChild n : frames (content_appendChild n).
Proof.
  intros st. unfold content_appendChild. destruct (_content st); now eexists _, _, _.
Qed.

Lemma frames_addSection l b : frames (addSection l b).
Proof.
  unfold addSection. destruct (Js.length (trim b) =? 0)%Z;
    [apply frames_ret | apply frames_appendChild].
Qed.

Lemma frames_setContentRendered v : frames (_setContentRendered v).
Proof.
  unfold _setContentRendered. apply frames_bind; [apply frames_read|].
  intros [c|]; [|apply frames_ret].
  apply frames_bind; [apply frames_write_content|]. intros _.
  destruct (negb (typeof_object (Some v)) || is_null (Some v));
    [apply frames_write_content|].
  repeat (apply frames_bind; [first [apply frames_appendChild | apply frames_addSection]|intros _]).
  destruct (Z.of_nat _ >? 0)%Z; [apply frames_appendChild | apply frames_ret].
Qed.

Lemma frames_lift_tryParseJson v : frames (lift (_tryParseJson v)).
Proof.
  intros st. destruct (tryParseJson_normal v) as [r Hr].
  exists r, st, []. unfold lift. now rewrite Hr.
Qed.

Lemma yields_ret (Q : list Pending -> DisplayAi.t -> list Request -> Prop) sp st :
  Q sp st [] -> yields Q (ret sp) st.
Proof. intros H. now exists sp, st, []. Qed.

Lemma yields_bind {A} (Q : list Pending -> DisplayAi.t -> list Request -> Prop)
    (m : M A) (k : A -> M (list Pending)) st :
  frames m ->
  (forall a st1, same_frame st st1 -> yields Q (k a) st1) ->
  yields Q (bind m k) st.
Proof.
  intros Hm Hk. destruct (Hm st) as (a & st1 & l1 & E1 & I1 & S1 & P1 & R1).
  destruct (Hk a st1 (conj I1 (conj S1 P1))) as (sp & st2 & l2 & E2 & HQ).
  exists sp, st2, (l1 ++ l2). unfold bind. rewrite E1, E2, requests_app, R1.
  split; [reflexivity | exact HQ].
Qed.

Lemma yields_read {A} (Q : list Pending -> DisplayAi.t -> list Request -> Prop)
    (f : DisplayAi.t -> A) (k : A -> M (list Pending)) st :
  yields Q (k (f st)) st -> yields Q (bind (read f) k) st.
Proof.
  intros (sp & st2 & l2 & E2 & HQ). exists sp, st2, l2.
  unfold bind, read. now rewrite E2.
Qed.

Lemma yields_try_catch (Q : list Pending -> DisplayAi.t -> list Request -> Prop)
    body handler st :
  yields Q body st -> yields Q (try_catch body handler) st.
Proof.
  intros (sp & st2 & l2 & E2 & HQ). exists sp, st2, l2.
  unfold try_catch. now rewrite E2.
Qed.

Lemma yields_weaken (Q Q' : list Pending -> DisplayAi.t -> list Request -> Prop) m st :
  (forall sp st' reqs, Q sp st' reqs -> Q' sp st' reqs) -> yields Q m st -> yields Q' m st.
Proof. intros HQ (sp & st' & log & E & H). exists sp, st', log. auto. Qed.

Lemma same_frame_refl st : same_frame st st.
Proof. now repeat split. Qed.

Lemma same_frame_trans a b c : same_frame a b -> same_frame b c -> same_frame a c.
Proof. intros (I1 & S1 & P1) (I2 & S2 & P2). repeat split; congruence. Qed.

Ltac frame_steps :=
  repeat first
    [ apply yields_ret
    | apply yields_bind;
      [ first [ apply frames_setVisible | apply frames_setButtonVisible
              | apply frames_setStatusText | apply frames_setContentText
              | apply frames_setContentRendered | apply frames_log
              | apply frames_getSettings | apply frames_lift_tryParseJson ]
      | let a := fresh "a" in let st1 := fresh "st" in let F := fresh "F" in
        intros a st1 F ] ].

Ltac frame_done :=
  unfold quiet_frame, same_frame in *; intuition congruence.

Lemma requestExplain_catch_frame r e st :
  yields (quiet_frame st) (_requestExplain_catch r e) st.
Proof.
  unfold _requestExplain_catch. apply yields_read.
  destruct (negb (r =? _requestId st)%Z); frame_steps; frame_done.
Qed.

Lemma frames_silent {A} (m : M A) : frames m -> silent m.
Proof. intros H st. destruct (H st) as (a & st' & log & E & _ & _ & _ & R). eauto. Qed.

Lemma silent_write_requestId v : silent (write_requestId v).
Proof. intros st. now eexists _, _, _. Qed.

Lemma silent_write_pendingInput v : silent (write_pendingInput v).
Proof. intros st. now eexists _, _, _. Qed.

Lemma silent_write_settings v : silent (write_settings v).
Proof. intros st. now eexists _, _, _. Qed.

Lemma yields_bind_silent {A} (Q : list Pending -> DisplayAi.t -> list Request -> Prop)
    (m : M A) (k : A -> M (list Pending)) st :
  silent m -> (forall a st1, yields Q (k a) st1) -> yields Q (bind m k) st.
Proof.
  intros Hm Hk. destruct (Hm st) as (a & st1 & l1 & E1 & R1).
  destruct (Hk a st1) as (sp & st2 & l2 & E2 & HQ).
  exists sp, st2, (l1 ++ l2). unfold bind. rewrite E1, E2, requests_app, R1.
  split; [reflexivity | exact HQ].
Qed.

Ltac silent_steps :=
  repeat first
    [ apply yields_ret
    | apply yields_bind_silent;
      [ first [ apply silent_write_requestId | apply silent_write_pendingInput
              | apply silent_write_settings
              | apply frames_silent;
                first [ apply frames_read
                      | apply frames_setVisible | apply frames_setButtonVisible
                      | apply frames_setStatusText | apply frames_setContentText
                      | apply frames_setContentRendered | apply frames_log
                      | apply frames_getSettings | apply frames_lift_tryParseJson ] ]
      | let a := fresh "a" in let st1 := fresh "st" in intros a st1 ] ].

(** A handler that starts by taking a new token. *)
Lemma yields_new_token (Q : list Pending -> DisplayAi.t -> list Request -> Prop)
    (k : M (list Pending)) st :
  (forall st1,
      _requestId st1 = plus_one (_requestId st) ->
      _settings st1 = _settings st ->
      _pendingInput st1 = _pendingInput st ->
      yields Q k st1) ->
  yields Q (r <- read _requestId ;; write_requestId (plus_one r) ;; k) st.
Proof.
  intros Hk. unfold yields, bind, read, write_requestId.
  match goal with
  | |- context [k ?s] =>
      destruct (Hk s eq_refl eq_refl eq_refl) as (sp & st2 & l2 & E2 & HQ)
  end.
  rewrite E2. eexists sp, st2, _. split; [reflexivity | exact HQ].
Qed.

(** [_requestExplain] from the settings on. *)
Lemma requestExplain_settings_spec r w c settings st :
  yields (explain_outcome st r settings w c) (_requestExplain_settings r w c settings) st.
Proof.
  unfold yields, explain_outcome, explain_request, configured_url,
    _requestExplain_settings, try_catch, bind, read, throw, effect, ret.
  destruct (r =? _requestId st)%Z eqn:E; cbn [negb andb].
  - destruct (Js.length _ =? 0)%Z; cbn [negb].
    + destruct (requestExplain_catch_frame r (JsError (lit "AI API URL not configured")) st)
        as (sp & st2 & l2 & E2 & -> & R2 & F2).
      rewrite E2. exists [], st2, l2. cbn [app]. auto.
    + eexists _, st, _. split; [reflexivity|]. cbn. auto using same_frame_refl.
  - exists [], st, []. cbn. auto using same_frame_refl.
Qed.

(** [_requestExplain]: a new token, then the outcome above under the
    cached settings, or a settings fetch when none are cached. *)
Lemma requestExplain_spec w c st :
  yields (fun sp st' reqs =>
            _requestId st' = plus_one (_requestId st)
            /\ _settings st' = _settings st
            /\ _pendingInput st' = _pendingInput st
            /\ match _settings st with
               | Some settings =>
                   if negb (Js.length (configured_url settings) =? 0)%Z
                   then sp = [PCompletion (plus_one (_requestId st))]
                        /\ reqs = [explain_request settings w c]
                   else sp = [] /\ reqs = []
               | None =>
                   sp = [PExplainSettings (plus_one (_requestId st)) w c] /\ reqs = []
               end)
    (_requestExplain w c) st.
Proof.
  unfold _requestExplain. apply yields_new_token. intros st1 I1 S1 P1.
  apply yields_read.
  do 3 (apply yields_bind;
        [first [apply frames_setVisible | apply frames_setStatusText
               | apply frames_setContentText]
        | let a := fresh "a" in let st1 := fresh "st" in let F := fresh "F" in
          intros a st1 F]).
  apply yields_read.
  assert (Fr : same_frame st1 st3) by eauto using same_frame_trans.
  destruct Fr as (I3 & S3 & P3).
  rewrite S3, S1. destruct (_settings st) as [settings|].
  - eapply yields_weaken; [|apply requestExplain_settings_spec].
    intros sp st' reqs [(I & S & P) Ho].
    rewrite I3, Z.eqb_refl in Ho. cbn [andb] in Ho. rewrite I1 in Ho.
    repeat split; first [congruence | exact Ho].
  - apply yields_bind; [apply frames_getSettings|]. intros a2 st4 (I4 & S4 & P4).
    apply yields_ret. rewrite I1. repeat split; congruence.
Qed.

Lemma length_zero_nil (s : jsstring) : (Js.length s =? 0)%Z = false -> s <> [].
Proof. intros H ->. discriminate. Qed.

Lemma requestExplain_settings_fetch_ok r w c settings st :
  yields (fun _ _ reqs => fetch_ok reqs) (_requestExplain_settings r w c settings) st.
Proof.
  eapply yields_weaken; [|apply requestExplain_settings_spec].
  intros sp st' reqs [_ H].
  destruct ((r =? _requestId st)%Z && negb (Js.length (configured_url settings) =? 0)%Z)
    eqn:E; destruct H as [_ ->]; [|now left].
  right. exists settings, w, c. split; [reflexivity|].
  apply andb_prop in E as [_ E]. apply negb_true_iff in E. now apply length_zero_nil.
Qed.

Lemma requestExplain_fetch_ok w c st :
  yields (fun _ _ reqs => fetch_ok reqs) (_requestExplain w c) st.
Proof.
  eapply yields_weaken; [|apply requestExplain_spec].
  intros sp st' reqs (_ & _ & _ & H).
  destruct (_settings st) as [settings|]; [|destruct H as [_ ->]; now left].
  destruct (negb (Js.length (configured_url settings) =? 0)%Z) eqn:E;
    destruct H as [_ ->]; [|now left].
  right. exists settings, w, c. split; [reflexivity|].
  apply negb_true_iff in E. now apply length_zero_nil.
Qed.

Lemma onContentClear_no_request st :
  yields (fun _ _ reqs => reqs = []) _onContentClear st.
Proof. unfold _onContentClear. silent_steps. reflexivity. Qed.

Lemma onContentUpdateStart_no_request q h st :
  yields (fun _ _ reqs => reqs = []) (_onContentUpdateStart q h) st.
Proof.
  unfold _onContentUpdateStart.
  do 3 (apply yields_bind_silent;
        [first [apply silent_write_requestId | apply silent_write_pendingInput
               | apply frames_silent, frames_read]
        | let a := fresh "a" in let st1 := fresh "st" in intros a st1]).
  destruct (negb (_isShiftLookup h)); silent_steps; reflexivity.
Qed.

Lemma onContentUpdateStart_rejected_no_request e st :
  yields (fun _ _ reqs => reqs = []) (_onContentUpdateStart_rejected e) st.
Proof. unfold _onContentUpdateStart_rejected. silent_steps. reflexivity. Qed.

Lemma requestExplain_catch_no_request r e st :
  yields (fun _ _ reqs => reqs = []) (_requestExplain_catch r e) st.
Proof.
  eapply yields_weaken; [|apply requestExplain_catch_frame].
  intros sp st' reqs (_ & H & _). exact H.
Qed.

Lemma onText_no_request r x st :
  yields (fun _ _ reqs => reqs = []) (onText r x) st.
Proof.
  unfold onText. apply yields_read.
  destruct (negb (r =? _requestId st)%Z); [apply yields_ret; reflexivity|].
  do 2 (apply yields_bind_silent;
        [apply frames_silent;
         first [apply frames_setContentText | apply frames_lift_tryParseJson]
        | let a := fresh "a" in let st1 := fresh "st" in intros a st1]).
  destruct a0; silent_steps; reflexivity.
Qed.

Lemma requestExplain_resolved_no_request r x st :
  yields (fun _ _ reqs => reqs = []) (_requestExplain_resolved r x) st.
Proof.
  unfold _requestExplain_resolved. apply yields_try_catch, yields_read.
  destruct (negb (r =? _requestId st)%Z); [apply yields_ret; reflexivity|].
  do 2 (apply yields_bind_silent;
        [apply frames_silent;
         first [apply frames_setStatusText | apply frames_lift_tryParseJson]
        | let a := fresh "a" in let st1 := fresh "st" in intros a st1]).
  destruct a; silent_steps; reflexivity.
Qed.

Lemma onButtonClick_fetch_ok h st :
  yields (fun _ _ reqs => fetch_ok reqs) (_onButtonClick h) st.
Proof.
  unfold _onButtonClick.
  destruct (negb (_isShiftLookup h)); [apply yields_ret; now left|].
  apply yields_read. destruct (_pendingInput st) as [[w c]|];
    [apply requestExplain_fetch_ok | apply yields_ret; now left].
Qed.

Lemma onContentUpdateStart_resolved_fetch_ok r q settings h st :
  yields (fun _ _ reqs => fetch_ok reqs) (_onContentUpdateStart_resolved r q settings h) st.
Proof.
  unfold _onContentUpdateStart_resolved. apply yields_read.
  destruct (negb (r =? _requestId st)%Z); [apply yields_ret; now left|].
  do 4 (apply yields_bind_silent;
        [first [apply silent_write_settings | apply silent_write_pendingInput
               | apply frames_silent;
                 first [apply frames_setVisible | apply frames_read]]
        | let a := fresh "a" in let st1 := fresh "st" in intros a st1]).
  destruct (typeof_string _ && str_eqb _ _).
  - silent_steps. now left.
  - apply yields_bind_silent; [apply frames_silent, frames_setButtonVisible|].
    intros a3 st4. apply requestExplain_fetch_ok.
Qed.

(** What a task hands to [fetch]. *)
Lemma step_requests sys ev sys' log :
  step sys ev = Some (sys', log) ->
  fetch_ok (requests log)
  /\ match ev with
     | ButtonClick _ | SettingsResolved _ _ _ => True
     | _ => requests log = []
     end.
Proof.
  assert (Hy : forall Q code rest,
             yields (fun _ _ reqs => Q reqs) code (ai sys) ->
             match code (ai sys) with
             | (Normal spawned, st', lg) =>
                 Some ({| ai := st'; pending := rest ++ spawned |}, lg)
             | (Throw _, st', lg) => Some ({| ai := st'; pending := rest |}, lg)
             end = Some (sys', log) ->
             Q (requests log)).
  { intros Q code rest (sp & st' & lg & E & HQ). rewrite E. intros H.
    inversion H; subst. exact HQ. }
  assert (Hn : forall reqs : list Request, reqs = [] -> fetch_ok reqs /\ reqs = [])
    by (intros reqs ->; split; [now left | reflexivity]).
  unfold step, dispatch.
  destruct ev as [|q h|h|i settings h|i e|i x|i x|i e].
  - intros H. apply Hn. revert H. apply (Hy (fun reqs => reqs = [])), onContentClear_no_request.
  - intros H. apply Hn. revert H. apply (Hy (fun reqs => reqs = [])), onContentUpdateStart_no_request.
  - intros H. split; [|exact I]. revert H.
    apply (Hy fetch_ok), onButtonClick_fetch_ok.
  - destruct (nth_error (pending sys) i) as [[r q|r w c|r]|]; try discriminate;
      intros H; (split; [|exact I]); revert H; apply (Hy fetch_ok).
    + apply onContentUpdateStart_resolved_fetch_ok.
    + apply requestExplain_settings_fetch_ok.
  - destruct (nth_error (pending sys) i) as [[r q|r w c|r]|]; try discriminate;
      intros H; apply Hn; revert H; apply (Hy (fun reqs => reqs = [])).
    + apply onContentUpdateStart_rejected_no_request.
    + apply requestExplain_catch_no_request.
  - destruct (nth_error (pending sys) i) as [[r q|r w c|r]|]; try discriminate.
    intros H. apply Hn. revert H. apply (Hy (fun reqs => reqs = [])), onText_no_request.
  - destruct (nth_error (pending sys) i) as [[r q|r w c|r]|]; try discriminate.
    intros H. apply Hn. revert H. apply (Hy (fun reqs => reqs = [])), requestExplain_resolved_no_request.
  - destruct (nth_error (pending sys) i) as [[r q|r w c|r]|]; try discriminate.
    intros H. apply Hn. revert H. apply (Hy (fun reqs => reqs = [])), requestExplain_catch_no_request.
Qed.

End HandlerFacts.

(** X9. A task of the event loop hands [fetch] at most one request, and
    only a click or the arrival of settings does: lookups, clears,
    partials, completions and failures never start a request.  Every
    request goes to a non-empty, trimmed endpoint, by POST, under a signal
    aborted after 20000 ms. *)
Theorem X9_requests_of_a_task (sys : System) (ev : Event) (sys' : System)
    (log : list Effect) :
  step sys ev = Some (sys', log) ->
  (List.length (requests log) <= 1)%nat
  /\ Forall (fun r => req_url r <> [] /\ trim (req_url r) = req_url r
                      /\ req_method r = lit "POST" /\ req_abortAfterMs r = 20000%Z)
       (requests log)
  /\ match ev with
     | ButtonClick _ | SettingsResolved _ _ _ => True
     | _ => requests log = []
     end.
Proof.
  intros H. destruct (step_requests sys ev H) as [Hok Hev].
  split; [|split; [|exact Hev]].
  - destruct Hok as [->|(s & w & c & -> & _)]; cbn; lia.
  - destruct Hok as [->|(s & w & c & -> & Hu)]; [constructor|].
    constructor; [|constructor].
    unfold explain_request, build_request. cbn [req_url req_method req_abortAfterMs].
    repeat split; try assumption.
    unfold configured_url. destruct (typeof_string _); [apply trim_idem | reflexivity].
Qed.

Lemma X9_requests_of_a_task_witness :
  step (after (firstn 1 auto_lookup)) (SettingsResolved 0 auto_settings shift_lookup)
    = Some (after auto_lookup,
            skipn 3 (effects_of auto_lookup))
  /\ (List.length (requests (skipn 3 (effects_of auto_lookup))) <= 1)%nat
  /\ map req_url (requests (skipn 3 (effects_of auto_lookup)))
     = [lit "http://127.0.0.1:8317/v1/chat/completions"].
Proof.
  assert (H : step (after (firstn 1 auto_lookup))
                (SettingsResolved 0 auto_settings shift_lookup)
              = Some (after auto_lookup, skipn 3 (effects_of auto_lookup)))
    by (vm_compute; reflexivity).
  split; [exact H|]. split.
  - exact (proj1 (@X9_requests_of_a_task _ _ _ _ H)).
  - vm_compute. reflexivity.
Defined.

(* ================================================================== *)
(** ** What the pane shows *)
(* ================================================================== *)

Section PaneFacts.

(** Rendering an object, on a pane that holds anything. *)
Lemma setContentRendered_object
    (st : DisplayAi.t) (prior : list Node) (o : list (jsstring * value)) :
  exists log,
    _setContentRendered (JObject o) (Render.with_content st (Some prior)) =
    (Normal tt, Render.with_content st (Some (Render.render o)), log).
Proof.
  assert (Hheader :
    Element (lit "ai-explanation-render-header")
      (if (Js.length (string_or (get_member o (lit "word")) []) >? 0)%Z
       then [div_text (lit "ai-explanation-render-title")
               (if (Js.length (string_or (get_member o (lit "title")) []) >? 0)%Z
                then string_or (get_member o (lit "title")) []
                else if (Js.length (string_or (get_member o (lit "word")) []) >? 0)%Z
                     then string_or (get_member o (lit "word")) [] else lit "AI")]
            ++ [div_text (lit "ai-explanation-render-badge")
                  (string_or (get_member o (lit "word")) [])]
       else [div_text (lit "ai-explanation-render-title")
               (if (Js.length (string_or (get_member o (lit "title")) []) >? 0)%Z
                then string_or (get_member o (lit "title")) []
                else if (Js.length (string_or (get_member o (lit "word")) []) >? 0)%Z
                     then string_or (get_member o (lit "word")) [] else lit "AI")])
    = Render.header o).
  { unfold Render.header. rewrite !length_pos_nonempty, !string_or_nonempty.
    destruct (Render.nonempty_string o (lit "title")),
             (Render.nonempty_string o (lit "word")); reflexivity. }
  unfold _setContentRendered, Render.render, bind.
  cbn [read Render.with_content _content].
  rewrite write_content_present.
  cbv iota beta. cbn [typeof_object is_null negb orb get textContent].
  rewrite Hheader, appendChild_present. cbv iota beta. cbn [app].
  destruct (addSection_section st [Render.header o] (lit "Meaning") o (lit "meaning"))
    as [l1 ->].
  destruct (addSection_section st
              ([Render.header o] ++ Render.section (lit "Meaning") o (lit "meaning"))
              (lit "In context") o (lit "meaning_in_context")) as [l2 ->].
  destruct (addSection_section st
              (([Render.header o] ++ Render.section (lit "Meaning") o (lit "meaning"))
                 ++ Render.section (lit "In context") o (lit "meaning_in_context"))
              (lit "Usage") o (lit "usage")) as [l3 ->].
  unfold Render.examples_section.
  destruct (get_member o (lit "examples")) as [[| | | |[|x xs]|]|];
    try (eexists; change (Z.of_nat (Datatypes.length (@nil value)) >? 0)%Z with false;
         unfold ret; cbv iota beta; rewrite !app_nil_r, <- !app_assoc; reflexivity).
  change (Z.of_nat (Datatypes.length (x :: xs)) >? 0)%Z with true. cbv iota.
  rewrite appendChild_present, examples_loop. cbn [app].
  eexists. rewrite <- !app_assoc. reflexivity.
Qed.

(** [_tryParseJson] gives null or an object. *)
Lemma tryParseJson_cases (x : jsstring) :
  _tryParseJson (JString x) = Normal JNull
  \/ exists o, _tryParseJson (JString x) = Normal (JObject o).
Proof.
  unfold _tryParseJson.
  destruct (startsWith (trim x) (lit "{")) eqn:H1; cbn [negb orb]; [|now left].
  destruct (endsWith (trim x) (lit "}")); cbn [negb]; [|now left].
  destruct (JSON_parse (trim x)) as [v|e] eqn:Hp; [|now left].
  destruct (@JSON_parse_inv _ _ Hp) as (rest & Hpv & _).
  destruct (startsWith_brace _ H1) as [t' Et]. rewrite Et in Hpv.
  destruct (@parse_brace_object _ _ _ _ Hpv) as [o ->]. right. now exists o.
Qed.

(** [_setContentRendered] changes nothing but the content. *)
Lemma setContentRendered_only_content (v : value) (st : DisplayAi.t) :
  exists c log, _setContentRendered v st = (Normal tt, Render.with_content st c, log).
Proof.
  destruct st as [ro [c|] sto bu id se pe].
  - destruct v as [|b|lx|s|xs|o]; try (eexists (Some _), _; reflexivity).
    destruct (setContentRendered_object
                {| _root := ro; _content := Some c; _status := sto; _button := bu;
                   _requestId := id; _settings := se; _pendingInput := pe |} c o)
      as [log H].
    exists (Some (Render.render o)), log. exact H.
  - exists None, []. reflexivity.
Qed.

End PaneFacts.

(** X10. [_setContentRendered] replaces whatever the pane held by a
    content that depends on the value alone: the rendered tree for an
    object, the header with the generic label for an array, the text of
    [String(value)] for a primitive; it never throws, and does nothing
    when the content element is missing. *)
Theorem X10_rendering_replaces_content (v : value) (st : DisplayAi.t) :
  (forall prior, exists log,
      _setContentRendered v (Render.with_content st (Some prior)) =
      (Normal tt, Render.with_content st (Some (rendered v)), log))
  /\ _setContentRendered v (Render.with_content st None)
     = (Normal tt, Render.with_content st None, []).
Proof.
  split; [|reflexivity].
  intros prior. destruct v as [|b|lx|s|xs|o];
    try (eexists; reflexivity).
  apply setContentRendered_object.
Qed.

(* ================================================================== *)
(** ** Lookups in manual mode *)
(* ================================================================== *)

Section LookupFacts.

Lemma yields_write_settings (Q : list Pending -> DisplayAi.t -> list Request -> Prop)
    (v : option Settings) (k : M (list Pending)) st :
  (forall st1,
      _requestId st1 = _requestId st ->
      _settings st1 = v ->
      _pendingInput st1 = _pendingInput st ->
      yields Q k st1) ->
  yields Q (write_settings v ;; k) st.
Proof.
  intros Hk. unfold yields, bind, write_settings.
  match goal with
  | |- context [k ?s] =>
      destruct (Hk s eq_refl eq_refl eq_refl) as (sp & st2 & l2 & E2 & HQ)
  end.
  rewrite E2. eexists sp, st2, _. split; [reflexivity | exact HQ].
Qed.

Lemma yields_write_pendingInput (Q : list Pending -> DisplayAi.t -> list Request -> Prop)
    (v : option (jsstring * jsstring)) (k : M (list Pending)) st :
  (forall st1,
      _requestId st1 = _requestId st ->
      _settings st1 = _settings st ->
      _pendingInput st1 = v ->
      yields Q k st1) ->
  yields Q (write_pendingInput v ;; k) st.
Proof.
  intros Hk. unfold yields, bind, write_pendingInput.
  match goal with
  | |- context [k ?s] =>
      destruct (Hk s eq_refl eq_refl eq_refl) as (sp & st2 & l2 & E2 & HQ)
  end.
  rewrite E2. eexists sp, st2, _. split; [reflexivity | exact HQ].
Qed.

(** The settings of a current lookup arriving in manual mode. *)
Lemma onContentUpdateStart_resolved_manual q settings h st :
  manual_mode settings = true ->
  yields (fun sp st' reqs =>
            sp = [] /\ reqs = []
            /\ _requestId st' = _requestId st
            /\ _settings st' = Some settings
            /\ _pendingInput st' = Some (word_of q, _getSentenceText h))
    (_onContentUpdateStart_resolved (_requestId st) q settings h) st.
Proof.
  intros Hm. unfold _onContentUpdateStart_resolved. apply yields_read.
  rewrite Z.eqb_refl. cbn [negb].
  apply yields_write_settings. intros st1 I1 S1 P1.
  apply yields_write_pendingInput. intros st2 I2 S2 P2.
  apply yields_bind; [apply frames_setVisible|]. intros a3 st3 (I3 & S3 & P3).
  apply yields_read. rewrite S3, S2, S1.
  fold (manual_mode settings). rewrite Hm.
  do 3 (apply yields_bind;
        [first [apply frames_setButtonVisible | apply frames_setStatusText
               | apply frames_setContentText]
        | let a := fresh "a" in let st1 := fresh "st" in let F := fresh "F" in
          intros a st1 F]).
  apply yields_ret. unfold same_frame, word_of in *. intuition congruence.
Qed.

End LookupFacts.

(** X11. In manual mode the arrival of a current lookup's settings
    requests nothing: it caches the settings and stores the looked-up
    word and its sentence.  A later click with shift held then makes
    exactly the request built from those settings and that stored input,
    under the next token; a click without shift does nothing. *)
Theorem X11_manual_mode_waits_for_click (st : DisplayAi.t) (q : option jsstring)
    (settings : Settings) (h click : History) :
  manual_mode settings = true ->
  configured_url settings <> [] ->
  _isShiftLookup click = true ->
  exists st1 log1 st2 log2,
    _onContentUpdateStart_resolved (_requestId st) q settings h st = (Normal [], st1, log1)
    /\ requests log1 = []
    /\ _onButtonClick click st1 = (Normal [PCompletion (plus_one (_requestId st))], st2, log2)
    /\ requests log2 = [explain_request settings (word_of q) (_getSentenceText h)]
    /\ _requestId st2 = plus_one (_requestId st)
    /\ forall idle, _isShiftLookup idle = false ->
                    _onButtonClick idle st1 = (Normal [], st1, []).
Proof.
  intros Hm Hu Hc.
  destruct (@onContentUpdateStart_resolved_manual q settings h st Hm)
    as (sp & st1 & log1 & E1 & -> & R1 & I1 & S1 & P1).
  destruct (requestExplain_spec (word_of q) (_getSentenceText h) st1)
    as (sp2 & st2 & log2 & E2 & I2 & _ & _ & H2).
  rewrite S1 in H2.
  destruct (Js.length (configured_url settings) =? 0)%Z eqn:El.
  { destruct (configured_url settings); [now elim Hu | discriminate]. }
  cbn [negb] in H2. destruct H2 as [-> R2]. rewrite I1 in *.
  exists st1, log1, st2, log2.
  split; [exact E1|]. split; [exact R1|]. split; [|split; [exact R2|split; [exact I2|]]].
  - unfold _onButtonClick. rewrite Hc. cbn [negb]. unfold bind, read.
    cbv beta iota. rewrite P1. cbv beta iota. rewrite E2. reflexivity.
  - intros idle Hi. unfold _onButtonClick. rewrite Hi. reflexivity.
Qed.

Lemma X11_manual_mode_waits_for_click_witness :
  manual_mode manual_settings = true
  /\ _isShiftLookup shift_lookup = true
  /\ exists st1 log1 st2 log2,
       _onContentUpdateStart_resolved
         (_requestId (ai (after (firstn 1 manual_lookup_click))))
         (Some (lit "A")) manual_settings shift_lookup
         (ai (after (firstn 1 manual_lookup_click))) = (Normal [], st1, log1)
       /\ requests log1 = []
       /\ _onButtonClick shift_lookup st1
          = (Normal [PCompletion
                       (plus_one (_requestId (ai (after (firstn 1 manual_lookup_click)))))],
             st2, log2)
       /\ requests log2
          = [explain_request manual_settings (word_of (Some (lit "A")))
               (_getSentenceText shift_lookup)].
Proof.
  assert (H1 : manual_mode manual_settings = true) by (vm_compute; reflexivity).
  assert (H2 : configured_url manual_settings <> []) by (vm_compute; discriminate).
  assert (H3 : _isShiftLookup shift_lookup = true) by (vm_compute; reflexivity).
  split; [exact H1|]. split; [exact H3|].
  destruct (@X11_manual_mode_waits_for_click
              (ai (after (firstn 1 manual_lookup_click))) (Some (lit "A"))
              manual_settings shift_lookup shift_lookup H1 H2 H3)
    as (st1 & log1 & st2 & log2 & E1 & R1 & E2 & R2 & _).
  exists st1, log1, st2, log2.
  split; [exact E1|]. split; [exact R1|]. split; [exact E2 | exact R2].
Defined.

(* ================================================================== *)
(** ** Failures and results in the pane *)
(* ================================================================== *)

(** X12. With settings cached that configure no endpoint (a missing,
    non-string or blank [apiUrl]), an explain requests nothing and suspends
    nothing: on a complete pane it ends showing the pane with the status
    "AI request failed." and the content "AI API URL not configured",
    having logged that error; the token has still moved on. *)
Theorem X12_missing_endpoint (st : DisplayAi.t) (settings : Settings)
    (word context : jsstring) :
  complete_pane st ->
  _settings st = Some settings ->
  configured_url settings = [] ->
  exists st' log,
    _requestExplain word context st = (Normal [], st', log)
    /\ requests log = []
    /\ In (ELogError (JsError (lit "AI API URL not configured"))) log
    /\ _requestId st' = plus_one (_requestId st)
    /\ _root st' = Some false
    /\ _status st'
       = Some {| status_textContent := lit "AI request failed."; status_hidden := false |}
    /\ _content st' = Some (textContent (lit "AI API URL not configured")).
Proof.
  destruct st as [ro co sto bu id se pe]. unfold complete_pane, configured_url.
  cbn [_root _content _status _button _settings].
  intros (H1 & H2 & H3 & H4) -> Hu.
  destruct ro as [ro|]; [|now elim H1]. destruct co as [co|]; [|now elim H2].
  destruct sto as [sto|]; [|now elim H3].
  unfold _requestExplain, _requestExplain_settings, _requestExplain_catch, try_catch,
    bind, read, write_requestId, _setVisible, _setStatusText, _setContentText,
    write_content, throw, effect, ret.
  cbn [_root _content _status _button _settings _requestId _pendingInput].
  rewrite Z.eqb_refl. cbn [negb]. rewrite Hu.
  change (Js.length [] =? 0)%Z with true. cbv beta iota.
  cbn [_root _content _status _button _settings _requestId _pendingInput app
       instanceofError message negb].
  rewrite Z.eqb_refl. cbn [negb].
  eexists _, _. split; [reflexivity|].
  repeat split. cbn. auto 10.
Qed.

Lemma X12_missing_endpoint_witness :
  exists st' log,
    _requestExplain (lit "A") (lit "sentence")
      (ai (after [ContentUpdateStart (Some (lit "A")) shift_lookup;
                  SettingsResolved 0 settings_without_url shift_lookup;
                  ContentUpdateStart (Some (lit "A")) shift_lookup]))
    = (Normal [], st', log)
    /\ requests log = []
    /\ _content st' = Some (textContent (lit "AI API URL not configured")).
Proof.
  destruct (@X12_missing_endpoint
              (ai (after [ContentUpdateStart (Some (lit "A")) shift_lookup;
                          SettingsResolved 0 settings_without_url shift_lookup;
                          ContentUpdateStart (Some (lit "A")) shift_lookup]))
              settings_without_url (lit "A") (lit "sentence"))
    as (st' & log & E & R & _ & _ & _ & _ & C).
  - vm_compute. repeat split; discriminate.
  - vm_compute. reflexivity.
  - vm_compute. reflexivity.
  - exists st', log. split; [exact E|]. split; [exact R | exact C].
Defined.

(** X13. For the current token, a partial text and the final text are
    shown the same way: as the rendered tree when the text is a JSON
    object (after trimming), as the raw text otherwise.  The final text
    always clears the status line; a partial clears it only when it
    renders, so the "thinking" status stays while the partial is not yet
    a complete object.  Neither suspends anything. *)
Theorem X13_partial_and_final_display (st : DisplayAi.t) (x : jsstring)
    (prior : list Node) :
  _content st = Some prior ->
  exists shown (renders : bool) st1 log1 st2 log2,
    (if renders
     then exists o, _tryParseJson (JString x) = Normal (JObject o)
                    /\ shown = Render.render o
     else _tryParseJson (JString x) = Normal JNull /\ shown = textContent x)
    /\ onText (_requestId st) x st = (Normal [], st1, log1)
    /\ _content st1 = Some shown
    /\ _status st1 = (if renders then status_cleared st else _status st)
    /\ _requestExplain_resolved (_requestId st) x st = (Normal [], st2, log2)
    /\ _content st2 = Some shown
    /\ _status st2 = status_cleared st.
Proof.
  destruct st as [ro co sto bu id se pe]. cbn [_content _requestId]. intros ->.
  unfold status_cleared, onText, _requestExplain_resolved, try_catch, bind, read, lift,
    _setContentText, write_content, ret.
  cbn [_root _content _status _button _settings _requestId _pendingInput].
  rewrite Z.eqb_refl. cbn [negb].
  destruct (tryParseJson_cases x) as [E|[o E]]; rewrite E.
  - exists (textContent x), false.
    destruct sto as [sto|]; unfold _setStatusText;
      cbn [_root _content _status _button _settings _requestId _pendingInput];
      eexists _, _, _, _; repeat split; reflexivity.
  - exists (Render.render o), true.
    destruct sto as [sto|]; unfold _setStatusText;
      cbn [_root _content _status _button _settings _requestId _pendingInput];
      cbv beta iota zeta;
      repeat match goal with
        | |- context [_setContentRendered (JObject o) ?s] =>
            let lg := fresh "lg" in let Er := fresh "Er" in
            destruct (setContentRendered_object s
                        (match _content s with Some c => c | None => [] end) o)
              as [lg Er];
            unfold Render.with_content in Er;
            cbn [_root _content _status _button _settings _requestId _pendingInput] in Er;
            rewrite Er; clear Er
        end;
      (eexists _, _, _, _; split; [exists o; split; reflexivity|];
       repeat split; reflexivity).
Qed.

Lemma X13_partial_and_final_display_witness :
  exists shown (renders : bool) st1 log1 st2 log2,
    (if renders
     then exists o, _tryParseJson (JString (json "{'title':'t'}")) = Normal (JObject o)
                    /\ shown = Render.render o
     else _tryParseJson (JString (json "{'title':'t'}")) = Normal JNull
          /\ shown = textContent (json "{'title':'t'}"))
    /\ onText (_requestId (ai (after auto_lookup))) (json "{'title':'t'}")
         (ai (after auto_lookup)) = (Normal [], st1, log1)
    /\ _content st1 = Some shown
    /\ _status st1 = (if renders then status_cleared (ai (after auto_lookup))
                      else _status (ai (after auto_lookup)))
    /\ _requestExplain_resolved (_requestId (ai (after auto_lookup)))
         (json "{'title':'t'}") (ai (after auto_lookup)) = (Normal [], st2, log2)
    /\ _content st2 = Some shown
    /\ _status st2 = status_cleared (ai (after auto_lookup)).
Proof.
  apply (@X13_partial_and_final_display (ai (after auto_lookup))
           (json "{'title':'t'}") []).
  vm_compute. reflexivity.
Defined.

(* ================================================================== *)
(** ** Superseded requests *)
(* ================================================================== *)

Section Supersession.

(** The continuations suspended before a user task keep their places. *)
Lemma user_event_keeps_pending sys ev sys' log :
  user_event ev = true ->
  step sys ev = Some (sys', log) ->
  exists spawned, pending sys' = pending sys ++ spawned.
Proof.
  unfold step, dispatch. destruct ev; try discriminate; intros _;
    match goal with
    | |- context [match ?c (ai sys) with _ => _ end] =>
        destruct (c (ai sys)) as [[[sp|e] st] lg]
    end;
    intros H; inversion H; subst; cbn [pending].
  all: first [now exists sp | exists []; now rewrite app_nil_r].
Qed.

(** A settlement whose continuation holds a stale token changes nothing. *)
Lemma stale_settlement sys i p ev sys' log :
  nth_error (pending sys) i = Some p ->
  captured p <> _requestId (ai sys) ->
  settles ev = Some i ->
  tests_token p ev = true ->
  step sys ev = Some (sys', log) ->
  ai sys' = ai sys /\ log = [].
Proof.
  intros Hn Hc Hs Ht.
  destruct (@stale_continuations_silent _ _ Hc) as (S1 & S2 & S3 & S4 & S5).
  unfold step, dispatch.
  destruct ev; try discriminate; cbn [settles] in Hs; inversion Hs; subst;
    rewrite Hn; destruct p; cbn [captured tests_token] in *; try discriminate;
    rewrite ?S1, ?S2, ?S3, ?S4, ?S5;
    intros H; inversion H; subst; now split.
Qed.

(** The token never moves back. *)
Lemma run_token_mono evs : forall sys sys' log,
  Inv sys -> (_requestId (ai sys) + Z.of_nat (List.length evs) <= 2 ^ 53)%Z ->
  run sys evs = Some (sys', log) ->
  (_requestId (ai sys) <= _requestId (ai sys'))%Z.
Proof.
  induction evs as [|ev evs IH]; intros sys sys' log HI Hlen; cbn [run].
  - intros H. inversion H; subst. lia.
  - cbn [List.length] in Hlen.
    destruct (step sys ev) as [[sys1 log1]|] eqn:E1; [|discriminate].
    assert (Hlt : (_requestId (ai sys) < 2 ^ 53)%Z) by lia.
    destruct (@step_Inv sys ev sys1 log1 HI Hlt E1) as [HI1 Hb1].
    destruct (run sys1 evs) as [[sys2 log2]|] eqn:E2; [|discriminate].
    intros H. inversion H; subst.
    specialize (IH _ _ _ HI1 ltac:(lia) E2). lia.
Qed.

End Supersession.

(** X14. In every state the instance reaches, as long as fewer than 2^53
    tasks have run, a clear or a new lookup always moves the token, and a
    user task leaves the continuations suspended before it in their
    places.  Once any task has moved the token, every continuation
    suspended before that task is superseded for good: after any further
    tasks, wherever it then stands among the suspended continuations, its
    token differs from the current one, and when its settings, a partial
    text, its result or its failure arrives, the instance is left exactly
    as it was and nothing is logged or requested.  The one continuation
    this does not cover is a lookup's on the failure of its settings
    fetch. *)
Theorem X14_superseded_continuations (doc : Document) (evs : list Event)
    (sys : System) (log0 : list Effect) (ev : Event) (sys1 : System)
    (log1 : list Effect) (more : list Event) (sys2 : System) (log2 : list Effect) :
  run {| ai := prepare doc constructor; pending := [] |} evs = Some (sys, log0) ->
  (Z.of_nat (List.length evs) + 1 + Z.of_nat (List.length more) < 2 ^ 53)%Z ->
  step sys ev = Some (sys1, log1) ->
  run sys1 more = Some (sys2, log2) ->
  match ev with
  | ContentClear | ContentUpdateStart _ _ =>
      _requestId (ai sys1) = (_requestId (ai sys) + 1)%Z
  | _ => True
  end
  /\ (user_event ev = true ->
      forall i p, nth_error (pending sys) i = Some p ->
                  nth_error (pending sys1) i = Some p)
  /\ (_requestId (ai sys1) <> _requestId (ai sys) ->
      forall p,
        In p (pending sys) ->
        captured p <> _requestId (ai sys2)
        /\ forall j late sys3 log3,
             nth_error (pending sys2) j = Some p ->
             settles late = Some j ->
             tests_token p late = true ->
             step sys2 late = Some (sys3, log3) ->
             ai sys3 = ai sys2 /\ log3 = []).
Proof.
  intros Hrun Hlen Hstep Hmore.
  assert (H0 : Inv {| ai := prepare doc constructor; pending := [] |})
    by (split; cbn; constructor).
  assert (Hid0 : _requestId (prepare doc constructor) = 0%Z)
    by (unfold prepare; now destruct (doc_root doc)).
  destruct (@run_Inv evs _ sys log0 H0 ltac:(cbn [ai]; lia) Hrun) as [HI Hb].
  cbn [ai] in Hb. rewrite Hid0 in Hb.
  assert (Hlt : (_requestId (ai sys) < 2 ^ 53)%Z) by lia.
  assert (Hp : plus_one (_requestId (ai sys)) = (_requestId (ai sys) + 1)%Z).
  { unfold plus_one. destruct (_requestId (ai sys) <? 2 ^ 53)%Z eqn:Eb; [reflexivity|].
    apply Z.ltb_ge in Eb. lia. }
  destruct (@step_Inv sys ev sys1 log1 HI Hlt Hstep) as [HI1 Hb1].
  assert (Hmono : (_requestId (ai sys1) <= _requestId (ai sys2))%Z)
    by (apply (@run_token_mono more sys1 sys2 log2 HI1); [lia | exact Hmore]).
  split; [|split].
  - destruct ev as [|q h|h| | | | | ]; try exact I; unfold step, dispatch in Hstep.
    + destruct (onContentClear_takes_token (ai sys)) as (sp & st' & lg & E & Id & _).
      rewrite E in Hstep. inversion Hstep; subst. cbn [ai]. congruence.
    + destruct (onContentUpdateStart_takes_token q h (ai sys))
        as (sp & st' & lg & E & Id & _).
      rewrite E in Hstep. inversion Hstep; subst. cbn [ai]. congruence.
  - intros Hu i p Hn.
    destruct (@user_event_keeps_pending sys ev sys1 log1 Hu Hstep) as [spawned Hpend].
    rewrite Hpend, nth_error_app1; [exact Hn|]. apply nth_error_Some. congruence.
  - intros Hne p Hin.
    assert (Hstale : captured p <> _requestId (ai sys2)).
    { destruct HI as [HF _]. rewrite Forall_forall in HF.
      specialize (HF p Hin). cbn in HF. lia. }
    split; [exact Hstale|].
    intros j late sys3 log3 Hn Hs Ht Hlate.
    exact (@stale_settlement sys2 j p late sys3 log3 Hn Hstale Hs Ht Hlate).
Qed.

Lemma X14_superseded_continuations_witness :
  pending (after auto_lookup) = [PCompletion 2]
  /\ nth_error (pending (after (auto_lookup ++ ContentClear :: later_lookup))) 0
     = Some (PCompletion 2)
  /\ _requestId (ai (after (auto_lookup ++ ContentClear :: later_lookup))) = 4%Z
  /\ forall x sys3 log3,
       step (after (auto_lookup ++ ContentClear :: later_lookup)) (CompletionResolved 0 x)
         = Some (sys3, log3) ->
       ai sys3 = ai (after (auto_lookup ++ ContentClear :: later_lookup)) /\ log3 = [].
Proof.
  assert (H1 : run {| ai := prepare popup constructor; pending := [] |} auto_lookup
               = Some (after auto_lookup, effects_of auto_lookup))
    by (vm_compute; reflexivity).
  assert (H2 : (Z.of_nat (List.length auto_lookup) + 1
                + Z.of_nat (List.length later_lookup) < 2 ^ 53)%Z)
    by (vm_compute; reflexivity).
  assert (H3 : step (after auto_lookup) ContentClear
               = Some (after (auto_lookup ++ [ContentClear]),
                       skipn 12 (effects_of (auto_lookup ++ [ContentClear]))))
    by (vm_compute; reflexivity).
  assert (H4 : run (after (auto_lookup ++ [ContentClear])) later_lookup
               = Some (after (auto_lookup ++ ContentClear :: later_lookup),
                       skipn 18 (effects_of (auto_lookup ++ ContentClear :: later_lookup))))
    by (vm_compute; reflexivity).
  assert (H5 : _requestId (ai (after (auto_lookup ++ [ContentClear])))
               <> _requestId (ai (after auto_lookup)))
    by (vm_compute; discriminate).
  assert (H6 : In (PCompletion 2) (pending (after auto_lookup)))
    by (vm_compute; auto).
  assert (H7 : nth_error (pending (after (auto_lookup ++ ContentClear :: later_lookup))) 0
               = Some (PCompletion 2)) by (vm_compute; reflexivity).
  destruct (proj2 (proj2 (@X14_superseded_continuations popup auto_lookup
                            (after auto_lookup) (effects_of auto_lookup) ContentClear
                            (after (auto_lookup ++ [ContentClear]))
                            (skipn 12 (effects_of (auto_lookup ++ [ContentClear])))
                            later_lookup
                            (after (auto_lookup ++ ContentClear :: later_lookup))
                            (skipn 18 (effects_of
                                         (auto_lookup ++ ContentClear :: later_lookup)))
                            H1 H2 H3 H4)) H5 (PCompletion 2) H6) as [_ K].
  split; [vm_compute; reflexivity|]. split; [exact H7|].
  split; [vm_compute; reflexivity|].
  intros x sys3 log3 H.
  exact (K 0%nat (CompletionResolved 0 x) sys3 log3 H7 eq_refl eq_refl H).
Defined.

(* ================================================================== *)
(** ** The status line *)
(* ================================================================== *)

Section StatusFacts.

Variable P : DisplayAi.t -> Prop.

Lemma keeps_ret {A} (a : A) : keeps P (ret a).
Proof. intros st H. exact H. Qed.

Lemma keeps_throw {A} (e : exn) : keeps P (@throw A e).
Proof. intros st H. exact H. Qed.

Lemma keeps_read {A} (f : DisplayAi.t -> A) : keeps P (read f).
Proof. intros st H. exact H. Qed.

Lemma keeps_lift {A} (c : completion A) : keeps P (lift c).
Proof. intros st H. exact H. Qed.

Lemma keeps_effect (e : Effect) : keeps P (effect e).
Proof. intros st H. exact H. Qed.

Lemma keeps_bind {A B} (m : M A) (k : A -> M B) :
  keeps P m -> (forall a, keeps P (k a)) -> keeps P (bind m k).
Proof.
  intros Hm Hk st H. specialize (Hm st H). unfold bind.
  destruct (m st) as [[[a|e] st1] l1]; cbn [fst snd] in *; [|exact Hm].
  specialize (Hk a st1 Hm). destruct (k a st1) as [[r st2] l2]. exact Hk.
Qed.

Lemma keeps_try_catch {A} (body : M A) (handler : exn -> M A) :
  keeps P body -> (forall e, keeps P (handler e)) -> keeps P (try_catch body handler).
Proof.
  intros Hm Hk st H. specialize (Hm st H). unfold try_catch.
  destruct (body st) as [[[a|e] st1] l1]; cbn [fst snd] in *; [exact Hm|].
  specialize (Hk e st1 Hm). destruct (handler e st1) as [[r st2] l2]. exact Hk.
Qed.

End StatusFacts.

Section StatusInvariant.

Lemma status_setVisible b : keeps status_ok (_setVisible b).
Proof. intros st H. unfold _setVisible. now destruct (_root st). Qed.

Lemma status_setButtonVisible b : keeps status_ok (_setButtonVisible b).
Proof. intros st H. unfold _setButtonVisible. now destruct (_button st). Qed.

Lemma status_setStatusText x : keeps status_ok (_setStatusText x).
Proof.
  intros st H. unfold _setStatusText.
  destruct (_status st) eqn:E; [reflexivity | exact H].
Qed.

Lemma status_setContentText x : keeps status_ok (_setContentText x).
Proof. intros st H. unfold _setContentText. now destruct (_content st). Qed.

Lemma status_write_requestId v : keeps status_ok (write_requestId v).
Proof. intros st H. exact H. Qed.

Lemma status_write_pendingInput v : keeps status_ok (write_pendingInput v).
Proof. intros st H. exact H. Qed.

Lemma status_write_settings v : keeps status_ok (write_settings v).
Proof. intros st H. exact H. Qed.

Lemma status_setContentRendered v : keeps status_ok (_setContentRendered v).
Proof.
  intros st H. destruct (setContentRendered_only_content v st) as (c & log & E).
  rewrite E. exact H.
Qed.

Ltac status_steps :=
  cbv zeta;
  repeat first
    [ apply keeps_ret | apply keeps_throw
    | apply keeps_bind;
      [ first [ apply keeps_read | apply keeps_lift | apply keeps_effect
              | apply status_write_requestId | apply status_write_pendingInput
              | apply status_write_settings
              | apply status_setVisible | apply status_setButtonVisible
              | apply status_setStatusText | apply status_setContentText
              | apply status_setContentRendered ]
      | intros ? ]
    | match goal with
      | |- keeps _ (if ?b then _ else _) => destruct b
      | |- keeps _ (match ?x with _ => _ end) => destruct x
      end ].

Lemma status_requestExplain_catch r e : keeps status_ok (_requestExplain_catch r e).
Proof. unfold _requestExplain_catch. status_steps. Qed.

Lemma status_requestExplain_settings r w c settings :
  keeps status_ok (_requestExplain_settings r w c settings).
Proof.
  unfold _requestExplain_settings.
  apply keeps_try_catch; [|intros e; apply status_requestExplain_catch].
  status_steps.
Qed.

Lemma status_requestExplain w c : keeps status_ok (_requestExplain w c).
Proof.
  unfold _requestExplain.
  do 7 (apply keeps_bind;
        [ first [ apply keeps_read | apply status_write_requestId
                | apply status_setVisible | apply status_setStatusText
                | apply status_setContentText ]
        | intros ? ]).
  destruct a5; [apply status_requestExplain_settings | status_steps].
Qed.

Lemma status_onText r x : keeps status_ok (onText r x).
Proof. unfold onText. status_steps. Qed.

Lemma status_requestExplain_resolved r x : keeps status_ok (_requestExplain_resolved r x).
Proof.
  unfold _requestExplain_resolved.
  apply keeps_try_catch; [|intros e; apply status_requestExplain_catch].
  status_steps.
Qed.

Lemma status_onContentClear : keeps status_ok _onContentClear.
Proof. unfold _onContentClear. status_steps. Qed.

Lemma status_onContentUpdateStart q h : keeps status_ok (_onContentUpdateStart q h).
Proof. unfold _onContentUpdateStart. status_steps. Qed.

Lemma status_onContentUpdateStart_rejected e :
  keeps status_ok (_onContentUpdateStart_rejected e).
Proof. unfold _onContentUpdateStart_rejected. status_steps. Qed.

Lemma status_onContentUpdateStart_resolved r q settings h :
  keeps status_ok (_onContentUpdateStart_resolved r q settings h).
Proof.
  unfold _onContentUpdateStart_resolved.
  apply keeps_bind; [apply keeps_read|]. intros current.
  destruct (negb (r =? current)%Z); [apply keeps_ret|].
  do 4 (apply keeps_bind;
        [ first [ apply keeps_read | apply status_write_settings
                | apply status_write_pendingInput | apply status_setVisible ]
        | intros ? ]).
  cbv zeta. destruct (typeof_string _ && str_eqb _ _).
  - status_steps.
  - apply keeps_bind; [apply status_setButtonVisible|]. intros _.
    apply status_requestExplain.
Qed.

Lemma status_onButtonClick h : keeps status_ok (_onButtonClick h).
Proof.
  unfold _onButtonClick. destruct (negb (_isShiftLookup h)); [apply keeps_ret|].
  apply keeps_bind; [apply keeps_read|]. intros [[w c]|];
    [apply status_requestExplain | apply keeps_ret].
Qed.

Lemma step_status sys ev sys' log :
  status_ok (ai sys) -> step sys ev = Some (sys', log) -> status_ok (ai sys').
Proof.
  intros H. unfold step.
  assert (Hk : forall code rest,
             keeps status_ok code ->
             match code (ai sys) with
             | (Normal spawned, st, lg) =>
                 Some ({| ai := st; pending := rest ++ spawned |}, lg)
             | (Throw _, st, lg) => Some ({| ai := st; pending := rest |}, lg)
             end = Some (sys', log) ->
             status_ok (ai sys')).
  { intros code rest Hc. specialize (Hc (ai sys) H).
    destruct (code (ai sys)) as [[[sp|e] st] lg]; cbn [fst snd] in Hc;
      intros E; inversion E; subst; exact Hc. }
  unfold dispatch.
  destruct ev as [|q h|h|i settings h|i e|i x|i x|i e];
    try (destruct (nth_error (pending sys) i) as [[r q|r w c|r]|]; try discriminate);
    apply Hk;
    first [ apply status_onContentClear | apply status_onContentUpdateStart
          | apply status_onButtonClick | apply status_onContentUpdateStart_resolved
          | apply status_requestExplain_settings
          | apply status_onContentUpdateStart_rejected
          | apply status_requestExplain_catch | apply status_onText
          | apply status_requestExplain_resolved ].
Qed.

End StatusInvariant.

(** X15. The status line is hidden exactly when its text is empty: when
    the document has it so, it stays so after every sequence of tasks,
    whether they succeed, fail or find their token stale. *)
Theorem X15_status_hidden_iff_empty (evs : list Event) (sys sys' : System)
    (log : list Effect) :
  status_ok (ai sys) ->
  run sys evs = Some (sys', log) ->
  status_ok (ai sys').
Proof.
  revert sys log. induction evs as [|ev evs IH]; intros sys log H; cbn [run].
  - intros E. inversion E; subst. exact H.
  - destruct (step sys ev) as [[sys1 log1]|] eqn:E1; [|discriminate].
    destruct (run sys1 evs) as [[sys2 log2]|] eqn:E2; [|discriminate].
    intros E. inversion E; subst.
    apply (IH sys1 log2); [|exact E2].
    apply (@step_status sys ev sys1 log1 H E1).
Qed.

Lemma X15_status_hidden_iff_empty_witness :
  status_ok (ai (after overlapping_lookups))
  /\ _status (ai (after overlapping_lookups))
     = Some {| status_textContent := lit "Click AI to explain."; status_hidden := false |}.
Proof.
  split.
  - apply (@X15_status_hidden_iff_empty overlapping_lookups initial
             (after overlapping_lookups) (effects_of overlapping_lookups)).
    + vm_compute. reflexivity.
    + vm_compute. reflexivity.
  - vm_compute. reflexivity.
Defined.

(* ================================================================== *)
(** ** The request *)
(* ================================================================== *)

Section RequestFacts.

Lemma length_cons_pos (c : char) (r : jsstring) : (Js.length (c :: r) >? 0)%Z = true.
Proof. unfold Js.length. apply Z.gtb_lt. cbn [List.length]. lia. Qed.

Lemma header_names_differ (v w : jsstring) :
  (lit "Content-Type", w) <> (lit "Authorization", v).
Proof. intros H. injection H as H1 _. vm_compute in H1. discriminate. Qed.

End RequestFacts.

(** X16. Whatever the network then delivers, the request of a completion
    call goes to the given endpoint with a JSON content type, asks for a
    stream, and carries the prompt as its single user message.  It has an
    [Authorization] header exactly when the key is a non-empty string,
    and then the header is "Bearer " followed by the key as given; it
    names a model exactly when the model is a non-empty string.  The
    timer is cleared however the call ends. *)
Theorem X16_request_of_a_completion (apiUrl : jsstring) (apiKey model : option value)
    (prompt : jsstring) (net : FetchOutcome) :
  let call := _fetchCompletionStreaming apiUrl apiKey model prompt net in
  req_url (run_request call) = apiUrl
  /\ In (lit "Content-Type", lit "application/json") (req_headers (run_request call))
  /\ (forall v,
        In (lit "Authorization", v) (req_headers (run_request call))
        <-> exists c k, apiKey = Some (JString (c :: k)) /\ v = lit "Bearer " ++ c :: k)
  /\ get (req_body (run_request call)) (lit "stream") = Some (JBool true)
  /\ get (req_body (run_request call)) (lit "messages")
     = Some (JArray [JObject [(lit "role", JString (lit "user"));
                              (lit "content", JString prompt)]])
  /\ get (req_body (run_request call)) (lit "model")
     = match model with
       | Some (JString (c :: m)) => Some (JString (c :: m))
       | _ => None
       end
  /\ run_timerCleared call = true.
Proof.
  unfold _fetchCompletionStreaming, build_request.
  cbn [run_request run_timerCleared req_url req_headers req_body].
  split; [reflexivity|]. split.
  { destruct (typeof_string apiKey && _); cbn; auto. }
  split.
  { intros v. split.
    - destruct apiKey as [[| | |[|c k]| |]|]; cbn [typeof_string andb string_or];
        rewrite ?length_cons_pos; cbn [In app Js.length List.length Z.of_nat Z.gtb Z.compare];
        intros H; repeat destruct H as [H|H]; try contradiction;
        try (now apply header_names_differ in H).
      injection H as <-. now exists c, k.
    - intros (c & k & -> & ->). cbn [typeof_string andb string_or].
      rewrite length_cons_pos. cbn. auto. }
  split.
  { destruct (typeof_string model && _); reflexivity. }
  split.
  { destruct (typeof_string model && _); reflexivity. }
  split; [|reflexivity].
  destruct model as [[| | |[|c m]| |]|]; cbn [typeof_string andb string_or];
    rewrite ?length_cons_pos; reflexivity.
Qed.

(* ================================================================== *)
(** ** Tasks of the event loop *)
(* ================================================================== *)

Section TaskFacts.

(** No handler segment throws. *)
Lemma dispatch_yields sys ev code rest :
  dispatch sys ev = Some (code, rest) -> yields (fun _ _ _ => True) code (ai sys).
Proof.
  unfold dispatch.
  destruct ev as [|q h|h|i settings h|i e|i x|i x|i e];
    try (destruct (nth_error (pending sys) i) as [[r q|r w c|r]|]; try discriminate);
    intros H; inversion H; subst;
    (eapply yields_weaken; [intros ? ? ? _; exact I|]);
    first [ apply onContentClear_no_request | apply onContentUpdateStart_no_request
          | apply onButtonClick_fetch_ok | apply onContentUpdateStart_resolved_fetch_ok
          | apply requestExplain_settings_fetch_ok
          | apply onContentUpdateStart_rejected_no_request
          | apply requestExplain_catch_no_request | apply onText_no_request
          | apply requestExplain_resolved_no_request ].
Qed.

End TaskFacts.

(** X17. No task of the event loop ends in an exception: every handler
    and every continuation, whatever arrives and whatever the instance
    holds, returns normally, so a failing or misconfigured request never
    reaches the display as an unhandled error. *)
Theorem X17_no_task_throws (sys : System) (ev : Event) (code : M (list Pending))
    (rest : list Pending) :
  dispatch sys ev = Some (code, rest) ->
  exists spawned st log,
    code (ai sys) = (Normal spawned, st, log)
    /\ step sys ev = Some ({| ai := st; pending := rest ++ spawned |}, log).
Proof.
  intros Hd. destruct (dispatch_yields sys ev Hd) as (sp & st & lg & E & _).
  exists sp, st, lg. split; [exact E|]. unfold step. rewrite Hd, E. reflexivity.
Qed.

Lemma X17_no_task_throws_witness :
  exists spawned st log,
    _requestExplain_catch 2 unavailable (ai (after auto_lookup))
      = (Normal spawned, st, log)
    /\ step (after auto_lookup) (CompletionRejected 0 unavailable)
       = Some ({| ai := st; pending := [] ++ spawned |}, log).
Proof.
  apply (@X17_no_task_throws (after auto_lookup) (CompletionRejected 0 unavailable)
           (_requestExplain_catch 2 unavailable) []).
  vm_compute. reflexivity.
Defined.

(** X18. Only a lookup with shift held engages the pane.  Shift is held
    exactly when the modifier keys of the history state are an array
    containing "shift".  A lookup without it hides the pane, asks for no
    settings and suspends nothing; a lookup with it asks for the settings
    and suspends one continuation under the new token, leaving the pane
    as it is until they arrive.  Either way the stored input is dropped,
    nothing is requested, and content and status are untouched. *)
Theorem X18_only_shift_lookups_engage (q : option jsstring) (h : History)
    (st : DisplayAi.t) :
  (_isShiftLookup h = true
   <-> exists keys, modifierKeys h = Some keys /\ In (lit "shift") keys)
  /\ exists st' log,
       _onContentUpdateStart q h st
       = (Normal (if _isShiftLookup h
                  then [PUpdateSettings (plus_one (_requestId st)) q] else []),
          st', log)
       /\ (In EGetSettings log <-> _isShiftLookup h = true)
       /\ requests log = []
       /\ _requestId st' = plus_one (_requestId st)
       /\ _pendingInput st' = None
       /\ _root st' = (if _isShiftLookup h then _root st else root_hidden st)
       /\ _content st' = _content st
       /\ _status st' = _status st
       /\ _button st' = _button st
       /\ _settings st' = _settings st.
Proof.
  split.
  - unfold _isShiftLookup. destruct (modifierKeys h) as [keys|].
    + rewrite existsb_exists. split.
      * intros (k & Hin & Hk). apply str_eqb_eq in Hk. subst. now exists keys.
      * intros (keys' & E & Hin). injection E as <-. exists (lit "shift").
        split; [exact Hin | now apply str_eqb_eq].
    + split; [discriminate | now intros (keys & E & _)].
  - destruct st as [ro co sto bu id se pe].
    unfold _onContentUpdateStart, root_hidden, bind, read, write_requestId,
      write_pendingInput, _setVisible, effect, ret.
    cbn [_root _content _status _button _settings _requestId _pendingInput].
    destruct (_isShiftLookup h); cbn [negb]; [|destruct ro];
      cbn [_root _content _status _button _settings _requestId _pendingInput];
      (eexists _, _; split; [reflexivity|]);
      cbn [_root _content _status _button _settings _requestId _pendingInput app];
      (split; [split; [intros H; first [reflexivity | cbn in H; intuition discriminate]
                      | intros H; first [discriminate | cbn; auto]]|]);
      repeat split.
Qed.

(** X20. A clear resets the pane whatever it held: the pane, the button
    and the status line are hidden, the content and the status text are
    emptied, the stored input is dropped and the token moves on, while
    the cached settings are kept.  It asks for no settings and requests
    nothing, and a click after it does nothing until a lookup stores a
    new input. *)
Theorem X20_clear_resets_the_pane (st : DisplayAi.t) (h : History) :
  exists log,
    _onContentClear st = (Normal [], cleared st, log)
    /\ requests log = []
    /\ ~ In EGetSettings log
    /\ _onButtonClick h (cleared st) = (Normal [], cleared st, []).
Proof.
  destruct st as [ro co sto bu id se pe].
  unfold _onContentClear, cleared, bind, read, write_requestId, write_pendingInput,
    _setVisible, _setButtonVisible, _setStatusText, _setContentText, write_content, ret.
  cbn [_root _content _status _button _settings _requestId _pendingInput].
  destruct ro, co, sto, bu;
    cbn [_root _content _status _button _settings _requestId _pendingInput];
    (eexists; split; [reflexivity|]);
    (split; [reflexivity|]);
    (split; [cbn; intuition discriminate|]);
    unfold _onButtonClick; destruct (negb (_isShiftLookup h)); reflexivity.
Qed.
